(** * toa-cookie-session: a shallow embedding of [index.js]

    The middleware keeps one closure variable per request ([session]),
    exposes it through a getter/setter pair, and writes a cookie from
    the [onPreEnd] hook.  Everything else it touches is host code:
    [JSON], [Buffer], [Object.keys], [Object.create] and the cookie
    accessor [this.cookies].  The host pieces are modelled in the
    modules [Object], [JSON], [Buffer] and [Cookies]; the functions of
    [index.js] keep their names at top level.  The file is in strict
    mode, and so are the assignments modelled here.

    Modelled fragment of the host:
    - a JavaScript string is a [string] whose characters are the code
      units U+0000..U+00FF;
    - a JavaScript number is an integer [Z] of magnitude at most
      2^53 - 1, or negative zero;
    - objects are trees (no sharing, no cycles) whose own enumerable
      properties are kept in the order [Object.keys] reports them;
      functions are opaque, so a [toJSON] method is not called.
    [JSON.parse] follows the whole JSON grammar: it answers [Bad]
    exactly on the texts the host rejects, and [Beyond] on a
    well-formed text whose value is outside the fragment (a number
    that is not such an integer, a code unit above U+00FF).  Where
    [index.js] goes on with something outside the fragment, its model
    answers [Unmodelled] instead of a result: after a cookie whose
    value is outside the fragment, after an assignment to [__proto__]
    in a handler, and when a constructor argument brings a function
    as prototype. *)

From Stdlib Require Import ZArith String Ascii List Bool Lia.
From Stdlib Require Import DecimalString DecimalN DecimalFacts.
From stdpp Require Import base option list gmap strings.

Local Open Scope string_scope.
Local Open Scope Z_scope.

(** ** JavaScript values and completions *)

(** [VNum z] is the number [z]; [VNegZero] is the number [-0], which
    is distinct from [VNum 0] and is written as [0] by
    [JSON.stringify]. *)
#[warnings="-register-all"] Inductive value : Type :=
| VUndefined
| VNull
| VBool (b : bool)
| VNum (z : Z)
| VNegZero
| VStr (s : string)
| VArr (elems : list value)
| VObj (props : list (string * value))
| VFun.

Inductive exn : Type :=
| Error (msg : string)
| TypeError (msg : string)
| SyntaxError (msg : string).

(** The outcome of evaluating a JavaScript expression or call: it
    either returns or throws. *)
Inductive completion (A : Type) : Type :=
| Return (a : A)
| Throw (e : exn).
Arguments Return {A} a.
Arguments Throw {A} e.

#[global] Instance completion_ret : MRet completion := fun A a => Return a.

#[global] Instance completion_bind : MBind completion := fun A B k m =>
  match m with
  | Return a => k a
  | Throw e => Throw e
  end.

(** What the model says of a step of the program: how it completes,
    or that the step lies outside what the model describes. *)
Inductive outcome (A : Type) : Type :=
| Known (r : completion A)
| Unmodelled.
Arguments Known {A} r.
Arguments Unmodelled {A}.

Coercion Known : completion >-> outcome.
#[global] Arguments pair {A B}%_type_scope & a b.

#[global] Instance outcome_bind : MBind outcome := fun A B k m =>
  match m with
  | Known (Return a) => k a
  | Known (Throw e) => Known (Throw e)
  | Unmodelled => Unmodelled
  end.

Inductive js_type : Type :=
| TUndefined | TObject | TBoolean | TNumber | TString | TFunction.

(** [typeof v] *)
Definition typeof (v : value) : js_type :=
  match v with
  | VUndefined => TUndefined
  | VNull => TObject
  | VBool _ => TBoolean
  | VNum _ | VNegZero => TNumber
  | VStr _ => TString
  | VArr _ | VObj _ => TObject
  | VFun => TFunction
  end.

(** ToBoolean: what [!v], [if (v)] and [a && b] test. *)
Definition truthy (v : value) : bool :=
  match v with
  | VUndefined | VNull | VNegZero => false
  | VBool b => b
  | VNum z => negb (z =? 0)
  | VStr s => negb (String.eqb s EmptyString)
  | VArr _ | VObj _ | VFun => true
  end.

(** [v == null] *)
Definition loosely_null (v : value) : bool :=
  match v with
  | VUndefined | VNull => true
  | _ => false
  end.

(** [v !== false] *)
Definition is_not_false (v : value) : bool :=
  match v with
  | VBool false => false
  | _ => true
  end.

(** ** Decimal text of integers *)

Definition string_of_N (n : N) : string :=
  NilEmpty.string_of_uint (N.to_uint n).

Definition string_of_Z (z : Z) : string :=
  match z with
  | Z0 => "0"
  | Zpos p => string_of_N (Npos p)
  | Zneg p => String "-" (string_of_N (Npos p))
  end.

(** A property key is an array index when it is the canonical decimal
    text of an integer below 2^32 - 1. *)
Definition array_index (k : string) : option N :=
  match NilEmpty.uint_of_string k with
  | Some d =>
      let n := N.of_uint d in
      if String.eqb (string_of_N n) k && (n <? 4294967295)%N then Some n else None
  | None => None
  end.

(** ** Own properties in [Object.keys] order

    An ordinary object lists its array-index keys first, in ascending
    numeric order, then its other string keys in creation order. *)

Fixpoint obj_lookup (props : list (string * value)) (k : string) : option value :=
  match props with
  | [] => None
  | (k', v) :: rest => if String.eqb k' k then Some v else obj_lookup rest k
  end.

Fixpoint obj_replace (props : list (string * value)) (k : string) (v : value)
  : list (string * value) :=
  match props with
  | [] => []
  | (k', v') :: rest =>
      if String.eqb k' k then (k', v) :: rest else (k', v') :: obj_replace rest k v
  end.

Fixpoint obj_insert_index (n : N) (k : string) (v : value)
  (props : list (string * value)) : list (string * value) :=
  match props with
  | [] => [(k, v)]
  | (k', v') :: rest =>
      match array_index k' with
      | Some n' =>
          if (n' <? n)%N then (k', v') :: obj_insert_index n k v rest
          else (k, v) :: props
      | None => (k, v) :: props
      end
  end.

(** Creating or updating the own data property [k]. *)
Definition obj_set (props : list (string * value)) (k : string) (v : value)
  : list (string * value) :=
  match obj_lookup props k with
  | Some _ => obj_replace props k v
  | None =>
      match array_index k with
      | Some n => obj_insert_index n k v props
      | None => props ++ [(k, v)]
      end
  end.

(** ** Heap objects with prototypes

    Configuration objects are shared between requests, so they live in
    a heap and are referred to by location.  Their properties are plain
    writable data properties. *)

Abbreviation loc := positive.

Record object : Type := {
  own_props : gmap string value;
  proto : option loc
}.

Abbreviation heap := (gmap positive object).

(** [o.k]: the own property, else the one found along the prototype
    chain, else [undefined].  [fuel] bounds the length of the chain. *)
Fixpoint get_prop (fuel : nat) (h : heap) (l : loc) (k : string) : value :=
  match fuel with
  | O => VUndefined
  | S fuel =>
      match h !! l with
      | None => VUndefined
      | Some o =>
          match own_props o !! k with
          | Some v => v
          | None =>
              match proto o with
              | Some p => get_prop fuel h p k
              | None => VUndefined
              end
          end
      end
  end.

Definition prop (h : heap) (l : loc) (k : string) : value :=
  get_prop (S (size h)) h l k.

(** [o.k = v]: creates or updates the own property of the receiver,
    whatever its prototype holds. *)
Definition set_prop (h : heap) (l : loc) (k : string) (v : value) : heap :=
  alter (fun o => {| own_props := <[k := v]> (own_props o); proto := proto o |}) l h.

Definition alloc (h : heap) (o : object) : heap * loc :=
  let l := fresh (dom h) in (<[l := o]> h, l).

Module Object.

Fixpoint indices (start : N) (len : nat) : list string :=
  match len with
  | O => []
  | S len' => string_of_N start :: indices (N.succ start) len'
  end.

(** [Object.keys(v)]: the own enumerable string keys.  Primitives are
    coerced to their wrapper object; [null] and [undefined] throw. *)
Definition keys (v : value) : completion (list string) :=
  match v with
  | VUndefined | VNull => Throw (TypeError "Cannot convert undefined or null to object")
  | VBool _ | VNum _ | VNegZero | VFun => Return []
  | VStr s => Return (indices 0 (String.length s))
  | VArr l => Return (indices 0 (List.length l))
  | VObj props => Return (map fst props)
  end.

(** [v[k]] for an own key [k] of [v]; [undefined] when there is none. *)
Definition get (v : value) (k : string) : value :=
  match v with
  | VObj props => default VUndefined (obj_lookup props k)
  | VArr l =>
      match array_index k with
      | Some n => nth (N.to_nat n) l VUndefined
      | None => VUndefined
      end
  | VStr s =>
      match array_index k with
      | Some n =>
          match String.get (N.to_nat n) s with
          | Some c => VStr (String c EmptyString)
          | None => VUndefined
          end
      | None => VUndefined
      end
  | _ => VUndefined
  end.

(** [Object.create(p)]: a new object with no own property whose
    prototype is [p]. *)
Definition create (h : heap) (p : loc) : heap * loc :=
  alloc h {| own_props := ∅; proto := Some p |}.

End Object.

(** ** [JSON.stringify] and [JSON.parse] *)

Module JSON.

Definition dquote : ascii := "034"%char.
Definition backslash : ascii := "\"%char.

Definition hex_digit (n : N) : ascii :=
  if (n <? 10)%N then ascii_of_N (48 + n) else ascii_of_N (87 + n).

(** QuoteJSONString, one code unit at a time. *)
Definition quote_char (c : ascii) : string :=
  let n := N_of_ascii c in
  if (n =? 34)%N then String backslash (String dquote EmptyString)
  else if (n =? 92)%N then String backslash (String backslash EmptyString)
  else if (n =? 8)%N then String backslash "b"
  else if (n =? 12)%N then String backslash "f"
  else if (n =? 10)%N then String backslash "n"
  else if (n =? 13)%N then String backslash "r"
  else if (n =? 9)%N then String backslash "t"
  else if (n <? 32)%N then
    String backslash
      (String "u" (String "0" (String "0"
         (String (hex_digit (n / 16)) (String (hex_digit (n mod 16)) EmptyString)))))
  else String c EmptyString.

Fixpoint quote_chars (s : string) : string :=
  match s with
  | EmptyString => EmptyString
  | String c s' => quote_char c ++ quote_chars s'
  end.

Definition quote (s : string) : string :=
  String dquote (quote_chars s ++ String dquote EmptyString).

Fixpoint join (sep : string) (l : list string) : string :=
  match l with
  | [] => EmptyString
  | [x] => x
  | x :: rest => x ++ sep ++ join sep rest
  end.

(** SerializeJSONProperty: [None] stands for the result [undefined].
    An array element without a text is written as [null]; an object
    member without a text is left out. *)
Fixpoint serialize (v : value) : option string :=
  match v with
  | VUndefined | VFun => None
  | VNull => Some "null"
  | VBool true => Some "true"
  | VBool false => Some "false"
  | VNum z => Some (string_of_Z z)
  | VNegZero => Some "0"
  | VStr s => Some (quote s)
  | VArr l =>
      Some ("[" ++ join "," (List.map (fun x => default "null" (serialize x)) l) ++ "]")
  | VObj props =>
      Some ("{" ++
            join ","
              (List.flat_map
                 (fun '(k, x) =>
                    match serialize x with
                    | Some t => [quote k ++ ":" ++ t]
                    | None => []
                    end) props) ++
            "}")
  end.

(** [JSON.stringify(v)] *)
Definition stringify (v : value) : option string := serialize v.

Definition is_ws (c : ascii) : bool :=
  let n := N_of_ascii c in
  (n =? 32)%N || (n =? 9)%N || (n =? 10)%N || (n =? 13)%N.

Fixpoint skip_ws (s : string) : string :=
  match s with
  | EmptyString => EmptyString
  | String c s' => if is_ws c then skip_ws s' else s
  end.

Definition is_digit (c : ascii) : bool :=
  let n := N_of_ascii c in (48 <=? n)%N && (n <=? 57)%N.

Fixpoint span_digits (s : string) : string * string :=
  match s with
  | EmptyString => (EmptyString, EmptyString)
  | String c s' =>
      if is_digit c then
        let '(ds, rest) := span_digits s' in (String c ds, rest)
      else (EmptyString, s)
  end.

Definition hex_value (c : ascii) : option N :=
  let n := N_of_ascii c in
  if (48 <=? n)%N && (n <=? 57)%N then Some (n - 48)%N
  else if (97 <=? n)%N && (n <=? 102)%N then Some (n - 87)%N
  else if (65 <=? n)%N && (n <=? 70)%N then Some (n - 55)%N
  else None.

Definition simple_escape (e : ascii) : option ascii :=
  let n := N_of_ascii e in
  if (n =? 34)%N then Some dquote
  else if (n =? 92)%N then Some backslash
  else if (n =? 47)%N then Some "/"%char
  else if (n =? 98)%N then Some (ascii_of_N 8)
  else if (n =? 102)%N then Some (ascii_of_N 12)
  else if (n =? 110)%N then Some (ascii_of_N 10)
  else if (n =? 114)%N then Some (ascii_of_N 13)
  else if (n =? 116)%N then Some (ascii_of_N 9)
  else None.

(** What the model says of a text: the host reads the value [a]; the
    host rejects the text with a SyntaxError; or the host reads a
    value that lies outside the modelled fragment. *)
Inductive parsed (A : Type) : Type :=
| Ok (a : A)
| Bad
| Beyond.
Arguments Ok {A} a.
Arguments Bad {A}.
Arguments Beyond {A}.

(** What a parsing function finds at the head of a text: a value and
    the rest of the text, where [None] stands for a well-formed value
    outside the modelled fragment; or a syntax error; or the end of
    its fuel. *)
Inductive scan (A : Type) : Type :=
| Read (a : option A) (rest : string)
| Malformed
| Exhausted.
Arguments Read {A} a rest.
Arguments Malformed {A}.
Arguments Exhausted {A}.

Definition and_then {A B} (m : scan A) (k : option A -> string -> scan B) : scan B :=
  match m with
  | Read a rest => k a rest
  | Malformed => Malformed
  | Exhausted => Exhausted
  end.

(** The characters of a string literal, after its opening quote, up
    to and including the closing quote.  A [\u] escape above U+00FF
    is well-formed and outside the modelled fragment. *)
Fixpoint parse_chars (s : string) : scan string :=
  match s with
  | EmptyString => Malformed
  | String c s' =>
      if Ascii.eqb c dquote then Read (Some EmptyString) s'
      else if Ascii.eqb c backslash then
        match s' with
        | EmptyString => Malformed
        | String e s'' =>
            if Ascii.eqb e "u" then
              match s'' with
              | String h1 (String h2 (String h3 (String h4 s3))) =>
                  match hex_value h1, hex_value h2, hex_value h3, hex_value h4 with
                  | Some a1, Some a2, Some a, Some b =>
                      and_then (parse_chars s3) (fun t rest =>
                        Read (if (a1 =? 0)%N && (a2 =? 0)%N
                              then String (ascii_of_N (a * 16 + b)) <$> t
                              else None) rest)
                  | _, _, _, _ => Malformed
                  end
              | _ => Malformed
              end
            else
              match simple_escape e with
              | Some x => and_then (parse_chars s'') (fun t rest => Read (String x <$> t) rest)
              | None => Malformed
              end
        end
      else if (N_of_ascii c <? 32)%N then Malformed
      else and_then (parse_chars s') (fun t rest => Read (String c <$> t) rest)
  end.

(** The number a string of digits denotes. *)
Definition digits_value (ds : string) : Z :=
  match NilEmpty.uint_of_string ds with
  | Some u => Z.of_N (N.of_uint u)
  | None => 0
  end.

(** The number of magnitude [z] with the sign of the literal. *)
Definition signed (negative : bool) (z : Z) : value :=
  if z =? 0 then (if negative then VNegZero else VNum 0)
  else VNum (if negative then - z else z).

(** The number the literal with mantissa [m] (of [digits] digits) and
    decimal exponent [x] denotes, that is, the double nearest to
    [m * 10^x]: zero when [m] is zero; the integer itself when
    [m * 10^x] is an integer up to 2^53 - 1; zero again when
    [m * 10^x] is at most 2^-1075, half the least positive double.
    Every other number is outside the modelled fragment (and is not
    zero). *)
Definition number_value (negative : bool) (digits : nat) (m x : Z) : option value :=
  if m =? 0 then Some (signed negative 0)
  else if 0 <=? x then
    if x <=? 16 then
      if m * 10 ^ x <=? 9007199254740991 then Some (signed negative (m * 10 ^ x)) else None
    else None
  else if (- x <=? Z.of_nat digits) && (m mod 10 ^ (- x) =? 0) then
    if m / 10 ^ (- x) <=? 9007199254740991 then Some (signed negative (m / 10 ^ (- x)))
    else None
  else if (Z.of_nat digits + 324 <=? - x) || (m * 2 ^ 1075 <=? 10 ^ (- x)) then
    Some (signed negative 0)
  else None.

(** An optional sign in front of the text. *)
Definition minus_sign (plus_too : bool) (s : string) : bool * string :=
  match s with
  | String c s' =>
      if Ascii.eqb c "-" then (true, s')
      else if plus_too && Ascii.eqb c "+" then (false, s')
      else (false, s)
  | EmptyString => (false, s)
  end.

(** The fraction of a number literal: a point and its digits, if the
    text goes on with a point. *)
Definition fraction (s : string) : option string * string :=
  match s with
  | String c s' =>
      if Ascii.eqb c "." then (let '(f, rest) := span_digits s' in (Some f, rest))
      else (None, s)
  | EmptyString => (None, s)
  end.

(** The exponent of a number literal: [e] or [E], an optional sign
    and digits, if the text goes on with [e] or [E]. *)
Definition exponent (s : string) : option (bool * string) * string :=
  match s with
  | String c s' =>
      if Ascii.eqb c "e" || Ascii.eqb c "E" then
        let '(negative, s'') := minus_sign true s' in
        let '(e, rest) := span_digits s'' in (Some (negative, e), rest)
      else (None, s)
  | EmptyString => (None, s)
  end.

(** A number literal after its sign: an integer part without a
    superfluous leading zero, an optional fraction and an optional
    exponent, each with at least one digit. *)
Definition unsigned_number (negative : bool) (s : string) : scan value :=
  let '(int, s2) := span_digits s in
  let '(frac, s3) := fraction s2 in
  let '(exp, s4) := exponent s3 in
  match int with
  | EmptyString => Malformed
  | String d ds =>
      if Ascii.eqb d "0" && negb (String.eqb ds EmptyString) then Malformed
      else
        match frac, exp with
        | Some EmptyString, _ => Malformed
        | _, Some (_, EmptyString) => Malformed
        | _, _ =>
            let f := default EmptyString frac in
            let e := match exp with
                     | Some (true, e) => - digits_value e
                     | Some (false, e) => digits_value e
                     | None => 0
                     end in
            Read (number_value negative (String.length (int ++ f))
                    (digits_value (int ++ f)) (e - Z.of_nat (String.length f))) s4
        end
  end.

(** A number literal: an optional minus sign and the rest. *)
Definition parse_number (s : string) : scan value :=
  let '(negative, s1) := minus_sign false s in unsigned_number negative s1.

Fixpoint expect (word s : string) : option string :=
  match word, s with
  | EmptyString, _ => Some s
  | String w word', String c s' => if Ascii.eqb w c then expect word' s' else None
  | String _ _, EmptyString => None
  end.

Definition keyword (word : string) (v : value) (s : string) : scan value :=
  match expect word s with
  | Some rest => Read (Some v) rest
  | None => Malformed
  end.

(** The next character after optional white space. *)
Definition next (s : string) : option (ascii * string) :=
  match skip_ws s with
  | EmptyString => None
  | String c s' => Some (c, s')
  end.

(** Does the text, after white space, start with [c]? *)
Definition closes (c : ascii) (s : string) : option string :=
  match next s with
  | Some (c', s') => if Ascii.eqb c' c then Some s' else None
  | None => None
  end.

(** The object a member list denotes: properties are created in the
    order of the text, and a repeated name overwrites. *)
Definition object_of (kvs : list (string * value)) : value :=
  VObj (fold_left (fun o kv => obj_set o kv.1 kv.2) kvs []).

Definition cons_read {A} (x : option A) (l : option (list A)) : option (list A) :=
  match x, l with
  | Some x, Some l => Some (x :: l)
  | _, _ => None
  end.

Definition member_read (k : option string) (v : option value) : option (string * value) :=
  match k, v with
  | Some k, Some v => Some (k, v)
  | _, _ => None
  end.

(** Recursive descent over the JSON grammar; [fuel] bounds the number
    of nested calls.  Twice the length of the text and one more is
    always enough (lemma [parse_fuel]). *)
Fixpoint parse_value (fuel : nat) (s : string) : scan value :=
  match fuel with
  | O => Exhausted
  | S fuel =>
      match next s with
      | None => Malformed
      | Some (c, s') =>
          if Ascii.eqb c "{" then
            match closes "}" s' with
            | Some rest => Read (Some (VObj [])) rest
            | None =>
                and_then (parse_members fuel s') (fun kvs rest => Read (object_of <$> kvs) rest)
            end
          else if Ascii.eqb c "[" then
            match closes "]" s' with
            | Some rest => Read (Some (VArr [])) rest
            | None =>
                and_then (parse_elements fuel s') (fun vs rest => Read (VArr <$> vs) rest)
            end
          else if Ascii.eqb c dquote then
            and_then (parse_chars s') (fun t rest => Read (VStr <$> t) rest)
          else if Ascii.eqb c "t" then keyword "rue" (VBool true) s'
          else if Ascii.eqb c "f" then keyword "alse" (VBool false) s'
          else if Ascii.eqb c "n" then keyword "ull" VNull s'
          else parse_number (String c s')
      end
  end
with parse_elements (fuel : nat) (s : string) : scan (list value) :=
  match fuel with
  | O => Exhausted
  | S fuel =>
      and_then (parse_value fuel s) (fun v s1 =>
        match next s1 with
        | None => Malformed
        | Some (c, s2) =>
            if Ascii.eqb c "," then
              and_then (parse_elements fuel s2) (fun vs rest => Read (cons_read v vs) rest)
            else if Ascii.eqb c "]" then Read (cons_read v (Some [])) s2
            else Malformed
        end)
  end
with parse_members (fuel : nat) (s : string) : scan (list (string * value)) :=
  match fuel with
  | O => Exhausted
  | S fuel =>
      match closes dquote s with
      | None => Malformed
      | Some s1 =>
          and_then (parse_chars s1) (fun k s2 =>
            match closes ":" s2 with
            | None => Malformed
            | Some s3 =>
                and_then (parse_value fuel s3) (fun v s4 =>
                  match next s4 with
                  | None => Malformed
                  | Some (c, s5) =>
                      if Ascii.eqb c "," then
                        and_then (parse_members fuel s5) (fun kvs rest =>
                          Read (cons_read (member_read k v) kvs) rest)
                      else if Ascii.eqb c "}" then
                        Read (cons_read (member_read k v) (Some [])) s5
                      else Malformed
                  end)
            end)
      end
  end.

(** The fuel [parse] gives the parser. *)
Definition fuel_for (text : string) : nat := 2 * String.length text + 2.

(** Is the text well-formed: one value, surrounded by optional white
    space, and nothing else? *)
Definition accepts (text : string) : bool :=
  match parse_value (fuel_for text) text with
  | Read _ rest => String.eqb (skip_ws rest) EmptyString
  | _ => false
  end.

(** [JSON.parse(text)]: the value of a well-formed text; a
    SyntaxError otherwise. *)
Definition parse (text : string) : parsed value :=
  match parse_value (fuel_for text) text with
  | Read v rest =>
      if String.eqb (skip_ws rest) EmptyString then
        match v with
        | Some v => Ok v
        | None => Beyond
        end
      else Bad
  | Malformed => Bad
  | Exhausted => Beyond
  end.

End JSON.

(** ** [Buffer]: UTF-8 and base64 *)

Module Buffer.

(** [new Buffer(string)]: the UTF-8 bytes of the text. *)
Definition utf8_bytes (c : ascii) : list Z :=
  let n := Z.of_N (N_of_ascii c) in
  if n <? 128 then [n]
  else [Z.lor 192 (Z.shiftr n 6); Z.lor 128 (Z.land n 63)].

Fixpoint from_utf8 (s : string) : list Z :=
  match s with
  | EmptyString => []
  | String c s' => utf8_bytes c ++ from_utf8 s'
  end.

Definition char_of_byte (b : Z) : ascii := ascii_of_N (Z.to_N b).

(** The character that stands for a code unit above U+00FF in the
    text [toString_utf8] returns.  JSON's grammar treats it as it
    treats every such code unit: it is no white space, no digit and no
    punctuation, and a string literal may hold it. *)
Definition stand_in : ascii := ascii_of_N 128.

(** [buf.toString('utf8')], and whether the text is exact.  A byte
    below 128 is its character; [C2] or [C3] followed by a
    continuation byte is the character U+0080..U+00FF they encode.
    Every other byte belongs to a character above U+00FF or to an
    invalid sequence, which the host replaces by U+FFFD: such bytes
    are only ever followed by the next character's first byte, so each
    of them is shown as [stand_in] and the text is marked inexact.
    (The host may produce fewer code units than there are such bytes;
    whether a text is well-formed JSON does not depend on the number.) *)
Fixpoint toString_utf8 (b : list Z) : string * bool :=
  match b with
  | [] => (EmptyString, true)
  | b1 :: rest =>
      if (0 <=? b1) && (b1 <? 128) then
        let '(t, exact) := toString_utf8 rest in (String (char_of_byte b1) t, exact)
      else
        match rest with
        | b2 :: rest' =>
            if ((b1 =? 194) || (b1 =? 195)) && (Z.land b2 192 =? 128) then
              let '(t, exact) := toString_utf8 rest' in
              (String (char_of_byte (Z.lor (Z.shiftl (Z.land b1 31) 6) (Z.land b2 63))) t, exact)
            else
              let '(t, _) := toString_utf8 rest in (String stand_in t, false)
        | [] => (String stand_in EmptyString, false)
        end
  end.

(** The base64 alphabet. *)
Definition base64_char (i : Z) : ascii :=
  if i <? 26 then char_of_byte (65 + i)
  else if i <? 52 then char_of_byte (71 + i)
  else if i <? 62 then char_of_byte (i - 4)
  else if i =? 62 then "+"%char
  else "/"%char.

(** [buf.toString('base64')], with padding. *)
Fixpoint toString_base64 (b : list Z) : string :=
  match b with
  | [] => EmptyString
  | [b1] =>
      String (base64_char (Z.shiftr b1 2))
        (String (base64_char (Z.shiftl (Z.land b1 3) 4)) "==")
  | [b1; b2] =>
      String (base64_char (Z.shiftr b1 2))
        (String (base64_char (Z.lor (Z.shiftl (Z.land b1 3) 4) (Z.shiftr b2 4)))
           (String (base64_char (Z.shiftl (Z.land b2 15) 2)) "="))
  | b1 :: b2 :: b3 :: rest =>
      String (base64_char (Z.shiftr b1 2))
        (String (base64_char (Z.lor (Z.shiftl (Z.land b1 3) 4) (Z.shiftr b2 4)))
           (String (base64_char (Z.lor (Z.shiftl (Z.land b2 15) 2) (Z.shiftr b3 6)))
              (String (base64_char (Z.land b3 63)) (toString_base64 rest))))
  end.

(** The decoder's table: both the standard and the URL-safe alphabet;
    [None] for every other character. *)
Definition unbase64 (c : ascii) : option Z :=
  let n := Z.of_N (N_of_ascii c) in
  if (65 <=? n) && (n <=? 90) then Some (n - 65)
  else if (97 <=? n) && (n <=? 122) then Some (n - 71)
  else if (48 <=? n) && (n <=? 57) then Some (n + 4)
  else if (n =? 43) || (n =? 45) then Some 62
  else if (n =? 47) || (n =? 95) then Some 63
  else None.

(** The decoder skips characters outside the table and stops at the
    first [=]. *)
Fixpoint sextets (s : string) : list Z :=
  match s with
  | EmptyString => []
  | String c s' =>
      match unbase64 c with
      | Some v => v :: sextets s'
      | None => if Ascii.eqb c "=" then [] else sextets s'
      end
  end.

Fixpoint bytes_of_sextets (l : list Z) : list Z :=
  match l with
  | h1 :: h2 :: h3 :: h4 :: rest =>
      Z.lor (Z.shiftl (Z.land h1 63) 2) (Z.shiftr (Z.land h2 48) 4)
      :: Z.lor (Z.shiftl (Z.land h2 15) 4) (Z.shiftr (Z.land h3 60) 2)
      :: Z.lor (Z.shiftl (Z.land h3 3) 6) (Z.land h4 63)
      :: bytes_of_sextets rest
  | [h1; h2; h3] =>
      [Z.lor (Z.shiftl (Z.land h1 63) 2) (Z.shiftr (Z.land h2 48) 4);
       Z.lor (Z.shiftl (Z.land h2 15) 4) (Z.shiftr (Z.land h3 60) 2)]
  | [h1; h2] =>
      [Z.lor (Z.shiftl (Z.land h1 63) 2) (Z.shiftr (Z.land h2 48) 4)]
  | _ => []
  end.

(** [new Buffer(string, 'base64')]: never throws. *)
Definition from_base64 (s : string) : list Z := bytes_of_sextets (sextets s).

End Buffer.

(** ** The host's cookie accessor, [this.cookies] *)

Module Cookies.

(** The request side: for each cookie name the client sent, its value
    and whether its signature cookie verifies; and whether the
    connection is encrypted. *)
Record jar : Type := {
  incoming : gmap string (string * bool);
  encrypted : bool
}.

(** One [Set-Cookie] written by [set]: name, value and the attributes
    the accessor read from the options object at that moment. *)
Record set_cookie : Type := {
  sc_name : value;
  sc_value : string;
  sc_options : loc;
  sc_attrs : list (string * value)
}.

Definition attr_names : list string :=
  ["signed"; "httpOnly"; "secure"; "sameSite"; "maxAge"; "path"; "overwrite"].

(** Modelled from the spec: [get(name, options) -> string|undefined],
    the host's accessor, which is not part of this repository.  With
    [options.signed] a value whose signature does not verify is not
    returned. *)
Definition get (j : jar) (h : heap) (name : value) (options : loc) : option string :=
  match name with
  | VStr n =>
      match incoming j !! n with
      | Some (v, sig_ok) =>
          if truthy (prop h options "signed") && negb sig_ok then None else Some v
      | None => None
      end
  | _ => None
  end.

(** Modelled from the spec: [set(name, value, options) -> void], the
    host's accessor.  It fails when [options.secure] is requested on a
    connection that is not encrypted; otherwise it appends one
    [Set-Cookie] (an empty value is the removal of the cookie).  The
    companion signature cookie the host adds when [options.signed] is
    set is the host's business and is not recorded. *)
Definition set (j : jar) (h : heap) (name : value) (val : string) (options : loc)
  : completion set_cookie :=
  if truthy (prop h options "secure") && negb (encrypted j) then
    Throw (Error "Cannot send secure cookie over unencrypted connection")
  else
    Return {| sc_name := name; sc_value := val; sc_options := options;
              sc_attrs := map (fun k => (k, prop h options k)) attr_names |}.

End Cookies.

(** ** [index.js] *)

(** The object built by [new Session(obj)]: the read-only,
    non-enumerable [isNew] and the own enumerable properties. *)
Record session_t : Type := {
  isNew : bool;
  own : list (string * value)
}.

(** No function anywhere inside [v]; [JSON.parse] returns such values
    only. *)
Fixpoint function_free (v : value) : bool :=
  match v with
  | VFun => false
  | VArr l => forallb function_free l
  | VObj props => forallb (fun '(_, x) => function_free x) props
  | _ => true
  end.

(** [this[key] = v] inside the constructor, in strict mode.  [isNew]
    is not writable.  [__proto__] reaches the accessor a new Session
    inherits from [Object.prototype]: it replaces the prototype when
    [v] is an object or [null] and does nothing otherwise, and it
    creates no own property; the plain objects and arrays of the model
    have writable data properties only, so with one of them as
    prototype the later assignments go on as before.  A prototype
    that is or holds a function brings read-only properties or a
    [toJSON] method: not modelled. *)
Definition session_assign (this : session_t) (key : string) (v : value)
  : outcome session_t :=
  if String.eqb key "isNew" then
    Throw (TypeError "Cannot assign to read only property 'isNew' of object")
  else if String.eqb key "__proto__" then
    if function_free v then Return this else Unmodelled
  else Return {| isNew := isNew this; own := obj_set (own this) key v |}.

Fixpoint assign_keys (obj : value) (keys : list string) (this : session_t)
  : outcome session_t :=
  match keys with
  | [] => Return this
  | key :: rest =>
      this' ← session_assign this key (Object.get obj key);
      assign_keys obj rest this'
  end.

(** [function Session (obj)] *)
Definition Session (obj : value) : outcome session_t :=
  let this := {| isNew := negb (truthy obj); own := [] |} in
  if truthy obj then
    keys ← Known (Object.keys obj);
    assign_keys obj keys this
  else Return this.

(** The body of the [try] block of [decode]:
    [JSON.parse(new Buffer(string, 'base64').toString('utf8'))].
    When the text is not exact, it holds a character above U+00FF,
    which a well-formed text can only have inside a string literal:
    the value is then outside the modelled fragment. *)
Definition decode_try (string : string) : JSON.parsed value :=
  let '(text, exact) := Buffer.toString_utf8 (Buffer.from_base64 string) in
  match JSON.parse text with
  | JSON.Ok v => if exact then JSON.Ok v else JSON.Beyond
  | JSON.Bad => JSON.Bad
  | JSON.Beyond => JSON.Beyond
  end.

(** [function decode (string)]: the [try] block returns what
    [JSON.parse] returns; the empty [catch] falls through to the end of
    the function, which returns [undefined].  A value outside the
    modelled fragment is returned by the code and not described by the
    model. *)
Definition decode (string : string) : outcome value :=
  match decode_try string with
  | JSON.Ok v => Return v
  | JSON.Bad => Return VUndefined
  | JSON.Beyond => Unmodelled
  end.

(** [function encode (body)]; [new Buffer(undefined)] throws. *)
Definition encode (body : value) : completion string :=
  match JSON.stringify body with
  | Some text => Return (Buffer.toString_base64 (Buffer.from_utf8 text))
  | None => Throw (TypeError "First argument must be a string, Buffer, ArrayBuffer, Array, or array-like object.")
  end.

(** What [toaCookieSession] leaves in the closure of the middleware it
    returns. *)
Record middleware : Type := {
  options : loc;
  sessionKey : value
}.

(** [function toaCookieSession (options)]; [None] is a call without
    (or with a falsy) argument. *)
Definition toaCookieSession (opts : option loc) (h : heap) : heap * middleware :=
  let '(h, o) :=
    match opts with
    | Some o => (h, o)
    | None => alloc h {| own_props := ∅; proto := None |}
    end in
  let h := set_prop h o "overwrite" (VBool (is_not_false (prop h o "overwrite"))) in
  let h := set_prop h o "httpOnly" (VBool (is_not_false (prop h o "httpOnly"))) in
  let h := set_prop h o "signed" (VBool (is_not_false (prop h o "signed"))) in
  let name := prop h o "name" in
  (h, {| options := o;
         sessionKey := if truthy name then name else VStr "toa:sess" |}).

(** The closure variable [session]. *)
Inductive slot : Type :=
| SFalse
| SNull
| SUndefined
| SString (s : string)
| SSession (s : session_t).

(** The value of the variable, as [JSON.stringify] and the handler see
    it. *)
Definition slot_value (s : slot) : value :=
  match s with
  | SFalse => VBool false
  | SNull => VNull
  | SUndefined => VUndefined
  | SString t => VStr t
  | SSession o => VObj (own o)
  end.

Inductive event : Type :=
| EvSetCookie (sc : Cookies.set_cookie)
| EvCallback.

(** The request context [this], with the closure variable of
    [cookieSession] and a log of what the middleware did to the host:
    the cookies it set and the calls of [cb]. *)
Record ctx : Type := {
  cookies : Cookies.jar;
  sessionOptions : loc;
  session : slot;
  log : list event
}.

Definition with_session (c : ctx) (s : slot) : ctx :=
  {| cookies := cookies c; sessionOptions := sessionOptions c;
     session := s; log := log c |}.

Definition with_event (c : ctx) (e : event) : ctx :=
  {| cookies := cookies c; sessionOptions := sessionOptions c;
     session := session c; log := log c ++ [e] |}.

(** [function cookieSession (done)], run on a new request. *)
Definition cookieSession (mw : middleware) (j : Cookies.jar) (h : heap) : heap * ctx :=
  let '(h, so) := Object.create h (options mw) in
  (h, {| cookies := j; sessionOptions := so; session := SFalse; log := [] |}).

(** The getter of [this.session]; it returns the variable.  When the
    cookie holds a value outside the modelled fragment, the model
    stops after the first assignment to the variable. *)
Definition session_get (mw : middleware) (h : heap) (c : ctx) : ctx * outcome slot :=
  match session c with
  | SFalse =>
      let raw := Cookies.get (cookies c) h (sessionKey mw) (sessionOptions c) in
      let c := with_session c (match raw with Some s => SString s | None => SUndefined end) in
      let arg : outcome value :=
        match raw with
        | Some s => if truthy (VStr s) then decode s else Return (VStr s)
        | None => Return VUndefined
        end in
      match arg ≫= Session with
      | Known (Return s) => (with_session c (SSession s), Return (SSession s))
      | Known (Throw e) => (c, Throw e)
      | Unmodelled => (c, Unmodelled)
      end
  | s => (c, Return s)
  end.

(** The setter of [this.session]. *)
Definition session_set (val : value) (c : ctx) : ctx * outcome unit :=
  if loosely_null val then (with_session c SNull, Return tt)
  else
    match typeof val with
    | TObject =>
        match Session val with
        | Known (Return s) => (with_session c (SSession s), Return tt)
        | Known (Throw e) => (c, Throw e)
        | Unmodelled => (c, Unmodelled)
        end
    | _ => (c, Throw (Error "session can only be set as null or an object."))
    end.

(** [session == null ? '' : encode(session)], the value [onPreEnd]
    passes to [cookies.set]. *)
Definition cookie_value (s : slot) : completion string :=
  if loosely_null (slot_value s) then Return EmptyString else encode (slot_value s).

(** [this.onPreEnd = function (cb)]; calling [cb] is logged. *)
Definition onPreEnd (mw : middleware) (h : heap) (c : ctx) : ctx * completion unit :=
  let set_step : ctx * completion unit :=
    match session c with
    | SFalse => (c, Return tt)
    | s =>
        match
          v ← cookie_value s;
          Cookies.set (cookies c) h (sessionKey mw) v (sessionOptions c)
        with
        | Return sc => (with_event c (EvSetCookie sc), Return tt)
        | Throw e => (c, Throw e)
        end
    end in
  match set_step with
  | (c, Return _) => (with_event c EvCallback, Return tt)
  | (c, Throw e) => (c, Throw e)
  end.

(** ** Handlers and the request life cycle *)

(** What a handler can do to the parts of [this] the middleware owns. *)
Inductive op : Type :=
| GetSession
| SetSession (val : value)
| PutSessionKey (k : string) (v : value)
| PutOption (k : string) (v : value).

(** One handler statement: [this.session], [this.session = val],
    [this.session[k] = v] (in strict mode) and
    [this.sessionOptions[k] = v].  What an assignment to [__proto__]
    does depends on the prototype the object has at that moment, which
    the model does not follow: it stops there. *)
Definition run_op (mw : middleware) (o : op) (st : heap * ctx)
  : (heap * ctx) * outcome unit :=
  let '(h, c) := st in
  match o with
  | GetSession =>
      match session_get mw h c with
      | (c, Known (Return _)) => ((h, c), Return tt)
      | (c, Known (Throw e)) => ((h, c), Throw e)
      | (c, Unmodelled) => ((h, c), Unmodelled)
      end
  | SetSession val =>
      match session_set val c with
      | (c, r) => ((h, c), r)
      end
  | PutSessionKey k v =>
      match session_get mw h c with
      | (c, Known (Return (SSession s))) =>
          if String.eqb k "__proto__" then ((h, c), Unmodelled)
          else
            match session_assign s k v with
            | Known (Return s') => ((h, with_session c (SSession s')), Return tt)
            | Known (Throw e) => ((h, c), Throw e)
            | Unmodelled => ((h, c), Unmodelled)
            end
      | (c, Known (Return _)) =>
          ((h, c), Throw (TypeError "Cannot set property of a primitive"))
      | (c, Known (Throw e)) => ((h, c), Throw e)
      | (c, Unmodelled) => ((h, c), Unmodelled)
      end
  | PutOption k v =>
      if String.eqb k "__proto__" then ((h, c), Unmodelled)
      else ((set_prop h (sessionOptions c) k v, c), Return tt)
  end.

(** A handler is a sequence of statements; an uncaught throw ends it,
    and so does a statement the model does not describe. *)
Fixpoint run_handler (mw : middleware) (ops : list op) (st : heap * ctx)
  : (heap * ctx) * outcome unit :=
  match ops with
  | [] => (st, Return tt)
  | o :: rest =>
      match run_op mw o st with
      | (st, Known (Return _)) => run_handler mw rest st
      | (st, r) => (st, r)
      end
  end.

(** The statements of [ops] that were actually run, the throwing one
    included. *)
Fixpoint executed (mw : middleware) (ops : list op) (st : heap * ctx) : list op :=
  match ops with
  | [] => []
  | o :: rest =>
      match run_op mw o st with
      | (st, Known (Return _)) => o :: executed mw rest st
      | (_, _) => [o]
      end
  end.

Definition returns {A} (m : outcome A) : bool :=
  match m with
  | Known (Return _) => true
  | _ => false
  end.

(** Does the statement read the session property, or write it (an
    assignment the setter rejects writes nothing)? *)
Definition touches (o : op) : bool :=
  match o with
  | GetSession | PutSessionKey _ _ => true
  | SetSession val =>
      loosely_null val ||
      match typeof val with
      | TObject => returns (Session val)
      | _ => false
      end
  | PutOption _ _ => false
  end.

(** A response; the status is [None] when the model does not describe
    the request to its end. *)
Record response : Type := {
  status : option Z;
  set_cookies : list Cookies.set_cookie
}.

Definition set_cookies_of (l : list event) : list Cookies.set_cookie :=
  omap (fun e => match e with EvSetCookie sc => Some sc | EvCallback => None end) l.

Fixpoint cb_calls (l : list event) : nat :=
  match l with
  | [] => O
  | EvCallback :: rest => S (cb_calls rest)
  | EvSetCookie _ :: rest => cb_calls rest
  end.

(** Modelled from the spec: the host's request life cycle, which is not
    part of this repository.  It runs the middleware, then the handler,
    then the [onPreEnd] hook; an uncaught error anywhere becomes a
    server error response that carries no cookie. *)
Definition serve (mw : middleware) (handler : list op) (j : Cookies.jar) (h : heap)
  : heap * response :=
  let '((h, c), r) := run_handler mw handler (cookieSession mw j h) in
  match r with
  | Known (Return _) =>
      match onPreEnd mw h c with
      | (c, Return _) => (h, {| status := Some 200; set_cookies := set_cookies_of (log c) |})
      | (_, Throw _) => (h, {| status := Some 500; set_cookies := [] |})
      end
  | Known (Throw _) => (h, {| status := Some 500; set_cookies := [] |})
  | Unmodelled => (h, {| status := None; set_cookies := [] |})
  end.

(** The cookies a client sends back after [r]: a cookie set with an
    empty value is removed. *)
Definition returned_by (r : response) (encrypted : bool) : Cookies.jar :=
  {| Cookies.incoming :=
       fold_left
         (fun m sc =>
            match Cookies.sc_name sc with
            | VStr n =>
                if String.eqb (Cookies.sc_value sc) EmptyString then delete n m
                else <[n := (Cookies.sc_value sc, true)]> m
            | _ => m
            end)
         (set_cookies r) ∅;
     Cookies.encrypted := encrypted |}.


(** ** Values that survive serialization *)

Definition index_below (n : N) (k : string) : bool :=
  match array_index k with
  | Some m => (m <? n)%N
  | None => false
  end.

(** May [k] be created after the keys [seen] and still come last in
    [Object.keys] order?  It must be new, and an array index may only
    follow smaller array indices. *)
Definition fits (seen : list string) (k : string) : bool :=
  negb (existsb (String.eqb k) seen) &&
  match array_index k with
  | Some n => forallb (index_below n) seen
  | None => true
  end.

Fixpoint keys_ordered_from (seen ks : list string) : bool :=
  match ks with
  | [] => true
  | k :: rest => fits seen k && keys_ordered_from (seen ++ [k]) rest
  end.

(** The keys are distinct and in the order [Object.keys] reports. *)
Definition keys_ordered (ks : list string) : bool := keys_ordered_from [] ks.

(** The values [JSON.stringify] writes without loss: no [undefined],
    no function, no negative zero, integers in the safe range,
    properties in own-key order. *)
Fixpoint serializable (v : value) : bool :=
  match v with
  | VUndefined | VFun | VNegZero => false
  | VNull | VBool _ | VStr _ => true
  | VNum z => Z.abs z <=? 9007199254740991
  | VArr l => forallb serializable l
  | VObj props =>
      keys_ordered (map fst props) && forallb (fun '(_, x) => serializable x) props
  end.

(** The number of nested parser calls a value needs. *)
Fixpoint weight (v : value) : nat :=
  match v with
  | VArr l => S (list_sum (List.map (fun x => S (weight x)) l))
  | VObj props => S (list_sum (List.map (fun '(_, x) => S (weight x)) props))
  | _ => 1%nat
  end.

(** ** Concrete applications and requests, for the examples *)

(** [cookieSession()] without options: [{overwrite: true, httpOnly:
    true, signed: true}] under the name [toa:sess]. *)
Definition default_app : heap * middleware := toaCookieSession None ∅.

(** A heap with the configuration object [{secure: true}]. *)
Definition secure_heap : heap :=
  {[ 1%positive := {| own_props := {[ "secure" := VBool true ]}; proto := None |} ]}.

(** [cookieSession({secure: true})] *)
Definition secure_app : heap * middleware :=
  toaCookieSession (Some 1%positive) secure_heap.

(** A request without cookies over an unencrypted connection. *)
Definition no_cookies : Cookies.jar :=
  {| Cookies.incoming := ∅; Cookies.encrypted := false |}.

(** A request that carries the session cookie [raw], with a valid
    signature. *)
Definition with_cookie (raw : string) : Cookies.jar :=
  {| Cookies.incoming := {[ "toa:sess" := (raw, true) ]}; Cookies.encrypted := false |}.

(** The first request of an application without options, presenting
    the session cookie [raw]. *)
Definition first_request (raw : string) : ctx :=
  (cookieSession default_app.2 (with_cookie raw) default_app.1).2.

(** The session [{message: 'hi', string: ';'}]. *)
Definition hi_session : session_t :=
  {| isNew := true; own := [("message", VStr "hi"); ("string", VStr ";")] |}.

(** The own enumerable keys of a value that has some. *)
Definition own_keys (v : value) : list string :=
  match Object.keys v with
  | Return ks => ks
  | Throw _ => []
  end.

(** The properties [Object.keys] and indexing find on a string. *)
Fixpoint chars_from (i : N) (t : string) : list (string * value) :=
  match t with
  | EmptyString => []
  | String ch t' => (string_of_N i, VStr (String ch EmptyString)) :: chars_from (N.succ i) t'
  end.

(** ** Well-formed heaps *)

(** Every prototype link points to an object of the heap. *)
Definition heap_closed (h : heap) : Prop :=
  forall l o p, h !! l = Some o -> proto o = Some p -> is_Some (h !! p).

(** [h'] differs from [h] at most in the own properties of the object
    at [l0]. *)
Definition same_but (l0 : loc) (h h' : heap) : Prop :=
  (forall l, l <> l0 -> h' !! l = h !! l) /\
  proto <$> h' !! l0 = proto <$> h !! l0.

(** ** Induction on values *)

Section ValueInd.

Variable P : value -> Prop.
Hypothesis Hundefined : P VUndefined.
Hypothesis Hnull : P VNull.
Hypothesis Hbool : forall b, P (VBool b).
Hypothesis Hnum : forall z, P (VNum z).
Hypothesis Hnegzero : P VNegZero.
Hypothesis Hstr : forall s, P (VStr s).
Hypothesis Harr : forall l, Forall P l -> P (VArr l).
Hypothesis Hobj : forall props, Forall (fun kv => P kv.2) props -> P (VObj props).
Hypothesis Hfun : P VFun.

(** The induction principle that reaches the elements of arrays and
    the property values of objects. *)
Fixpoint value_nested_ind (v : value) : P v :=
  match v with
  | VUndefined => Hundefined
  | VNull => Hnull
  | VBool b => Hbool b
  | VNum z => Hnum z
  | VNegZero => Hnegzero
  | VStr s => Hstr s
  | VArr l =>
      Harr l
        ((fix all (l : list value) : Forall P l :=
            match l with
            | [] => @List.Forall_nil _ P
            | x :: rest => @List.Forall_cons _ P x rest (value_nested_ind x) (all rest)
            end) l)
  | VObj props =>
      Hobj props
        ((fix all (l : list (string * value)) : Forall (fun kv => P kv.2) l :=
            match l with
            | [] => @List.Forall_nil _ _
            | (k, x) :: rest =>
                @List.Forall_cons _ (fun kv => P kv.2) (k, x) rest (value_nested_ind x) (all rest)
            end) props)
  | VFun => Hfun
  end.

End ValueInd.

(** ** What the round trip through JSON text asks of a text *)

(** May the text [rest] follow an integer literal and leave it as it
    is?  Not a digit, and no fraction or exponent mark. *)
Definition number_end (rest : string) : bool :=
  match rest with
  | EmptyString => true
  | String c _ =>
      negb (JSON.is_digit c || Ascii.eqb c "." || Ascii.eqb c "e" || Ascii.eqb c "E")
  end.

(** The text starts with a character a value can start with. *)
Definition starts_value (text : string) : Prop :=
  exists c text', text = String c text' /\ JSON.is_ws c = false /\ Ascii.eqb c "]" = false.

(** The parser reads [v] back from [text], whatever follows it. *)
Definition reads_back (v : value) (text : string) : Prop :=
  starts_value text /\ (weight v <= String.length text)%nat /\
  forall fuel rest, (weight v <= fuel)%nat -> number_end rest = true ->
    JSON.parse_value fuel (text ++ rest) = JSON.Read (Some v) rest.

Definition reads_back_if_serializable (v : value) : Prop :=
  serializable v = true -> exists text, JSON.serialize v = Some text /\ reads_back v text.

(** No property is named like the two keys an assignment to a Session
    cannot create; every Session the middleware builds is so. *)
Definition reserved_free (props : list (string * value)) : bool :=
  forallb (fun kv => negb (String.eqb kv.1 "isNew") && negb (String.eqb kv.1 "__proto__")) props.

(** The shape of the own properties of every Session: keys in own-key
    order, none of them reserved. *)
Definition session_wf (s : session_t) : bool :=
  keys_ordered (map fst (own s)) && reserved_free (own s).

Definition slot_wf (s : slot) : bool :=
  match s with
  | SSession o => session_wf o
  | _ => true
  end.

(** Every own enumerable value is serializable. *)
Definition values_serializable (props : list (string * value)) : bool :=
  forallb (fun '(_, x) => serializable x) props.

(** ** More vocabulary for the statements *)

(** The three options the factory turns into booleans. *)
Definition defaulted : list string := ["overwrite"; "httpOnly"; "signed"].


(** No object inside [v] has a method [toJSON], which
    [JSON.stringify] would call instead of reading the object. *)
Fixpoint no_toJSON (v : value) : bool :=
  match v with
  | VArr l => forallb no_toJSON l
  | VObj props =>
      forallb (fun '(k, x) =>
                 negb (String.eqb k "toJSON" && match x with VFun => true | _ => false end) &&
                 no_toJSON x) props
  | _ => true
  end.

(** The characters of base64 text, padding included. *)
Definition base64_alphabet (c : ascii) : bool :=
  let n := Z.of_N (N_of_ascii c) in
  (65 <=? n) && (n <=? 90) || (97 <=? n) && (n <=? 122) ||
  (48 <=? n) && (n <=? 57) || (n =? 43) || (n =? 47) || (n =? 61).

Fixpoint all_chars (p : ascii -> bool) (s : string) : bool :=
  match s with
  | EmptyString => true
  | String c s' => p c && all_chars p s'
  end.

(** The properties [Object.keys] and indexing find on an array. *)
Fixpoint elements_from (i : N) (l : list value) : list (string * value) :=
  match l with
  | [] => []
  | x :: l' => (string_of_N i, x) :: elements_from (N.succ i) l'
  end.


(** The value under the own key [__proto__] of [obj], if there is one,
    holds no function. *)
Definition plain_proto (obj : value) : bool :=
  function_free (Object.get obj "__proto__").

(** A parsing function that was given enough fuel has consumed some
    of a text of [n] characters, or has found a syntax error. *)
Definition consumes {A} (n : nat) (r : JSON.scan A) : Prop :=
  match r with
  | JSON.Read _ rest => (String.length rest < n)%nat
  | JSON.Malformed => True
  | JSON.Exhausted => False
  end.

(** * Properties *)

(** ** The Session constructor *)

Lemma Session_falsy (v : value) :
  truthy v = false -> Session v = Return {| isNew := true; own := [] |}.
Proof. intros Hv. unfold Session. by rewrite Hv. Qed.

Lemma session_assign_isNew (this s : session_t) (k : string) (v : value) :
  session_assign this k v = Return s -> isNew s = isNew this.
Proof.
  unfold session_assign. repeat case_match; intros [= <-]; done.
Qed.

Lemma assign_keys_isNew (obj : value) (ks : list string) :
  forall this s, assign_keys obj ks this = Return s -> isNew s = isNew this.
Proof.
  induction ks as [|k ks IH]; intros this s; cbn.
  - by intros [= <-].
  - destruct (session_assign this k (Object.get obj k)) as [[this'|e]|] eqn:E; cbn;
      [|done..].
    intros H%IH. rewrite H. by eapply session_assign_isNew.
Qed.

Lemma Session_isNew (v : value) (s : session_t) :
  Session v = Return s -> isNew s = negb (truthy v).
Proof.
  unfold Session. destruct (truthy v); [|by intros [= <-]].
  destruct (Object.keys v) as [ks|e]; cbn; [|done].
  by intros H%assign_keys_isNew.
Qed.

(** ** The closure variable through a request *)

Section Request.

Variable mw : middleware.

Lemma session_get_loaded (h : heap) (c : ctx) :
  session c <> SFalse -> session_get mw h c = (c, Return (session c)).
Proof. unfold session_get. by destruct (session c). Qed.

(** A first read leaves a Session in the variable, or, when the
    constructor throws, the raw cookie text. *)
Lemma session_get_first (h : heap) (c c' : ctx) (r : outcome slot) :
  session c = SFalse ->
  session_get mw h c = (c', r) ->
  (exists s, c' = with_session c (SSession s) /\ r = Return (SSession s)) \/
  (exists raw, Cookies.get (cookies c) h (sessionKey mw) (sessionOptions c) = Some raw /\
     c' = with_session c (SString raw) /\ returns r = false).
Proof.
  intros Hs. unfold session_get. rewrite Hs.
  destruct (Cookies.get _ _ _ _) as [raw|]; cbn.
  - destruct (_ ≫= Session) as [[s|e]|]; intros [= <- <-]; [left|right..]; eauto.
  - intros [= <- <-]. left. eauto.
Qed.

Lemma session_set_cases (val : value) (c c' : ctx) (r : outcome unit) :
  session_set val c = (c', r) ->
  (touches (SetSession val) = true /\ r = Return tt /\
     exists s, c' = with_session c s /\ s <> SFalse /\ s <> SUndefined) \/
  (touches (SetSession val) = false /\ c' = c /\ returns r = false).
Proof.
  unfold session_set, touches.
  destruct (loosely_null val); cbn.
  { intros [= <- <-]. left. repeat split. by exists SNull. }
  destruct (typeof val); try (intros [= <- <-]; right; eauto).
  destruct (Session val) as [[s|e]|]; cbn; intros [= <- <-]; [left|right..]; eauto.
  repeat split. by exists (SSession s).
Qed.

Lemma session_get_cases (h : heap) (c c' : ctx) (r : outcome slot) :
  session_get mw h c = (c', r) ->
  cookies c' = cookies c /\ sessionOptions c' = sessionOptions c /\ log c' = log c /\
  session c' <> SFalse /\
  (session c <> SUndefined -> session c' <> SUndefined) /\
  match r with
  | Known (Return s) => s = session c'
  | _ => session c = SFalse /\ exists raw, session c' = SString raw
  end.
Proof.
  intros E.
  assert (session c = SFalse \/ session c <> SFalse) as [Hs|Hs]
    by (destruct (session c); eauto).
  - destruct (session_get_first _ _ _ _ Hs E) as [(s & -> & ->)|(raw & _ & -> & Hr)];
      cbn; repeat split; eauto.
    destruct r as [[|]|]; cbn in *; eauto; done.
  - rewrite session_get_loaded in E by done. injection E as <- <-. done.
Qed.

(** What one handler statement does to the variable, and that it
    touches nothing else of the context. *)
Lemma run_op_session (o : op) (st st' : heap * ctx) (r : outcome unit) :
  run_op mw o st = (st', r) ->
  cookies st'.2 = cookies st.2 /\ sessionOptions st'.2 = sessionOptions st.2 /\
  log st'.2 = log st.2 /\
  (session st.2 <> SUndefined -> session st'.2 <> SUndefined) /\
  (session st'.2 = SFalse <-> session st.2 = SFalse /\ touches o = false).
Proof.
  destruct st as [h c]. destruct o; cbn.
  - destruct (session_get mw h c) as [c1 r1] eqn:E.
    destruct (session_get_cases _ _ _ _ E) as (H1 & H2 & H3 & H4 & H5 & _).
    destruct r1 as [[|]|]; intros [= <- <-]; cbn; repeat split; try done; by intros [].
  - destruct (session_set val c) as [c1 r1] eqn:E. intros [= <- <-]. cbn.
    destruct (session_set_cases _ _ _ _ E) as [(Ht & _ & s & -> & Hs1 & Hs2)|(Ht & -> & _)];
      cbn in *; rewrite Ht; repeat split; try done; try by intros [].
  - destruct (session_get mw h c) as [c1 r1] eqn:E.
    destruct (session_get_cases _ _ _ _ E) as (H1 & H2 & H3 & H4 & H5 & H6).
    assert (forall c2, (c2 = c1 \/ exists s, c2 = with_session c1 (SSession s)) ->
      cookies c2 = cookies c /\ sessionOptions c2 = sessionOptions c /\ log c2 = log c /\
      (session c <> SUndefined -> session c2 <> SUndefined) /\
      (session c2 = SFalse <-> session c = SFalse /\ true = false)) as Hc2.
    { intros c2 [->|[s ->]]; cbn; repeat split; try done; by intros []. }
    destruct r1 as [[[]|]|]; try (intros [= <- <-]; apply Hc2; eauto).
    destruct (String.eqb k "__proto__"); [intros [= <- <-]; apply Hc2; eauto|].
    destruct (session_assign s k v) as [[|]|]; intros [= <- <-]; apply Hc2; eauto.
  - destruct (String.eqb k "__proto__"); intros [= <- <-]; cbn; repeat split; try done; tauto.
Qed.

Lemma run_handler_session (ops : list op) :
  forall (st st' : heap * ctx) (r : outcome unit),
  run_handler mw ops st = (st', r) ->
  cookies st'.2 = cookies st.2 /\ sessionOptions st'.2 = sessionOptions st.2 /\
  log st'.2 = log st.2 /\
  (session st.2 <> SUndefined -> session st'.2 <> SUndefined) /\
  (session st'.2 = SFalse <->
     session st.2 = SFalse /\ existsb touches (executed mw ops st) = false).
Proof.
  induction ops as [|o ops IH]; intros st st' r; cbn.
  - intros [= <- <-]. repeat split; try done. tauto.
  - destruct (run_op mw o st) as [st1 r1] eqn:E.
    destruct (run_op_session _ _ _ _ E) as (H1 & H2 & H3 & H4 & H5).
    destruct r1 as [[|]|].
    + intros (G1 & G2 & G3 & G4 & G5)%IH. cbn.
      rewrite G1, G2, G3, G5, H5, orb_false_iff. repeat split; tauto.
    + intros [= <- <-]. cbn. rewrite H5, orb_false_iff. repeat split; tauto.
    + intros [= <- <-]. cbn. rewrite H5, orb_false_iff. repeat split; tauto.
Qed.

End Request.

(** ** Finalization: [onPreEnd] *)

Lemma cookie_value_total (s : slot) : exists v, cookie_value s = Return v.
Proof. destruct s; cbn; eauto. Qed.

Lemma cookieSession_initial (mw : middleware) (j : Cookies.jar) (h : heap) :
  session (cookieSession mw j h).2 = SFalse /\ log (cookieSession mw j h).2 = [] /\
  cookies (cookieSession mw j h).2 = j.
Proof. done. Qed.

Section Finalization.

Variable mw : middleware.

(** What [onPreEnd] does, by the state of the variable and the outcome
    of the host's [cookies.set]. *)
Lemma onPreEnd_cases (h : heap) (c : ctx) :
  match session c with
  | SFalse => onPreEnd mw h c = (with_event c EvCallback, Return tt)
  | s =>
      exists v, cookie_value s = Return v /\
        match Cookies.set (cookies c) h (sessionKey mw) v (sessionOptions c) with
        | Return sc =>
            onPreEnd mw h c = (with_event (with_event c (EvSetCookie sc)) EvCallback, Return tt)
        | Throw e => onPreEnd mw h c = (c, Throw e)
        end
  end.
Proof.
  unfold onPreEnd.
  destruct (session c) as [| | |raw|s] eqn:Hs; [done|..];
    match goal with |- context [cookie_value ?s] =>
      destruct (cookie_value_total s) as [v Hv]; exists v; split; [done|];
      rewrite Hv; cbn; by destruct (Cookies.set _ _ _ _ _)
    end.
Qed.

Lemma cb_calls_app (l1 l2 : list event) :
  cb_calls (l1 ++ l2) = (cb_calls l1 + cb_calls l2)%nat.
Proof. induction l1 as [|[] l1 IH]; cbn; lia. Qed.

(** C8, amended: [onPreEnd] calls [cb] exactly once when it does not
    attempt to set the cookie (the session was never touched) and when
    the host's [cookies.set] returns; when [cookies.set] throws, the
    error leaves [onPreEnd] and [cb] is not called. *)
Theorem onPreEnd_calls_cb_once_unless_set_throws (h : heap) (c : ctx) :
  match session c with
  | SFalse =>
      (onPreEnd mw h c).2 = Return tt /\
      cb_calls (log (onPreEnd mw h c).1) = S (cb_calls (log c))
  | s =>
      exists v, cookie_value s = Return v /\
        match Cookies.set (cookies c) h (sessionKey mw) v (sessionOptions c) with
        | Return _ =>
            (onPreEnd mw h c).2 = Return tt /\
            cb_calls (log (onPreEnd mw h c).1) = S (cb_calls (log c))
        | Throw e =>
            (onPreEnd mw h c).2 = Throw e /\
            cb_calls (log (onPreEnd mw h c).1) = cb_calls (log c)
        end
  end.
Proof.
  pose proof (onPreEnd_cases h c) as H.
  destruct (session c);
    [rewrite H; cbn; rewrite cb_calls_app; cbn; split; [done|lia]|..];
    destruct H as (v & Hv & H); exists v; (split; [done|]);
    destruct (Cookies.set _ _ _ _ _); rewrite H; cbn;
    rewrite ?cb_calls_app; cbn; split; done || lia.
Qed.

End Finalization.

(** ** Own properties *)

Lemma obj_lookup_replace (o : list (string * value)) (k k' : string) (v : value) :
  is_Some (obj_lookup o k) ->
  obj_lookup (obj_replace o k v) k' = if String.eqb k k' then Some v else obj_lookup o k'.
Proof.
  induction o as [|[k0 v0] o IH]; cbn; [by intros [? [=]]|].
  destruct (String.eqb_spec k0 k) as [->|Hne]; cbn.
  - intros _. by destruct (String.eqb k k').
  - intros Hk. rewrite IH by done.
    destruct (String.eqb_spec k0 k') as [->|]; [|done].
    by destruct (String.eqb_spec k k') as [->|].
Qed.

Lemma obj_lookup_insert_index (n : N) (o : list (string * value)) (k k' : string) (v : value) :
  obj_lookup o k = None ->
  obj_lookup (obj_insert_index n k v o) k' = if String.eqb k k' then Some v else obj_lookup o k'.
Proof.
  induction o as [|[k0 v0] o IH]; cbn; [done|].
  destruct (String.eqb_spec k0 k) as [->|Hne]; [done|]. intros Hk.
  destruct (array_index k0) as [n0|]; [destruct (n0 <? n)%N|]; cbn; rewrite ?IH by done;
    destruct (String.eqb_spec k k') as [->|]; try done;
    by destruct (String.eqb_spec k0 k') as [->|].
Qed.

Lemma obj_lookup_app (o1 o2 : list (string * value)) (k : string) :
  obj_lookup (o1 ++ o2) k =
  match obj_lookup o1 k with Some v => Some v | None => obj_lookup o2 k end.
Proof.
  induction o1 as [|[k0 v0] o1 IH]; cbn; [done|]. by destruct (String.eqb k0 k).
Qed.

Lemma obj_lookup_set (o : list (string * value)) (k k' : string) (v : value) :
  obj_lookup (obj_set o k v) k' = if String.eqb k k' then Some v else obj_lookup o k'.
Proof.
  unfold obj_set. destruct (obj_lookup o k) eqn:Hk.
  - by apply obj_lookup_replace.
  - destruct (array_index k); [by apply obj_lookup_insert_index|].
    rewrite obj_lookup_app. cbn.
    destruct (String.eqb_spec k k') as [->|]; [by rewrite Hk|by destruct (obj_lookup o k')].
Qed.

(** ** The setter *)

(** The constructor throws exactly when [isNew] is among the keys it
    copies. *)
Lemma assign_keys_outcome (obj : value) (ks : list string) (this : session_t) :
  plain_proto obj = true ->
  if bool_decide ("isNew" ∈ ks)
  then assign_keys obj ks this =
       Throw (TypeError "Cannot assign to read only property 'isNew' of object")
  else exists s, assign_keys obj ks this = Return s.
Proof.
  intros Hplain. revert this.
  induction ks as [|k0 ks IH]; intros this; cbn; [by eexists|].
  unfold session_assign.
  destruct (String.eqb_spec k0 "isNew") as [->|Hne]; cbn.
  { rewrite bool_decide_eq_true_2; [done|by apply list_elem_of_here]. }
  assert (bool_decide ("isNew" ∈ k0 :: ks) = bool_decide ("isNew" ∈ ks)) as ->.
  { apply bool_decide_ext. rewrite elem_of_cons. split; [by intros [?|?]|by right]. }
  destruct (String.eqb_spec k0 "__proto__") as [->|Hp]; cbn; [|apply IH].
  unfold plain_proto in Hplain. rewrite Hplain. cbn. apply IH.
Qed.

Lemma run_handler_app (mw : middleware) (ops1 ops2 : list op) (st : heap * ctx) :
  run_handler mw (ops1 ++ ops2) st =
  match run_handler mw ops1 st with
  | (st1, Known (Return _)) => run_handler mw ops2 st1
  | (st1, r) => (st1, r)
  end.
Proof.
  revert st. induction ops1 as [|o ops1 IH]; intros st; cbn; [done|].
  destruct (run_op mw o st) as [st1 [[|]|]]; [apply IH|done..].
Qed.

Lemma assign_keys_lookup (obj : value) (ks : list string) :
  forall this s, assign_keys obj ks this = Return s ->
  forall k, k <> "__proto__" ->
  obj_lookup (own s) k =
  if bool_decide (k ∈ ks) then Some (Object.get obj k) else obj_lookup (own this) k.
Proof.
  induction ks as [|k0 ks IH]; intros this s; cbn.
  - by intros [= <-].
  - destruct (session_assign this k0 (Object.get obj k0)) as [[this'|e]|] eqn:E; cbn;
      [|done..].
    intros Hs k Hk. rewrite (IH _ _ Hs k Hk).
    destruct (bool_decide_reflect (k ∈ ks)) as [Hin|Hin].
    { rewrite bool_decide_eq_true_2; [done|by apply list_elem_of_further]. }
    revert E. unfold session_assign.
    destruct (String.eqb k0 "isNew"); [done|].
    destruct (String.eqb_spec k0 "__proto__") as [->|Hp].
    + destruct (function_free _); intros [= <-]; cbn.
      rewrite bool_decide_eq_false_2; [done|].
      intros [->|?]%elem_of_cons; done.
    + intros [= <-]; cbn.
      rewrite obj_lookup_set. destruct (String.eqb_spec k0 k) as [->|Hne].
      * rewrite bool_decide_eq_true_2; [done|by apply list_elem_of_here].
      * rewrite bool_decide_eq_false_2; [done|].
        intros [->|?]%elem_of_cons; done.
Qed.

(** The setter, by the type of the assigned value: [null] and
    [undefined] empty the session; an object or array without an own
    key [isNew] replaces it by a new Session that is not new and
    holds, under every key but [__proto__], what the assigned value
    holds; one with an own key [isNew] throws the constructor's
    TypeError and changes nothing; anything else throws the error of
    the setter, changes nothing, and the request ends as a server
    error without a cookie. *)
Lemma session_set_by_type (val : value) (c : ctx) :
  match typeof val, loosely_null val with
  | _, true => session_set val c = (with_session c SNull, Return tt)
  | TObject, false =>
      plain_proto val = true ->
      if bool_decide ("isNew" ∈ own_keys val) then
        session_set val c =
        (c, Throw (TypeError "Cannot assign to read only property 'isNew' of object"))
      else
        exists s, session_set val c = (with_session c (SSession s), Return tt) /\
          isNew s = false /\
          forall k, k <> "__proto__" ->
            obj_lookup (own s) k =
            if bool_decide (k ∈ own_keys val) then Some (Object.get val k) else None
  | _, false =>
      session_set val c = (c, Throw (Error "session can only be set as null or an object.")) /\
      forall mw before after j h,
        (run_handler mw before (cookieSession mw j h)).2 = Return tt ->
        (serve mw (before ++ SetSession val :: after) j h).2 =
        {| status := Some 500; set_cookies := [] |}
  end.
Proof.
  assert (forall mw before after j h e,
    (forall c0, session_set val c0 = (c0, Known (Throw e))) ->
    (run_handler mw before (cookieSession mw j h)).2 = Return tt ->
    (serve mw (before ++ SetSession val :: after) j h).2 =
    {| status := Some 500; set_cookies := [] |})
    as Hserve.
  { intros mw before after j h e Hall. unfold serve. rewrite run_handler_app.
    destruct (run_handler mw before _) as [[h1 c1] [[|]|]]; [|done..].
    intros _. cbn. by rewrite Hall. }
  unfold session_set.
  destruct val as [| |b|z| |t|l|props|]; cbn; try done;
    try (split; [done|]; intros; eapply Hserve; by cbn).
  - intros Hplain. unfold Session, own_keys. cbn.
    pose proof (assign_keys_outcome (VArr l) (Object.indices 0 (length l))
                  {| isNew := false; own := [] |} Hplain) as H.
    destruct (bool_decide _); [by rewrite H|].
    destruct H as [s Hs]. rewrite Hs. exists s. split; [done|]. split.
    + by rewrite (assign_keys_isNew _ _ _ _ Hs).
    + intros k Hk. by rewrite (assign_keys_lookup _ _ _ _ Hs k Hk).
  - intros Hplain. unfold Session, own_keys. cbn.
    pose proof (assign_keys_outcome (VObj props) (map fst props)
                  {| isNew := false; own := [] |} Hplain) as H.
    destruct (bool_decide _); [by rewrite H|].
    destruct H as [s Hs]. rewrite Hs. exists s. split; [done|]. split.
    + by rewrite (assign_keys_isNew _ _ _ _ Hs).
    + intros k Hk. by rewrite (assign_keys_lookup _ _ _ _ Hs k Hk).
Qed.

(** ** The getter *)

Section Getter.

Variable mw : middleware.

(** The argument expression [session && decode(session)] of the first
    read, for what [cookies.get] returned. *)
Lemma session_get_fresh (h : heap) (c : ctx) :
  session c = SFalse ->
  session_get mw h c =
  let raw := Cookies.get (cookies c) h (sessionKey mw) (sessionOptions c) in
  let c1 := with_session c (match raw with Some s => SString s | None => SUndefined end) in
  match
    match raw return outcome value with
    | Some s => if truthy (VStr s) then decode s else Return (VStr s)
    | None => Return VUndefined
    end ≫= Session
  with
  | Known (Return s) => (with_session c (SSession s), Return (SSession s))
  | Known (Throw e) => (c1, Throw e)
  | Unmodelled => (c1, Unmodelled)
  end.
Proof.
  intros Hs. unfold session_get. rewrite Hs. cbn zeta.
  by case_match.
Qed.

Lemma decode_never_throws (raw : string) (e : exn) : decode raw <> Throw e.
Proof. unfold decode. by destruct (decode_try raw). Qed.


(** The value the Session constructor receives on a first read is
    falsy exactly when the cookie is missing or empty, or does not
    decode, or decodes to a falsy JSON value. *)
Lemma first_read_argument (raw : string) (arg : value) :
  (if truthy (VStr raw) then decode raw else Return (VStr raw)) = Return arg ->
  truthy arg = false <->
  raw = EmptyString \/ decode_try raw = JSON.Bad \/
  (exists v, decode_try raw = JSON.Ok v /\ truthy v = false).
Proof.
  cbn. destruct (String.eqb_spec raw EmptyString) as [->|Hne]; cbn.
  - intros [= <-]. cbn. tauto.
  - unfold decode. destruct (decode_try raw) as [v| |]; intros [= <-].
    + split; [eauto|]. intros [?|[[=]|[v' [[= <-] Hv']]]]; done.
    + cbn. split; [eauto|done].
Qed.

(** A cookie that decodes is never empty. *)
Lemma decoded_not_empty (raw : string) (v : value) :
  decode_try raw = JSON.Ok v -> truthy (VStr raw) = true.
Proof.
  intros Hv. cbn. destruct (String.eqb_spec raw EmptyString) as [->|]; [|done].
  by vm_compute in Hv.
Qed.

(** The first read when the cookie decodes to [v] and the constructor
    returns. *)
Lemma session_get_decoded (h : heap) (c : ctx) (raw : string) (v : value) (s : session_t) :
  session c = SFalse ->
  Cookies.get (cookies c) h (sessionKey mw) (sessionOptions c) = Some raw ->
  decode_try raw = JSON.Ok v ->
  Session v = Return s ->
  session_get mw h c = (with_session c (SSession s), Return (SSession s)).
Proof.
  intros Hs Hraw Hv Hsv. rewrite (session_get_fresh h c Hs), Hraw. cbn zeta.
  cbn match. rewrite (decoded_not_empty _ _ Hv). unfold decode. rewrite Hv.
  cbn [mbind outcome_bind]. by rewrite Hsv.
Qed.

End Getter.

(** ** The empty object, and an unchanged session *)

(** The same cookie value comes back: the request presents the cookie
    a previous response set, the handler reads one field, and the
    response sets the identical value again. *)
Example unchanged_content_is_rewritten :
  map Cookies.sc_value
    (set_cookies (serve default_app.2 [GetSession]
                    (with_cookie "eyJtZXNzYWdlIjoiaGkifQ==") default_app.1).2)
  = ["eyJtZXNzYWdlIjoiaGkifQ=="].
Proof. vm_compute. reflexivity. Qed.

(** C3: on this code the assignment [this.session = {}] does produce
    a cookie, [e30=] (the base64 of the text of the empty object), with
    or without a previous read; the assignment of [{name: 'x'}]
    produces one as well. *)
Theorem empty_object_assignment_sets_cookie :
  map Cookies.sc_value
    (set_cookies (serve default_app.2 [SetSession (VObj [])] no_cookies default_app.1).2)
  = ["e30="] /\
  map Cookies.sc_value
    (set_cookies (serve default_app.2 [GetSession; SetSession (VObj [])]
                    no_cookies default_app.1).2)
  = ["e30="] /\
  map Cookies.sc_value
    (set_cookies (serve default_app.2 [SetSession (VObj [("name", VStr "x")])]
                    no_cookies default_app.1).2)
  = ["eyJuYW1lIjoieCJ9"].
Proof. vm_compute. done. Qed.

(** The assignment of the empty object is accepted for every request,
    and finalization then passes [e30=] to [cookies.set]. *)
Lemma empty_object_assignment_general (mw : middleware) (h : heap) (c : ctx) :
  session_set (VObj []) c = (with_session c (SSession {| isNew := false; own := [] |}), Return tt) /\
  cookie_value (SSession {| isNew := false; own := [] |}) = Return "e30=".
Proof. done. Qed.

(** ** Inputs on which a claim fails *)

(** C4 fails as stated: the cookie [bnVsbA==] is sent, its signature
    verifies, and both decoding steps succeed (the text is [null]),
    yet the Session is new. *)
Lemma null_payload_is_new :
  let c := (cookieSession default_app.2 (with_cookie "bnVsbA==") default_app.1).2 in
  Cookies.get (cookies c) default_app.1 (sessionKey default_app.2) (sessionOptions c)
    = Some "bnVsbA==" /\
  decode_try "bnVsbA==" = JSON.Ok VNull /\
  (session_get default_app.2 default_app.1 c).2
    = Return (SSession {| isNew := true; own := [] |}).
Proof. vm_compute. done. Qed.

(** C5: on this code an object with an own enumerable key [isNew] is
    of type object, yet assigning it to the session throws the
    constructor's TypeError; the session is not replaced, and the
    request ends as a server error without a cookie. *)
Theorem object_with_isNew_key_is_rejected :
  let c := (cookieSession default_app.2 no_cookies default_app.1).2 in
  let val := VObj [("isNew", VBool true)] in
  typeof val = TObject /\ loosely_null val = false /\
  session_set val c =
  (c, Throw (TypeError "Cannot assign to read only property 'isNew' of object")) /\
  (serve default_app.2 [SetSession val] no_cookies default_app.1).2 =
  {| status := Some 500; set_cookies := [] |}.
Proof. vm_compute. done. Qed.

(** C8 fails as stated: with [secure] requested on an unencrypted
    connection, [cookies.set] throws inside [onPreEnd] and [cb] is
    never called. *)
Lemma callback_skipped_when_set_throws :
  let st := (run_handler secure_app.2 [GetSession]
               (cookieSession secure_app.2 no_cookies secure_app.1)).1 in
  onPreEnd secure_app.2 st.1 st.2 =
  (st.2, Throw (Error "Cannot send secure cookie over unencrypted connection")) /\
  cb_calls (log (onPreEnd secure_app.2 st.1 st.2).1) = 0%nat /\
  cb_calls (log (onPreEnd secure_app.2 st.1 st.2).1) <> 1%nat.
Proof. vm_compute. done. Qed.


(** C1 fails as stated: with [secure] requested on an unencrypted
    connection the handler reads the session, [cookies.set] throws
    inside [onPreEnd], and no cookie is set. *)
Lemma accessed_session_without_cookie :
  let st0 := cookieSession secure_app.2 no_cookies secure_app.1 in
  let st := (run_handler secure_app.2 [GetSession] st0).1 in
  run_handler secure_app.2 [GetSession] st0 = (st, Known (Return tt)) /\
  existsb touches (executed secure_app.2 [GetSession] st0) = true /\
  session st.2 = SSession {| isNew := true; own := [] |} /\
  set_cookies_of (log (onPreEnd secure_app.2 st.1 st.2).1) = [] /\
  (serve secure_app.2 [GetSession] no_cookies secure_app.1).2 =
  {| status := Some 500; set_cookies := [] |}.
Proof. vm_compute. done. Qed.

(** C2 fails as stated: the request presents the cookie of
    [{message: 'hi'}], the handler reads the session twice and changes
    nothing, and under [secure] on an unencrypted connection the
    cookie is not set again. *)
Lemma unchanged_session_without_cookie :
  let j := with_cookie "eyJtZXNzYWdlIjoiaGkifQ==" in
  let st0 := cookieSession secure_app.2 j secure_app.1 in
  let st := (run_handler secure_app.2 [GetSession; GetSession] st0).1 in
  session st.2 = SSession {| isNew := false; own := [("message", VStr "hi")] |} /\
  onPreEnd secure_app.2 st.1 st.2 =
  (st.2, Throw (Error "Cannot send secure cookie over unencrypted connection")) /\
  (serve secure_app.2 [GetSession; GetSession] j secure_app.1).2 =
  {| status := Some 500; set_cookies := [] |}.
Proof. vm_compute. done. Qed.

(** ** Array-index keys and own-key order *)

Lemma string_of_N_inj (m n : N) : string_of_N m = string_of_N n -> m = n.
Proof.
  unfold string_of_N. intros H. apply Unsigned.to_uint_inj.
  assert (Some (N.to_uint m) = Some (N.to_uint n)) as [= ->]; [|done].
  by rewrite <- !NilEmpty.usu, H.
Qed.

Lemma array_index_string_of_N (n : N) :
  (n < 4294967295)%N -> array_index (string_of_N n) = Some n.
Proof.
  intros Hn. unfold array_index, string_of_N.
  rewrite NilEmpty.usu, Unsigned.of_to, String.eqb_refl.
  by apply N.ltb_lt in Hn as ->.
Qed.

Lemma array_index_inv (k : string) (n : N) :
  array_index k = Some n -> k = string_of_N n /\ (n < 4294967295)%N.
Proof.
  unfold array_index. destruct (NilEmpty.uint_of_string k) as [d|]; [|done].
  destruct (String.eqb_spec (string_of_N (N.of_uint d)) k) as [Hk|]; [|done].
  destruct (N.ltb_spec (N.of_uint d) 4294967295); [|done].
  cbn. by intros [= <-].
Qed.

Lemma obj_lookup_fresh (o : list (string * value)) (k : string) :
  existsb (String.eqb k) (map fst o) = false -> obj_lookup o k = None.
Proof.
  induction o as [|[k0 v0] o IH]; cbn; [done|].
  rewrite (String.eqb_sym k0 k). by destruct (String.eqb k k0).
Qed.

Lemma obj_insert_index_last (n : N) (o : list (string * value)) (k : string) (v : value) :
  forallb (index_below n) (map fst o) = true ->
  obj_insert_index n k v o = (o ++ [(k, v)])%list.
Proof.
  induction o as [|[k0 v0] o IH]; cbn; [done|].
  unfold index_below at 1. destruct (array_index k0) as [n0|]; [|done].
  destruct (n0 <? n)%N; [|done]. cbn. by intros ->%IH.
Qed.

(** A key that fits after the present ones is appended. *)
Lemma obj_set_fits (o : list (string * value)) (k : string) (v : value) :
  fits (map fst o) k = true -> obj_set o k v = (o ++ [(k, v)])%list.
Proof.
  unfold fits, obj_set. intros [Hnew Hidx]%andb_true_iff.
  apply negb_true_iff in Hnew. rewrite (obj_lookup_fresh _ _ Hnew).
  destruct (array_index k); [by apply obj_insert_index_last|done].
Qed.

Lemma fold_obj_set_ordered (rest : list (string * value)) :
  forall acc,
  keys_ordered_from (map fst acc) (map fst rest) = true ->
  fold_left (fun o kv => obj_set o kv.1 kv.2) rest acc = (acc ++ rest)%list.
Proof.
  induction rest as [|[k v] rest IH]; intros acc; cbn.
  - by rewrite app_nil_r.
  - intros [Hfit Hord]%andb_true_iff. rewrite (obj_set_fits _ _ _ Hfit).
    rewrite IH; [by rewrite <- app_assoc|]. by rewrite map_app.
Qed.

(** A member list whose names are in own-key order denotes the object
    with exactly these properties. *)
Lemma object_of_ordered (props : list (string * value)) :
  keys_ordered (map fst props) = true -> JSON.object_of props = VObj props.
Proof.
  intros H. unfold JSON.object_of. by rewrite (fold_obj_set_ordered props []).
Qed.

(** ** The own properties of a string *)

Lemma append_cons (c : ascii) (a b : string) : String c a ++ b = String c (a ++ b).
Proof. reflexivity. Qed.

Lemma append_nil_l (b : string) : EmptyString ++ b = b.
Proof. reflexivity. Qed.

Lemma append_nil_r (a : string) : a ++ EmptyString = a.
Proof. induction a as [|c a IH]; [done|]. by rewrite append_cons, IH. Qed.

Lemma append_assoc (a b c : string) : (a ++ b) ++ c = a ++ (b ++ c).
Proof. induction a as [|x a IH]; [done|]. by rewrite !append_cons, IH. Qed.

Lemma length_append (a b : string) :
  String.length (a ++ b) = (String.length a + String.length b)%nat.
Proof. induction a as [|x a IH]; [done|]. rewrite append_cons. cbn. by rewrite IH. Qed.

Lemma indices_fit (i : N) (len : nat) :
  forall start, (start + N.of_nat len <= i)%N -> (i < 4294967295)%N ->
  existsb (String.eqb (string_of_N i)) (Object.indices start len) = false /\
  forallb (index_below i) (Object.indices start len) = true.
Proof.
  induction len as [|len IH]; intros start Hle Hi; cbn; [done|].
  destruct (IH (N.succ start)) as [H1 H2]; [lia|done|]. rewrite H1, H2.
  unfold index_below. rewrite array_index_string_of_N by lia.
  destruct (String.eqb_spec (string_of_N i) (string_of_N start)) as [Heq%string_of_N_inj|_];
    [lia|]. split; [done|]. rewrite andb_true_r. apply N.ltb_lt. lia.
Qed.

Lemma keys_chars_from (t : string) :
  forall i, map fst (chars_from i t) = Object.indices i (String.length t).
Proof. induction t as [|ch t IH]; intros i; cbn; [done|]. by rewrite IH. Qed.

Lemma chars_from_app (a b : string) :
  forall i, chars_from i (a ++ b) =
  (chars_from i a ++ chars_from (i + N.of_nat (String.length a)) b)%list.
Proof.
  induction a as [|ch a IH]; intros i.
  - by rewrite append_nil_l, N.add_0_r.
  - rewrite append_cons. cbn. rewrite IH. do 3 f_equal. lia.
Qed.

Lemma string_get_middle (pre : string) (ch : ascii) (t : string) :
  String.get (String.length pre) (pre ++ String ch t) = Some ch.
Proof. induction pre as [|c pre IH]; [done|]. by rewrite append_cons. Qed.

Lemma assign_keys_string (t : string) :
  forall (pre : string) (this : session_t),
  (N.of_nat (String.length pre + String.length t) < 4294967295)%N ->
  own this = chars_from 0 pre ->
  assign_keys (VStr (pre ++ t))
    (Object.indices (N.of_nat (String.length pre)) (String.length t)) this
  = Return {| isNew := isNew this; own := chars_from 0 (pre ++ t) |}.
Proof.
  induction t as [|ch t IH]; intros pre this Hlen Hown.
  - cbn. rewrite append_nil_r, <- Hown. by destruct this.
  - cbn [String.length Object.indices assign_keys].
    set (i := N.of_nat (String.length pre)).
    assert (i < 4294967295)%N as Hi by (cbn in Hlen; lia).
    pose proof (array_index_string_of_N i Hi) as Hidx.
    unfold session_assign.
    destruct (String.eqb_spec (string_of_N i) "isNew") as [E|_];
      [by rewrite E in Hidx|].
    destruct (String.eqb_spec (string_of_N i) "__proto__") as [E|_];
      [by rewrite E in Hidx|].
    cbn [Object.get]. rewrite Hidx.
    replace (N.to_nat i) with (String.length pre) by (subst i; lia).
    rewrite string_get_middle.
    cbn [mbind outcome_bind].
    assert (pre ++ String ch t = (pre ++ String ch EmptyString) ++ t) as Happ
      by by rewrite append_assoc.
    assert (String.length (pre ++ String ch EmptyString) = S (String.length pre)) as Hl
      by (rewrite length_append; cbn; lia).
    rewrite Happ at 1.
    replace (N.succ i) with (N.of_nat (String.length (pre ++ String ch EmptyString)))
      by (rewrite Hl; lia).
    rewrite IH.
    + cbn. by rewrite <- Happ.
    + rewrite Hl. cbn in Hlen. by rewrite Nat.add_succ_r in Hlen.
    + cbn [own]. rewrite chars_from_app, Hown. cbn. rewrite N.add_0_l.
      apply obj_set_fits. unfold fits. rewrite keys_chars_from. fold i.
      destruct (indices_fit i (String.length pre) 0) as [-> H2]; [lia|done|].
      by rewrite Hidx, H2.
Qed.

(** [new Session(t)] for a non-empty string [t]: one property per
    character. *)
Lemma Session_string (t : string) :
  t <> EmptyString -> (N.of_nat (String.length t) < 4294967295)%N ->
  Session (VStr t) = Return {| isNew := false; own := chars_from 0 t |}.
Proof.
  intros Hne Hlen. unfold Session. cbn [truthy].
  destruct (String.eqb_spec t EmptyString); [done|]. cbn.
  by apply (assign_keys_string t EmptyString {| isNew := false; own := [] |}).
Qed.

(** ** Payloads that are not objects *)

(** C10: when the cookie decodes to a truthy JSON value that is not an
    object, the first read constructs a Session that is not new; for a
    string the indices and characters become its keys and values (for
    a boolean or a number there are none); when it decodes to a falsy
    value the Session is new and empty. *)
Theorem non_object_payload
    (mw : middleware) (h : heap) (c : ctx) (raw : string) (v : value) :
  session c = SFalse ->
  Cookies.get (cookies c) h (sessionKey mw) (sessionOptions c) = Some raw ->
  decode_try raw = JSON.Ok v ->
  if truthy v then
    match v with
    | VBool _ | VNum _ =>
        session_get mw h c =
        (with_session c (SSession {| isNew := false; own := [] |}),
         Return (SSession {| isNew := false; own := [] |}))
    | VStr t =>
        (N.of_nat (String.length t) < 4294967295)%N ->
        session_get mw h c =
        (with_session c (SSession {| isNew := false; own := chars_from 0 t |}),
         Return (SSession {| isNew := false; own := chars_from 0 t |}))
    | _ => True
    end
  else
    session_get mw h c =
    (with_session c (SSession {| isNew := true; own := [] |}),
     Return (SSession {| isNew := true; own := [] |})).
Proof.
  intros Hs Hraw Hv.
  pose proof (session_get_decoded mw h c raw v) as Hget.
  destruct (truthy v) eqn:Hv'.
  - destruct v as [| |b|z| |t| | |]; try done.
    + eapply Hget; try done. unfold Session. by rewrite Hv'.
    + eapply Hget; try done. unfold Session. by rewrite Hv'.
    + intros Hlen. eapply Hget; try done. apply Session_string; [|done]. by intros ->.
  - eapply Hget; try done. by apply Session_falsy.
Qed.

(** The cookies are the base64 of the JSON texts of the string [ab],
    of [7], [null], [0], the empty string and [false]. *)
Example non_object_payloads :
  map (fun raw =>
         (session_get default_app.2 default_app.1
            (cookieSession default_app.2 (with_cookie raw) default_app.1).2).2)
      ["ImFiIg=="; "Nw=="; "bnVsbA=="; "MA=="; "IiI="; "ZmFsc2U="]
  = [Known (Return (SSession {| isNew := false;
                                own := [("0", VStr "a"); ("1", VStr "b")] |}));
     Known (Return (SSession {| isNew := false; own := [] |}));
     Known (Return (SSession {| isNew := true; own := [] |}));
     Known (Return (SSession {| isNew := true; own := [] |}));
     Known (Return (SSession {| isNew := true; own := [] |}));
     Known (Return (SSession {| isNew := true; own := [] |}))].
Proof. vm_compute. reflexivity. Qed.

(** Where the fragment ends.  The cookies are the base64 of [1.5], of
    [{"a":1.5}], of a string literal with the escape of U+4E2D and of
    one that holds U+4E2D itself (well-formed texts whose value is
    outside the fragment); of [1e3], [100e-2], [0.0], [1e-400], [-0]
    and a string literal that holds U+00E9 (inside it); and of a blank
    followed by U+4E2D, of [x], of the truncated texts [[], [[[], [[{],
    [1.] and [1e], and of [[1.5,x]] (not well-formed). *)
Example fragment_boundary :
  map decode_try ["MS41"; "eyJhIjoxLjV9"; "Ilx1NGUyZCI="; "IuS4rSI="]
  = [JSON.Beyond; JSON.Beyond; JSON.Beyond; JSON.Beyond] /\
  map decode_try ["MWUz"; "MTAwZS0y"; "MC4w"; "MWUtNDAw"; "LTA="; "IsOpIg=="]
  = [JSON.Ok (VNum 1000); JSON.Ok (VNum 1); JSON.Ok (VNum 0); JSON.Ok (VNum 0);
     JSON.Ok VNegZero; JSON.Ok (VStr (String "233" EmptyString))] /\
  map decode_try ["IOS4rQ=="; "eA=="; "Ww=="; "W1s="; "W3s="; "MS4="; "MWU="; "WzEuNSx4XQ=="]
  = [JSON.Bad; JSON.Bad; JSON.Bad; JSON.Bad; JSON.Bad; JSON.Bad; JSON.Bad; JSON.Bad].
Proof. vm_compute. done. Qed.
(** ** Per-request options *)

Lemma same_but_trans (l0 : loc) (h1 h2 h3 : heap) :
  same_but l0 h1 h2 -> same_but l0 h2 h3 -> same_but l0 h1 h3.
Proof.
  intros [A1 A2] [B1 B2]. split.
  - intros l Hl. by rewrite B1, A1.
  - by rewrite B2.
Qed.

Lemma set_prop_same_but (h : heap) (l0 : loc) (k : string) (v : value) :
  same_but l0 h (set_prop h l0 k v).
Proof.
  unfold set_prop. split.
  - intros l Hl. by rewrite lookup_alter_ne.
  - rewrite lookup_alter_eq. by destruct (h !! l0).
Qed.

Lemma same_but_size (l0 : loc) (h h' : heap) : same_but l0 h h' -> size h' = size h.
Proof.
  intros [H1 H2]. rewrite <- !size_dom. f_equal. apply set_eq. intros l.
  rewrite !elem_of_dom. destruct (decide (l = l0)) as [->|Hl]; [|by rewrite H1].
  destruct (h' !! l0) eqn:E1, (h !! l0) eqn:E2; cbn in H2; try done;
    rewrite E1, E2; split; eauto.
Qed.

(** Reading a property through an object other than [l0] gives the
    same result in two heaps that agree outside [l0], when no
    prototype link leads to [l0]. *)
Lemma get_prop_frame (l0 : loc) (h h' : heap) :
  (forall l, l <> l0 -> h' !! l = h !! l) ->
  (forall l o, l <> l0 -> h !! l = Some o -> proto o <> Some l0) ->
  forall fuel l k, l <> l0 -> get_prop fuel h' l k = get_prop fuel h l k.
Proof.
  intros Hsame Hlink. induction fuel as [|fuel IH]; intros l k Hl; cbn; [done|].
  rewrite Hsame by done. destruct (h !! l) as [o|] eqn:Ho; [|done].
  destruct (own_props o !! k); [done|].
  destruct (proto o) as [p|] eqn:Hp; [|done].
  apply IH. intros ->. by eapply Hlink.
Qed.

Lemma prop_frame (l0 : loc) (h h' : heap) (l : loc) (k : string) :
  same_but l0 h h' ->
  (forall l o, l <> l0 -> h !! l = Some o -> proto o <> Some l0) ->
  l <> l0 -> prop h' l k = prop h l k.
Proof.
  intros Hsame Hlink Hl. unfold prop. rewrite (same_but_size _ _ _ Hsame).
  apply (get_prop_frame l0); [apply Hsame|done..].
Qed.

(** An assignment is read back from the object it was made on. *)
Lemma prop_set_prop (h : heap) (l : loc) (k : string) (v : value) :
  is_Some (h !! l) -> prop (set_prop h l k v) l k = v.
Proof.
  intros [o Ho]. unfold prop, set_prop. cbn.
  by rewrite lookup_alter_eq, Ho; cbn; rewrite lookup_insert_eq.
Qed.

Lemma heap_closed_same_but (l0 : loc) (h h' : heap) :
  same_but l0 h h' -> heap_closed h -> heap_closed h'.
Proof.
  intros [H1 H2] Hc.
  assert (forall p, is_Some (h !! p) -> is_Some (h' !! p)) as Hdom.
  { intros p Hp. destruct (decide (p = l0)) as [->|Hne]; [|by rewrite H1].
    destruct (h' !! l0) eqn:E1, (h !! l0) eqn:E2; cbn in H2; try done; by destruct Hp. }
  intros l o p Hl Hp. apply Hdom.
  destruct (decide (l = l0)) as [->|Hne].
  - rewrite Hl in H2. destruct (h !! l0) as [o0|] eqn:Ho0; [|done].
    injection H2 as H2. eapply (Hc l0 o0); [done|]. by rewrite <- H2.
  - rewrite H1 in Hl by done. by eapply Hc.
Qed.

Lemma alloc_fresh (h : heap) (o : object) : h !! (alloc h o).2 = None.
Proof. cbn. apply not_elem_of_dom, is_fresh. Qed.

Lemma heap_closed_alloc (h : heap) (o : object) :
  heap_closed h -> (forall p, proto o = Some p -> is_Some (h !! p)) ->
  heap_closed (alloc h o).1.
Proof.
  intros Hc Ho l o1 p. cbn. pose proof (alloc_fresh h o) as Hf. cbn in Hf.
  destruct (decide (fresh (dom h) = l)) as [<-|Hne].
  - rewrite lookup_insert_eq. intros [= <-] Hp.
    destruct (Ho p Hp) as [o2 Ho2]. exists o2. rewrite lookup_insert_ne; [done|].
    intros E. by rewrite E, Ho2 in Hf.
  - rewrite lookup_insert_ne by done. intros Hl Hp.
    destruct (Hc l o1 p Hl Hp) as [o2 Ho2]. exists o2. rewrite lookup_insert_ne; [done|].
    intros E. by rewrite E, Ho2 in Hf.
Qed.

(** The factory keeps the heap closed and its configuration object
    exists. *)
Lemma toaCookieSession_closed (opts : option loc) (h : heap) :
  heap_closed h -> (forall o, opts = Some o -> is_Some (h !! o)) ->
  heap_closed (toaCookieSession opts h).1 /\
  is_Some ((toaCookieSession opts h).1 !! options (toaCookieSession opts h).2).
Proof.
  intros Hc Ho. unfold toaCookieSession.
  set (start := match opts with
                | Some o => (h, o)
                | None => alloc h {| own_props := ∅; proto := None |}
                end).
  assert (heap_closed start.1 /\ is_Some (start.1 !! start.2)) as [Hc1 Ho1].
  { subst start. destruct opts as [o|]; [by split; [|apply Ho]|]. split.
    - by apply heap_closed_alloc.
    - cbn. by rewrite lookup_insert_eq. }
  destruct start as [h1 o]. cbn [fst snd] in *.
  set (ha := set_prop h1 o "overwrite" _).
  set (hb := set_prop ha o "httpOnly" _).
  set (hc := set_prop hb o "signed" _).
  assert (same_but o h1 hc) as Hsame.
  { eapply same_but_trans; [|apply set_prop_same_but].
    eapply same_but_trans; [|apply set_prop_same_but].
    apply set_prop_same_but. }
  cbn. split; [by eapply heap_closed_same_but|].
  destruct Hsame as [_ H2]. destruct Ho1 as [o1 Ho1]. rewrite Ho1 in H2.
  by destruct (hc !! o).
Qed.

Section Options.

Variable mw : middleware.

(** A handler changes the heap at most in the own properties of the
    request's [sessionOptions] object. *)
Lemma run_handler_heap (ops : list op) :
  forall (st st' : heap * ctx) (r : outcome unit),
  run_handler mw ops st = (st', r) ->
  sessionOptions st'.2 = sessionOptions st.2 /\
  same_but (sessionOptions st.2) st.1 st'.1.
Proof.
  induction ops as [|o ops IH]; intros st st' r; cbn.
  - by intros [= <- <-].
  - destruct (run_op mw o st) as [st1 r1] eqn:E.
    assert (sessionOptions st1.2 = sessionOptions st.2 /\
            same_but (sessionOptions st.2) st.1 st1.1) as [H1 H2].
    { destruct (run_op_session mw _ _ _ _ E) as (_ & H2 & _). split; [done|].
      destruct st as [h c]. destruct o; cbn in E.
      - destruct (session_get mw h c) as [c1 [[|]|]]; by injection E as <- <-.
      - destruct (session_set val c) as [c1 r2]; by injection E as <- <-.
      - destruct (session_get mw h c) as [c1 [[[]|]|]]; try by injection E as <- <-.
        destruct (String.eqb k "__proto__"); [by injection E as <- <-|].
        destruct (session_assign s k v) as [[|]|]; by injection E as <- <-.
      - destruct (String.eqb k "__proto__"); injection E as <- <-; [done|].
        apply set_prop_same_but. }
    destruct r1 as [[|]|].
    + intros [G1 G2]%IH. rewrite H1 in G1, G2. split; [done|].
      by eapply same_but_trans.
    + by intros [= <- <-].
    + by intros [= <- <-].
Qed.

End Options.

(** C9: whatever the handler of one request does, assignments to fields
    of its [sessionOptions] included, the configuration object given to
    the factory and the [sessionOptions] of another request stay as
    they were, object and every property read through them; and a
    request made afterwards gets a new object without own properties
    whose prototype is the unchanged configuration object. *)
Theorem per_request_options_do_not_leak
    (opts : option loc) (h0 : heap) (j1 j2 j3 : Cookies.jar) (ops : list op) :
  heap_closed h0 ->
  (forall o, opts = Some o -> is_Some (h0 !! o)) ->
  let app := toaCookieSession opts h0 in
  let base := options app.2 in
  let r1 := cookieSession app.2 j1 app.1 in
  let r2 := cookieSession app.2 j2 r1.1 in
  let after := (run_handler app.2 ops (r2.1, r1.2)).1 in
  let r3 := cookieSession app.2 j3 after.1 in
  sessionOptions r1.2 <> base /\ sessionOptions r1.2 <> sessionOptions r2.2 /\
  sessionOptions after.2 = sessionOptions r1.2 /\
  after.1 !! base = r2.1 !! base /\
  after.1 !! sessionOptions r2.2 = r2.1 !! sessionOptions r2.2 /\
  (forall k, prop after.1 base k = prop r2.1 base k) /\
  (forall k, prop after.1 (sessionOptions r2.2) k = prop r2.1 (sessionOptions r2.2) k) /\
  r3.1 !! sessionOptions r3.2 = Some {| own_props := ∅; proto := Some base |} /\
  r3.1 !! base = r2.1 !! base.
Proof.
  intros Hc0 Hopts. cbn zeta.
  destruct (toaCookieSession_closed opts h0 Hc0 Hopts) as [Hc1 Hbase].
  destruct (toaCookieSession opts h0) as [h1 mw]. cbn [fst snd] in *.
  (* the two requests *)
  unfold cookieSession, Object.create. cbn [alloc fst snd sessionOptions].
  set (base := options mw) in *.
  set (so1 := fresh (dom h1)).
  set (o := {| own_props := ∅; proto := Some base |}).
  set (h2 := <[so1 := o]> h1).
  set (so2 := fresh (dom h2)).
  set (h3 := <[so2 := o]> h2).
  assert (h1 !! so1 = None) as Hf1 by apply not_elem_of_dom, is_fresh.
  assert (h2 !! so2 = None) as Hf2 by apply not_elem_of_dom, is_fresh.
  assert (so1 <> base) as Hne1 by (intros E; rewrite E in Hf1; by destruct Hbase as [? Hb]; rewrite Hb in Hf1).
  assert (so2 <> so1) as Hne2 by (intros E; subst h2; by rewrite E, lookup_insert_eq in Hf2).
  assert (so2 <> base) as Hne3.
  { intros E. subst h2. rewrite E, lookup_insert_ne in Hf2 by done.
    destruct Hbase as [? Hb]. by rewrite Hb in Hf2. }
  (* the handler of the first request *)
  set (c1 := {| cookies := j1; sessionOptions := so1; session := SFalse; log := [] |}).
  destruct (run_handler mw ops (h3, c1)) as [[h4 c1'] r] eqn:E.
  destruct (run_handler_heap mw _ _ _ _ E) as [Hso Hsame]. cbn [fst snd] in *.
  assert (forall l o1, l <> so1 -> h3 !! l = Some o1 -> proto o1 <> Some so1) as Hlink.
  { intros l o1 Hl. subst h3 h2.
    destruct (decide (l = so2)) as [->|Hl2].
    - rewrite lookup_insert_eq. intros [= <-]. cbn. congruence.
    - rewrite !lookup_insert_ne by done. intros Ho1 Hp.
      destruct (Hc1 _ _ _ Ho1 Hp) as [? Hx]. by rewrite Hx in Hf1. }
  assert (h4 !! base = h3 !! base) as G1 by by apply Hsame.
  assert (h4 !! so2 = h3 !! so2) as G2 by by apply Hsame.
  assert (forall k, prop h4 base k = prop h3 base k) as G3
    by (intros k; by apply (prop_frame so1)).
  assert (forall k, prop h4 so2 k = prop h3 so2 k) as G4
    by (intros k; by apply (prop_frame so1)).
  assert (fresh (dom h4) <> base) as Hne4.
  { intros E4. pose proof (is_fresh (dom h4)) as Hf4. rewrite E4 in Hf4.
    apply Hf4, elem_of_dom. rewrite G1. subst h3 h2.
    by rewrite !lookup_insert_ne. }
  repeat split; try done.
  - by rewrite lookup_insert_eq.
  - by rewrite lookup_insert_ne.
Qed.

(** ** Integer literals *)

Lemma number_end_not_digit (rest : string) :
  number_end rest = true ->
  match rest with
  | EmptyString => True
  | String c _ => JSON.is_digit c = false
  end.
Proof.
  destruct rest as [|c rest]; cbn; [done|].
  rewrite negb_true_iff, !orb_false_iff. tauto.
Qed.

Lemma number_end_no_fraction (rest : string) :
  number_end rest = true ->
  JSON.fraction rest = (None, rest) /\ JSON.exponent rest = (None, rest).
Proof.
  destruct rest as [|c rest]; cbn; [done|].
  rewrite negb_true_iff, !orb_false_iff. intros [[[_ ->] ->] ->]. done.
Qed.

Lemma span_digits_uint (d : Decimal.uint) (rest : string) :
  number_end rest = true ->
  JSON.span_digits (NilEmpty.string_of_uint d ++ rest) = (NilEmpty.string_of_uint d, rest).
Proof.
  intros Hrest%number_end_not_digit.
  induction d; cbn [NilEmpty.string_of_uint]; rewrite ?append_cons, ?append_nil_l;
    try (cbn; by rewrite IHd).
  destruct rest as [|c rest]; cbn; [done|]. by rewrite Hrest.
Qed.

Lemma to_uint_no_leading_zero (n : N) (d : Decimal.uint) :
  N.to_uint n = Decimal.D0 d -> d = Decimal.Nil.
Proof.
  intros H. pose proof (Unsigned.to_of (N.to_uint n)) as Hn.
  rewrite Unsigned.of_to, H, DecimalFacts.unorm_D0 in Hn.
  unfold Decimal.unorm in Hn.
  destruct (Decimal.nzhead d) eqn:E; try done.
  - by injection Hn as ->.
  - by destruct (DecimalFacts.nzhead_nonzero _ _ E).
Qed.

(** The decimal text of a number starts with a digit and has no
    superfluous leading zero. *)
Lemma string_of_N_shape (n : N) :
  exists d ds, string_of_N n = String d ds /\ JSON.is_digit d = true /\
    Ascii.eqb d "0" && negb (String.eqb ds EmptyString) = false.
Proof.
  unfold string_of_N. destruct (N.to_uint n) as [|d|d|d|d|d|d|d|d|d|d] eqn:E;
    try (eexists _, _; split; [reflexivity|]; by split).
  - destruct n; [done|]. by destruct (DecimalPos.Unsigned.to_uint_nonnil p).
  - apply to_uint_no_leading_zero in E as ->. by eexists _, _.
Qed.

Lemma digits_value_string_of_N (n : N) : JSON.digits_value (string_of_N n) = Z.of_N n.
Proof.
  unfold JSON.digits_value, string_of_N. by rewrite NilEmpty.usu, Unsigned.of_to.
Qed.

(** A literal without fraction and exponent denotes its integer. *)
Lemma number_value_integer (negative : bool) (digits : nat) (m : Z) :
  0 <= m <= 9007199254740991 ->
  JSON.number_value negative digits m 0 = Some (JSON.signed negative m).
Proof.
  intros Hm. unfold JSON.number_value.
  destruct (Z.eqb_spec m 0) as [->|]; [done|]. cbn [Z.leb Z.compare Z.pow].
  rewrite Z.mul_1_r. by destruct (Z.leb_spec m 9007199254740991); [|lia].
Qed.

Lemma unsigned_number_string_of_N (negative : bool) (n : N) (rest : string) :
  (n <= 9007199254740991)%N ->
  number_end rest = true ->
  JSON.unsigned_number negative (string_of_N n ++ rest) =
  JSON.Read (Some (JSON.signed negative (Z.of_N n))) rest.
Proof.
  intros Hn Hrest. unfold JSON.unsigned_number.
  unfold string_of_N at 1. rewrite span_digits_uint by done. fold (string_of_N n).
  destruct (number_end_no_fraction _ Hrest) as [-> ->].
  destruct (string_of_N_shape n) as (d & ds & Hs & _ & Hz).
  rewrite Hs, Hz, <- Hs. cbn [default String.length Z.of_nat].
  rewrite append_nil_r, digits_value_string_of_N, number_value_integer; [done|lia].
Qed.

Lemma parse_number_string_of_Z (z : Z) (rest : string) :
  Z.abs z <= 9007199254740991 ->
  number_end rest = true ->
  JSON.parse_number (string_of_Z z ++ rest) = JSON.Read (Some (VNum z)) rest.
Proof.
  intros Hz Hrest.
  assert (forall n, JSON.minus_sign false (string_of_N n ++ rest) =
                    (false, string_of_N n ++ rest)) as Hsign.
  { intros n. destruct (string_of_N_shape n) as (d & ds & Hn & Hd & _).
    rewrite Hn, append_cons. unfold JSON.minus_sign.
    destruct (Ascii.eqb_spec d "-") as [->|]; done. }
  destruct z as [|p|p]; cbn [string_of_Z].
  - change "0" with (string_of_N 0). unfold JSON.parse_number.
    rewrite Hsign, unsigned_number_string_of_N; [done|lia|done].
  - unfold JSON.parse_number.
    rewrite Hsign, unsigned_number_string_of_N; [done|lia|done].
  - rewrite append_cons. unfold JSON.parse_number.
    cbn [JSON.minus_sign Ascii.eqb Bool.eqb].
    rewrite unsigned_number_string_of_N; [done|lia|done].
Qed.

(** ** String literals *)

Lemma parse_chars_quote_char (c : ascii) (tail : string) :
  JSON.parse_chars (JSON.quote_char c ++ tail) =
  JSON.and_then (JSON.parse_chars tail) (fun t rest => JSON.Read (String c <$> t) rest).
Proof. destruct c as [[] [] [] [] [] [] [] []]; reflexivity. Qed.

Lemma parse_chars_quote (s rest : string) :
  JSON.parse_chars (JSON.quote_chars s ++ String JSON.dquote rest) = JSON.Read (Some s) rest.
Proof.
  induction s as [|c s IH]; cbn [JSON.quote_chars]; [done|].
  by rewrite append_assoc, parse_chars_quote_char, IH.
Qed.

(** ** One parser step *)

Lemma next_cons (c : ascii) (s : string) :
  JSON.is_ws c = false -> JSON.next (String c s) = Some (c, s).
Proof. intros H. unfold JSON.next. cbn. by rewrite H. Qed.

Lemma closes_cons (c c' : ascii) (s : string) :
  JSON.is_ws c' = false ->
  JSON.closes c (String c' s) = if Ascii.eqb c' c then Some s else None.
Proof. intros H. unfold JSON.closes. by rewrite next_cons. Qed.

Lemma parse_value_string (fuel : nat) (s : string) :
  JSON.parse_value (S fuel) (String JSON.dquote s) =
  JSON.and_then (JSON.parse_chars s) (fun t rest => JSON.Read (VStr <$> t) rest).
Proof. reflexivity. Qed.

Lemma parse_value_array (fuel : nat) (s : string) :
  JSON.parse_value (S fuel) (String "[" s) =
  match JSON.closes "]" s with
  | Some rest => JSON.Read (Some (VArr [])) rest
  | None =>
      JSON.and_then (JSON.parse_elements fuel s) (fun vs rest => JSON.Read (VArr <$> vs) rest)
  end.
Proof. reflexivity. Qed.

Lemma parse_value_object (fuel : nat) (s : string) :
  JSON.parse_value (S fuel) (String "{" s) =
  match JSON.closes "}" s with
  | Some rest => JSON.Read (Some (VObj [])) rest
  | None =>
      JSON.and_then (JSON.parse_members fuel s)
        (fun kvs rest => JSON.Read (JSON.object_of <$> kvs) rest)
  end.
Proof. reflexivity. Qed.

Lemma parse_value_number (fuel : nat) (c : ascii) (s : string) :
  JSON.is_digit c = true \/ c = "-"%char ->
  JSON.parse_value (S fuel) (String c s) = JSON.parse_number (String c s).
Proof.
  intros H. destruct c as [[] [] [] [] [] [] [] []];
    solve [reflexivity | by destruct H as [H|H]].
Qed.

Lemma parse_elements_step (fuel : nat) (s : string) :
  JSON.parse_elements (S fuel) s =
  JSON.and_then (JSON.parse_value fuel s) (fun v s1 =>
    match JSON.next s1 with
    | None => JSON.Malformed
    | Some (c, s2) =>
        if Ascii.eqb c "," then
          JSON.and_then (JSON.parse_elements fuel s2)
            (fun vs rest => JSON.Read (JSON.cons_read v vs) rest)
        else if Ascii.eqb c "]" then JSON.Read (JSON.cons_read v (Some [])) s2
        else JSON.Malformed
    end).
Proof. reflexivity. Qed.

Lemma parse_members_step (fuel : nat) (k s : string) :
  JSON.parse_members (S fuel) (JSON.quote k ++ String ":" s) =
  JSON.and_then (JSON.parse_value fuel s) (fun v s4 =>
    match JSON.next s4 with
    | None => JSON.Malformed
    | Some (c, s5) =>
        if Ascii.eqb c "," then
          JSON.and_then (JSON.parse_members fuel s5)
            (fun kvs rest => JSON.Read (JSON.cons_read (JSON.member_read (Some k) v) kvs) rest)
        else if Ascii.eqb c "}" then
          JSON.Read (JSON.cons_read (JSON.member_read (Some k) v) (Some [])) s5
        else JSON.Malformed
    end).
Proof.
  unfold JSON.quote. rewrite append_cons, append_assoc, append_cons, append_nil_l.
  cbn [JSON.parse_members]. rewrite closes_cons by done.
  cbn [Ascii.eqb Bool.eqb JSON.dquote]. rewrite parse_chars_quote.
  cbn [JSON.and_then]. by rewrite closes_cons.
Qed.

(** ** Values are read back from their text *)

Lemma reads_back_atom (v : value) (text : string) :
  weight v = 1%nat ->
  starts_value text ->
  (forall fuel rest, number_end rest = true ->
     JSON.parse_value (S fuel) (text ++ rest) = JSON.Read (Some v) rest) ->
  reads_back v text.
Proof.
  intros Hw Hstart Hparse. split; [done|]. rewrite Hw. split.
  - destruct Hstart as (c & text' & -> & _). cbn. lia.
  - intros [|fuel] rest Hfuel Hrest; [lia|]. by apply Hparse.
Qed.

Lemma reads_back_number (z : Z) :
  Z.abs z <= 9007199254740991 -> reads_back (VNum z) (string_of_Z z).
Proof.
  intros Hsafe.
  assert (exists c s, string_of_Z z = String c s /\
            (JSON.is_digit c = true \/ c = "-"%char)) as (c & s & Hz & Hc).
  { destruct z as [|p|p]; cbn [string_of_Z].
    - exists "0"%char, EmptyString. split; [done|by left].
    - destruct (string_of_N_shape (N.pos p)) as (d & ds & Hn & Hd & _). eauto.
    - eexists _, _. split; [done|by right]. }
  apply reads_back_atom; [done|..].
  - exists c, s. split; [done|]. destruct Hc as [Hc| ->]; [|done].
    destruct c as [[] [] [] [] [] [] [] []]; done.
  - intros fuel rest Hrest. rewrite <- (parse_number_string_of_Z z rest Hsafe Hrest).
    rewrite Hz, append_cons. by apply parse_value_number.
Qed.

Lemma reads_back_string (s : string) : reads_back (VStr s) (JSON.quote s).
Proof.
  apply reads_back_atom; [done|by eexists _, _|].
  intros fuel rest _. unfold JSON.quote.
  by rewrite append_cons, append_assoc, append_cons, append_nil_l,
    parse_value_string, parse_chars_quote.
Qed.

Lemma elements_read_back (l : list value) :
  Forall reads_back_if_serializable l ->
  forallb serializable l = true ->
  l <> [] ->
  let text := JSON.join "," (List.map (fun x => default "null" (JSON.serialize x)) l) in
  starts_value text /\
  (list_sum (List.map (fun x => S (weight x)) l) <= S (String.length text))%nat /\
  forall fuel rest, (list_sum (List.map (fun x => S (weight x)) l) <= fuel)%nat ->
    JSON.parse_elements fuel (text ++ String "]" rest) = JSON.Read (Some l) rest.
Proof.
  induction 1 as [|x l Hx Hl IH]; [done|]. cbn [forallb List.map list_sum].
  intros [Hsx Hsl]%andb_true_iff _.
  destruct (Hx Hsx) as (tx & Htx & Hstart & Hlen & Hparse). rewrite Htx.
  change (default "null" (Some tx)) with tx.
  destruct l as [|y l].
  - simpl. split; [done|]. split; [lia|].
    intros [|fuel] rest Hfuel; [lia|]. rewrite parse_elements_step.
    rewrite Hparse by (done || lia). cbn [JSON.and_then]. by rewrite next_cons.
  - destruct IH as (Hstart' & Hlen' & Hparse'); [done..|].
    set (tl := JSON.join "," (List.map _ (y :: l))) in *.
    change (JSON.join "," (tx :: List.map _ (y :: l))) with (tx ++ "," ++ tl).
    split; [|split].
    + destruct Hstart as (c & t' & -> & ?). exists c. eexists. by rewrite append_cons.
    + rewrite !length_append. simpl in *. lia.
    + simpl. intros [|fuel] rest Hfuel; [lia|]. rewrite parse_elements_step.
      rewrite !append_assoc, append_cons, append_nil_l.
      rewrite Hparse by (done || lia). cbn [JSON.and_then]. rewrite next_cons by done.
      cbn [Ascii.eqb Bool.eqb]. rewrite Hparse' by (simpl; lia). done.
Qed.

Lemma members_read_back (props : list (string * value)) :
  Forall (fun kv => reads_back_if_serializable kv.2) props ->
  forallb (fun '(_, x) => serializable x) props = true ->
  props <> [] ->
  let members :=
    List.flat_map
      (fun '(k, x) =>
         match JSON.serialize x with
         | Some t => [JSON.quote k ++ ":" ++ t]
         | None => []
         end) props in
  let text := JSON.join "," members in
  members <> [] /\
  (exists text', text = String JSON.dquote text') /\
  (list_sum (List.map (fun '(_, x) => S (weight x)) props) <= S (String.length text))%nat /\
  forall fuel rest,
    (list_sum (List.map (fun '(_, x) => S (weight x)) props) <= fuel)%nat ->
    JSON.parse_members fuel (text ++ String "}" rest) = JSON.Read (Some props) rest.
Proof.
  induction 1 as [|[k x] l Hx Hl IH]; [done|]. cbn [forallb List.map List.flat_map snd] in *.
  intros [Hsx Hsl]%andb_true_iff _.
  destruct (Hx Hsx) as (tx & Htx & Hstart & Hlen & Hparse). rewrite Htx.
  set (f := fun '(k, x) => match JSON.serialize x with
                           | Some t => [JSON.quote k ++ ":" ++ t]
                           | None => []
                           end) in *.
  set (m := JSON.quote k ++ ":" ++ tx).
  assert (forall tail, m ++ tail = JSON.quote k ++ String ":" (tx ++ tail)) as Hm.
  { intros tail. subst m. by rewrite !append_assoc, append_cons, append_nil_l. }
  assert (String.length m = S (String.length (JSON.quote k) + String.length tx)) as Hlm.
  { subst m. rewrite !length_append. simpl. lia. }
  assert (exists m', m = String JSON.dquote m') as [m' Hm'] by by eexists.
  clearbody m.
  destruct l as [|kv l].
  - simpl. split; [done|]. split; [by eexists|]. split; [lia|].
    intros [|fuel] rest Hfuel; [lia|]. rewrite Hm, parse_members_step.
    rewrite Hparse by (done || lia). cbn [JSON.and_then]. by rewrite next_cons.
  - destruct IH as (Hne & (tl' & Htl) & Hlen' & Hparse'); [done..|].
    destruct (List.flat_map f (kv :: l)) as [|m2 ms] eqn:Hms; [done|].
    change ([m] ++ m2 :: ms)%list with (m :: m2 :: ms).
    change (JSON.join "," (m :: m2 :: ms)) with (m ++ "," ++ JSON.join "," (m2 :: ms)).
    set (tl := JSON.join "," (m2 :: ms)) in *.
    split; [done|]. split; [rewrite Hm', append_cons; by eexists|]. split.
    + rewrite !length_append, Hlm. simpl in *. lia.
    + simpl. intros [|fuel] rest Hfuel; [lia|].
      rewrite !append_assoc, Hm, parse_members_step, append_cons, append_nil_l.
      rewrite Hparse by (done || lia). cbn [JSON.and_then]. rewrite next_cons by done.
      cbn [Ascii.eqb Bool.eqb]. by rewrite Hparse' by (simpl; lia).
Qed.

Create Rewrite HintDb json_text.
#[local] Hint Rewrite append_assoc append_cons append_nil_l : json_text.

Lemma closes_bracket_value (text tail : string) :
  starts_value text -> JSON.closes "]" (text ++ tail) = None.
Proof.
  intros (c & t' & -> & Hc1 & Hc2). by rewrite append_cons, closes_cons, Hc2.
Qed.

Lemma closes_brace_member (text t' tail : string) :
  text = String JSON.dquote t' -> JSON.closes "}" (text ++ tail) = None.
Proof. intros ->. by rewrite append_cons, closes_cons. Qed.

Lemma serialize_array (l : list value) :
  JSON.serialize (VArr l) =
  Some ("[" ++ JSON.join "," (List.map (fun x => default "null" (JSON.serialize x)) l) ++ "]").
Proof. reflexivity. Qed.

Lemma serialize_object (props : list (string * value)) :
  JSON.serialize (VObj props) =
  Some ("{" ++
        JSON.join ","
          (List.flat_map
             (fun '(k, x) =>
                match JSON.serialize x with
                | Some t => [JSON.quote k ++ ":" ++ t]
                | None => []
                end) props) ++
        "}").
Proof. reflexivity. Qed.

(** Every serializable value has a JSON text, and the parser reads
    the value back from it. *)
Lemma serialize_reads_back (v : value) : reads_back_if_serializable v.
Proof.
  induction v as [| |b|z| |s|l IH|props IH|] using value_nested_ind; intros Hs; try done.
  - exists "null". split; [done|]. apply reads_back_atom; [done|by eexists _, _|done].
  - destruct b.
    + exists "true". split; [done|]. apply reads_back_atom; [done|by eexists _, _|done].
    + exists "false". split; [done|]. apply reads_back_atom; [done|by eexists _, _|done].
  - eexists. split; [done|]. apply reads_back_number. by apply Z.leb_le.
  - eexists. split; [done|]. apply reads_back_string.
  - eexists. split; [apply serialize_array|]. destruct l as [|x l].
    { apply reads_back_atom; [done|by eexists _, _|done]. }
    destruct (elements_read_back (x :: l) IH Hs) as (Hstart & Hlen & Hparse); [done|].
    split; [by eexists _, _|]. split.
    + cbn [weight]. autorewrite with json_text. cbn [String.length].
      rewrite length_append. cbn [String.length]. lia.
    + intros [|fuel] rest Hfuel _; [cbn in Hfuel; lia|].
      autorewrite with json_text.
      rewrite parse_value_array, closes_bracket_value, Hparse; [done| |done].
      cbn [weight] in Hfuel. lia.
  - eexists. split; [apply serialize_object|]. destruct props as [|kv props].
    { apply reads_back_atom; [done|by eexists _, _|done]. }
    cbn [serializable] in Hs. apply andb_true_iff in Hs as [Hord Hs].
    destruct (members_read_back (kv :: props) IH Hs) as (_ & (t' & Ht) & Hlen & Hparse);
      [done|].
    split; [by eexists _, _|]. split.
    + cbn [weight]. autorewrite with json_text. cbn [String.length].
      rewrite length_append. cbn [String.length]. lia.
    + intros [|fuel] rest Hfuel _; [cbn in Hfuel; lia|].
      autorewrite with json_text.
      rewrite parse_value_object, (closes_brace_member _ _ _ Ht).
      rewrite Hparse; [|cbn [weight] in Hfuel; lia].
      cbn [JSON.and_then fmap option_fmap option_map]. by rewrite object_of_ordered.
Qed.

(** [JSON.parse(JSON.stringify(v))] is [v] for a serializable [v]. *)
Lemma parse_stringify (v : value) :
  serializable v = true ->
  exists text, JSON.stringify v = Some text /\ JSON.parse text = JSON.Ok v.
Proof.
  intros Hs. destruct (serialize_reads_back v Hs) as (text & Htext & _ & Hlen & Hparse).
  exists text. split; [done|].
  assert (weight v <= JSON.fuel_for text)%nat as Hfuel by (unfold JSON.fuel_for; lia).
  pose proof (Hparse (JSON.fuel_for text) EmptyString Hfuel eq_refl) as H.
  rewrite append_nil_r in H. unfold JSON.parse. by rewrite H.
Qed.

(** ** The parser never runs out of fuel *)

Lemma skip_ws_length (s : string) : (String.length (JSON.skip_ws s) <= String.length s)%nat.
Proof. induction s as [|c s IH]; cbn; [done|]. destruct (JSON.is_ws c); cbn; lia. Qed.

Lemma next_length (s : string) (c : ascii) (s' : string) :
  JSON.next s = Some (c, s') -> (String.length s' < String.length s)%nat.
Proof.
  unfold JSON.next. pose proof (skip_ws_length s) as H.
  destruct (JSON.skip_ws s) as [|c0 s0]; [done|]. intros [= <- <-]. cbn in H. lia.
Qed.

Lemma closes_length (c : ascii) (s s' : string) :
  JSON.closes c s = Some s' -> (String.length s' < String.length s)%nat.
Proof.
  unfold JSON.closes. destruct (JSON.next s) as [[c0 s0]|] eqn:E; [|done].
  destruct (Ascii.eqb c0 c); [|done]. intros [= <-]. by eapply next_length.
Qed.

Lemma span_digits_length (s : string) :
  (String.length (JSON.span_digits s).1 + String.length (JSON.span_digits s).2
   = String.length s)%nat.
Proof.
  induction s as [|c s IH]; cbn; [done|]. destruct (JSON.is_digit c); [|done].
  destruct (JSON.span_digits s) as [ds rest]. cbn in *. lia.
Qed.

Lemma and_then_consumes {A B} (n : nat) (m : JSON.scan A)
    (k : option A -> string -> JSON.scan B) :
  consumes n m ->
  (forall a rest, (String.length rest < n)%nat -> consumes n (k a rest)) ->
  consumes n (JSON.and_then m k).
Proof. destruct m as [a rest| |]; cbn; [|done..]. intros H Hk. by apply Hk. Qed.

Lemma consumes_mono {A} (n n' : nat) (r : JSON.scan A) :
  (n <= n')%nat -> consumes n r -> consumes n' r.
Proof. destruct r; cbn; [lia|done..]. Qed.

Lemma parse_chars_consumes (n : nat) :
  forall s, (String.length s <= n)%nat -> consumes (S (String.length s)) (JSON.parse_chars s).
Proof.
  induction n as [|n IH]; intros s Hn.
  { destruct s; [done|cbn in Hn; lia]. }
  destruct s as [|c s]; [done|]. cbn [JSON.parse_chars].
  assert (forall t (f : string -> string), (String.length t <= String.length s)%nat ->
    consumes (S (String.length (String c s)))
      (JSON.and_then (JSON.parse_chars t) (fun x rest => JSON.Read (f <$> x) rest))) as Hstep.
  { intros t f Ht. apply and_then_consumes.
    - eapply consumes_mono; [|apply IH]; cbn in *; lia.
    - intros a rest Hrest. cbn in *. lia. }
  destruct (Ascii.eqb c JSON.dquote); [cbn; lia|].
  destruct (Ascii.eqb c JSON.backslash).
  - destruct s as [|e s]; [done|]. destruct (Ascii.eqb e "u").
    + destruct s as [|h1 [|h2 [|h3 [|h4 s]]]]; try done.
      destruct (JSON.hex_value h1), (JSON.hex_value h2), (JSON.hex_value h3),
        (JSON.hex_value h4); try done.
      apply and_then_consumes.
      * eapply consumes_mono; [|apply IH]; cbn in *; lia.
      * intros a rest Hrest. cbn in *. lia.
    + destruct (JSON.simple_escape e); [|done]. apply Hstep. cbn. lia.
  - destruct (N_of_ascii c <? 32)%N; [done|]. by apply Hstep.
Qed.

Lemma fraction_length (s : string) :
  (String.length (JSON.fraction s).2 <= String.length s)%nat.
Proof.
  destruct s as [|c s]; cbn; [done|]. destruct (Ascii.eqb c "."); [|done].
  pose proof (span_digits_length s). destruct (JSON.span_digits s). cbn in *. lia.
Qed.

Lemma minus_sign_length (plus_too : bool) (s : string) :
  (String.length (JSON.minus_sign plus_too s).2 <= String.length s)%nat.
Proof.
  destruct s as [|c s]; cbn; [done|].
  destruct (Ascii.eqb c "-"); cbn; [lia|].
  destruct (plus_too && Ascii.eqb c "+"); cbn; lia.
Qed.

Lemma exponent_length (s : string) :
  (String.length (JSON.exponent s).2 <= String.length s)%nat.
Proof.
  destruct s as [|c s]; cbn [JSON.exponent]; [done|].
  destruct (Ascii.eqb c "e" || Ascii.eqb c "E"); [|done].
  pose proof (minus_sign_length true s) as H1.
  destruct (JSON.minus_sign true s) as [neg s1]. cbn [snd] in H1.
  pose proof (span_digits_length s1). destruct (JSON.span_digits s1). cbn in *. lia.
Qed.

Lemma parse_number_consumes (s : string) :
  consumes (String.length s) (JSON.parse_number s).
Proof.
  unfold JSON.parse_number. pose proof (minus_sign_length false s) as H0.
  destruct (JSON.minus_sign false s) as [neg s1]. cbn [snd] in H0.
  unfold JSON.unsigned_number. pose proof (span_digits_length s1) as H1.
  destruct (JSON.span_digits s1) as [int s2]. cbn [fst snd] in H1.
  pose proof (fraction_length s2) as H2. destruct (JSON.fraction s2) as [frac s3].
  pose proof (exponent_length s3) as H3. destruct (JSON.exponent s3) as [exp s4].
  cbn [snd] in *. destruct int as [|d ds]; [done|].
  destruct (Ascii.eqb d "0" && negb (String.eqb ds EmptyString)); [done|].
  destruct frac as [[|]|], exp as [[? [|]]|]; cbn in *; try done; lia.
Qed.

Lemma expect_length (word s rest : string) :
  JSON.expect word s = Some rest -> (String.length rest <= String.length s)%nat.
Proof.
  revert s. induction word as [|w word IH]; intros s; cbn.
  - by intros [= <-].
  - destruct s as [|c s]; [done|]. destruct (Ascii.eqb w c); [|done].
    intros H%IH. cbn. lia.
Qed.

Lemma keyword_consumes (word : string) (v : value) (s : string) :
  consumes (S (String.length s)) (JSON.keyword word v s).
Proof.
  unfold JSON.keyword. destruct (JSON.expect word s) as [rest|] eqn:E; [|done].
  apply expect_length in E. cbn. lia.
Qed.

(** Twice the length of the text and one more is enough fuel for a
    value, and one more again for the elements of an array or the
    members of an object. *)
Lemma parse_fuel (fuel : nat) :
  (forall s, (2 * String.length s + 1 <= fuel)%nat ->
     consumes (String.length s) (JSON.parse_value fuel s)) /\
  (forall s, (2 * String.length s + 2 <= fuel)%nat ->
     consumes (String.length s) (JSON.parse_elements fuel s)) /\
  (forall s, (2 * String.length s + 2 <= fuel)%nat ->
     consumes (String.length s) (JSON.parse_members fuel s)).
Proof.
  induction fuel as [|fuel (IHv & IHe & IHm)]; [repeat split; intros s; lia|].
  split; [|split]; intros s Hfuel.
  - cbn [JSON.parse_value].
    destruct (JSON.next s) as [[c s']|] eqn:En; [|done].
    apply next_length in En.
    destruct (Ascii.eqb c "{").
    { destruct (JSON.closes "}" s') as [rest|] eqn:Ec.
      - apply closes_length in Ec. cbn. lia.
      - apply and_then_consumes.
        + eapply consumes_mono; [|apply IHm]; lia.
        + intros a rest Hrest. by cbn. }
    destruct (Ascii.eqb c "[").
    { destruct (JSON.closes "]" s') as [rest|] eqn:Ec.
      - apply closes_length in Ec. cbn. lia.
      - apply and_then_consumes.
        + eapply consumes_mono; [|apply IHe]; lia.
        + intros a rest Hrest. by cbn. }
    destruct (Ascii.eqb c JSON.dquote).
    { apply and_then_consumes.
      - eapply consumes_mono; [|by apply (parse_chars_consumes (String.length s'))]. lia.
      - intros a rest Hrest. by cbn. }
    destruct (Ascii.eqb c "t");
      [eapply consumes_mono; [|apply keyword_consumes]; lia|].
    destruct (Ascii.eqb c "f");
      [eapply consumes_mono; [|apply keyword_consumes]; lia|].
    destruct (Ascii.eqb c "n");
      [eapply consumes_mono; [|apply keyword_consumes]; lia|].
    eapply consumes_mono; [|apply parse_number_consumes]. cbn. lia.
  - cbn [JSON.parse_elements]. apply and_then_consumes; [apply IHv; lia|].
    intros v s1 Hs1. destruct (JSON.next s1) as [[c s2]|] eqn:En; [|done].
    apply next_length in En. destruct (Ascii.eqb c ",").
    + apply and_then_consumes.
      * eapply consumes_mono; [|apply IHe]; lia.
      * intros a rest Hrest. by cbn.
    + destruct (Ascii.eqb c "]"); [|done]. cbn. lia.
  - cbn [JSON.parse_members].
    destruct (JSON.closes JSON.dquote s) as [s1|] eqn:E1; [|done].
    apply closes_length in E1. apply and_then_consumes.
    { eapply consumes_mono; [|by apply (parse_chars_consumes (String.length s1))]. lia. }
    intros k s2 Hs2. destruct (JSON.closes ":" s2) as [s3|] eqn:E3; [|done].
    apply closes_length in E3. apply and_then_consumes.
    { eapply consumes_mono; [|apply IHv]; lia. }
    intros v s4 Hs4. destruct (JSON.next s4) as [[c s5]|] eqn:En; [|done].
    apply next_length in En. destruct (Ascii.eqb c ",").
    + apply and_then_consumes.
      * eapply consumes_mono; [|apply IHm]; lia.
      * intros a rest Hrest. by cbn.
    + destruct (Ascii.eqb c "}"); [|done]. cbn. lia.
Qed.

(** [JSON.parse] rejects exactly the texts that are not well-formed,
    and it is the value alone that can be outside the fragment. *)
Lemma parse_exact (text : string) :
  match JSON.parse text with
  | JSON.Bad => JSON.accepts text = false
  | _ => JSON.accepts text = true
  end.
Proof.
  unfold JSON.parse, JSON.accepts.
  pose proof (proj1 (parse_fuel (JSON.fuel_for text)) text) as H.
  destruct (JSON.parse_value (JSON.fuel_for text) text) as [v rest| |]; [|done|].
  - destruct (String.eqb (JSON.skip_ws rest) EmptyString); [|done]. by destruct v.
  - exfalso. apply H. unfold JSON.fuel_for. lia.
Qed.

(** ** The parser returns no function *)

Lemma obj_set_function_free (o : list (string * value)) (k : string) (v : value) :
  forallb (fun '(_, x) => function_free x) o = true ->
  function_free v = true ->
  forallb (fun '(_, x) => function_free x) (obj_set o k v) = true.
Proof.
  intros Ho Hv. unfold obj_set. destruct (obj_lookup o k).
  - induction o as [|[k0 x0] o IH]; cbn in *; [done|].
    apply andb_true_iff in Ho as [H0 Ho].
    destruct (String.eqb k0 k); cbn; [by rewrite Hv, Ho|]. by rewrite H0, IH.
  - destruct (array_index k) as [n|].
    + induction o as [|[k0 x0] o IH]; cbn in *; [by rewrite Hv|].
      apply andb_true_iff in Ho as [H0 Ho].
      destruct (array_index k0) as [n0|]; [destruct (n0 <? n)%N|]; cbn;
        rewrite ?Hv, ?H0, ?Ho, ?IH; done.
    + rewrite forallb_app, Ho. cbn. by rewrite Hv.
Qed.

Lemma object_of_function_free (kvs : list (string * value)) :
  forallb (fun '(_, x) => function_free x) kvs = true ->
  function_free (JSON.object_of kvs) = true.
Proof.
  unfold JSON.object_of. cbn [function_free].
  assert (forall acc, forallb (fun '(_, x) => function_free x) acc = true ->
            forallb (fun '(_, x) => function_free x) kvs = true ->
            forallb (fun '(_, x) => function_free x)
              (fold_left (fun o kv => obj_set o kv.1 kv.2) kvs acc) = true) as H; [|by apply H].
  induction kvs as [|[k v] kvs IH]; intros acc Hacc; cbn; [done|].
  intros [Hv Hkvs]%andb_true_iff. apply IH; [|done]. by apply obj_set_function_free.
Qed.

Lemma signed_function_free (negative : bool) (z : Z) :
  function_free (JSON.signed negative z) = true.
Proof. unfold JSON.signed. by destruct (z =? 0), negative. Qed.

Lemma parse_number_function_free (s : string) (v : value) (rest : string) :
  JSON.parse_number s = JSON.Read (Some v) rest -> function_free v = true.
Proof.
  unfold JSON.parse_number, JSON.unsigned_number, JSON.number_value.
  repeat case_match; intros [= <- <-]; apply signed_function_free.
Qed.

Lemma parse_function_free (fuel : nat) :
  (forall s v rest, JSON.parse_value fuel s = JSON.Read (Some v) rest ->
     function_free v = true) /\
  (forall s l rest, JSON.parse_elements fuel s = JSON.Read (Some l) rest ->
     forallb function_free l = true) /\
  (forall s kvs rest, JSON.parse_members fuel s = JSON.Read (Some kvs) rest ->
     forallb (fun '(_, x) => function_free x) kvs = true).
Proof.
  induction fuel as [|fuel (IHv & IHe & IHm)]; [by repeat split|].
  split; [|split]; intros s.
  - intros v rest. cbn [JSON.parse_value].
    destruct (JSON.next s) as [[c s']|]; [|done].
    destruct (Ascii.eqb c "{").
    { destruct (JSON.closes "}" s'); [by intros [= <- <-]|].
      destruct (JSON.parse_members fuel s') as [[kvs|] r| |] eqn:E; cbn; try done.
      intros [= <- <-]. apply object_of_function_free. by eapply IHm. }
    destruct (Ascii.eqb c "[").
    { destruct (JSON.closes "]" s'); [by intros [= <- <-]|].
      destruct (JSON.parse_elements fuel s') as [[l|] r| |] eqn:E; cbn; try done.
      intros [= <- <-]. cbn. by eapply IHe. }
    destruct (Ascii.eqb c JSON.dquote).
    { destruct (JSON.parse_chars s') as [[t|] r| |]; cbn; try done. by intros [= <- <-]. }
    unfold JSON.keyword.
    destruct (Ascii.eqb c "t"); [destruct (JSON.expect _ _); [by intros [= <- <-]|done]|].
    destruct (Ascii.eqb c "f"); [destruct (JSON.expect _ _); [by intros [= <- <-]|done]|].
    destruct (Ascii.eqb c "n"); [destruct (JSON.expect _ _); [by intros [= <- <-]|done]|].
    apply parse_number_function_free.
  - intros l rest. cbn [JSON.parse_elements].
    destruct (JSON.parse_value fuel s) as [v s1| |] eqn:Ev; cbn; try done.
    destruct (JSON.next s1) as [[c s2]|]; [|done].
    destruct (Ascii.eqb c ",").
    + destruct (JSON.parse_elements fuel s2) as [vs r| |] eqn:Ee; cbn; try done.
      destruct v as [v|], vs as [vs|]; cbn; try done. intros [= <- <-]. cbn.
      by rewrite (IHv _ _ _ Ev), (IHe _ _ _ Ee).
    + destruct (Ascii.eqb c "]"); [|done]. destruct v as [v|]; cbn; [|done].
      intros [= <- <-]. cbn. by rewrite (IHv _ _ _ Ev).
  - intros kvs rest. cbn [JSON.parse_members].
    destruct (JSON.closes JSON.dquote s) as [s1|]; [|done].
    destruct (JSON.parse_chars s1) as [k s2| |]; cbn; try done.
    destruct (JSON.closes ":" s2) as [s3|]; [|done].
    destruct (JSON.parse_value fuel s3) as [v s4| |] eqn:Ev; cbn; try done.
    destruct (JSON.next s4) as [[c s5]|]; [|done].
    destruct (Ascii.eqb c ",").
    + destruct (JSON.parse_members fuel s5) as [ms r| |] eqn:Em; cbn; try done.
      destruct k as [k|], v as [v|], ms as [ms|]; cbn; try done. intros [= <- <-]. cbn.
      by rewrite (IHv _ _ _ Ev), (IHm _ _ _ Em).
    + destruct (Ascii.eqb c "}"); [|done]. destruct k as [k|], v as [v|]; cbn; try done.
      intros [= <- <-]. cbn. by rewrite (IHv _ _ _ Ev).
Qed.

Lemma decode_try_function_free (raw : string) (v : value) :
  decode_try raw = JSON.Ok v -> function_free v = true.
Proof.
  unfold decode_try, JSON.parse.
  destruct (Buffer.toString_utf8 _) as [text exact].
  destruct (JSON.parse_value _ text) as [[v0|] rest| |] eqn:E; try done;
    destruct (String.eqb _ _); try done.
  destruct exact; [|done]. intros [= <-].
  by eapply (proj1 (parse_function_free _)).
Qed.

(** What the parser returns has no function under [__proto__], so
    the constructor's assignments are all described. *)
Lemma function_free_plain_proto (v : value) :
  function_free v = true -> plain_proto v = true.
Proof.
  unfold plain_proto. destruct v as [| | | | | |l|props|]; try done.
  cbn. intros Hp. induction props as [|[k x] props IH]; cbn in *; [done|].
  apply andb_true_iff in Hp as [Hx Hp].
  destruct (String.eqb k "__proto__"); cbn; [by destruct x|by apply IH].
Qed.

(** ** The parser's answer does not depend on the fuel *)

Lemma and_then_exhausted {A B} (m : JSON.scan A) (k : option A -> string -> JSON.scan B) :
  JSON.and_then m k <> JSON.Exhausted -> m <> JSON.Exhausted.
Proof. by destruct m. Qed.

Lemma and_then_ext {A B} (m : JSON.scan A) (k k' : option A -> string -> JSON.scan B) :
  (forall a rest, m = JSON.Read a rest -> k a rest = k' a rest) ->
  JSON.and_then m k = JSON.and_then m k'.
Proof. destruct m; cbn; [|done..]. intros H. by apply H. Qed.

Lemma parse_value_S (fuel : nat) (s : string) :
  JSON.parse_value (S fuel) s =
  (match JSON.next s with
       | None => JSON.Malformed
       | Some (c, s') =>
           if Ascii.eqb c "{" then
             match JSON.closes "}" s' with
             | Some rest => JSON.Read (Some (VObj [])) rest
             | None =>
                 JSON.and_then (JSON.parse_members fuel s')
                   (fun kvs rest => JSON.Read (JSON.object_of <$> kvs) rest)
             end
           else if Ascii.eqb c "[" then
             match JSON.closes "]" s' with
             | Some rest => JSON.Read (Some (VArr [])) rest
             | None =>
                 JSON.and_then (JSON.parse_elements fuel s')
                   (fun vs rest => JSON.Read (VArr <$> vs) rest)
             end
           else if Ascii.eqb c JSON.dquote then
             JSON.and_then (JSON.parse_chars s') (fun t rest => JSON.Read (VStr <$> t) rest)
           else if Ascii.eqb c "t" then JSON.keyword "rue" (VBool true) s'
           else if Ascii.eqb c "f" then JSON.keyword "alse" (VBool false) s'
           else if Ascii.eqb c "n" then JSON.keyword "ull" VNull s'
           else JSON.parse_number (String c s')
       end).
Proof. reflexivity. Qed.

Lemma parse_elements_S (fuel : nat) (s : string) :
  JSON.parse_elements (S fuel) s =
  (JSON.and_then (JSON.parse_value fuel s) (fun v s1 =>
         match JSON.next s1 with
         | None => JSON.Malformed
         | Some (c, s2) =>
             if Ascii.eqb c "," then
               JSON.and_then (JSON.parse_elements fuel s2)
                 (fun vs rest => JSON.Read (JSON.cons_read v vs) rest)
             else if Ascii.eqb c "]" then JSON.Read (JSON.cons_read v (Some [])) s2
             else JSON.Malformed
         end)).
Proof. reflexivity. Qed.

Lemma parse_members_S (fuel : nat) (s : string) :
  JSON.parse_members (S fuel) s =
  (match JSON.closes JSON.dquote s with
       | None => JSON.Malformed
       | Some s1 =>
           JSON.and_then (JSON.parse_chars s1) (fun k s2 =>
             match JSON.closes ":" s2 with
             | None => JSON.Malformed
             | Some s3 =>
                 JSON.and_then (JSON.parse_value fuel s3) (fun v s4 =>
                   match JSON.next s4 with
                   | None => JSON.Malformed
                   | Some (c, s5) =>
                       if Ascii.eqb c "," then
                         JSON.and_then (JSON.parse_members fuel s5) (fun kvs rest =>
                           JSON.Read (JSON.cons_read (JSON.member_read k v) kvs) rest)
                       else if Ascii.eqb c "}" then
                         JSON.Read (JSON.cons_read (JSON.member_read k v) (Some [])) s5
                       else JSON.Malformed
                   end)
             end)
       end).
Proof. reflexivity. Qed.

(** An answer other than [Exhausted] stays the same with more fuel. *)
Lemma parse_more_fuel (fuel : nat) :
  (forall s, JSON.parse_value fuel s <> JSON.Exhausted ->
     JSON.parse_value (S fuel) s = JSON.parse_value fuel s) /\
  (forall s, JSON.parse_elements fuel s <> JSON.Exhausted ->
     JSON.parse_elements (S fuel) s = JSON.parse_elements fuel s) /\
  (forall s, JSON.parse_members fuel s <> JSON.Exhausted ->
     JSON.parse_members (S fuel) s = JSON.parse_members fuel s).
Proof.
  induction fuel as [|fuel (IHv & IHe & IHm)]; [by repeat split|].
  split; [|split]; intros s.
  - rewrite (parse_value_S (S fuel) s), (parse_value_S fuel s).
    destruct (JSON.next s) as [[c s']|]; [|done].
    destruct (Ascii.eqb c "{").
    { destruct (JSON.closes "}" s'); [done|].
      intros H%and_then_exhausted. by rewrite IHm. }
    destruct (Ascii.eqb c "[").
    { destruct (JSON.closes "]" s'); [done|].
      intros H%and_then_exhausted. by rewrite IHe. }
    done.
  - rewrite (parse_elements_S (S fuel) s), (parse_elements_S fuel s).
    intros H.
    rewrite IHv by (by apply and_then_exhausted in H).
    destruct (JSON.parse_value fuel s) as [v s1| |]; cbn [JSON.and_then] in *; [|done..].
    destruct (JSON.next s1) as [[c s2]|]; [|done].
    destruct (Ascii.eqb c ","); [|done].
    by rewrite IHe by (by apply and_then_exhausted in H).
  - rewrite (parse_members_S (S fuel) s), (parse_members_S fuel s).
    intros H.
    destruct (JSON.closes JSON.dquote s) as [s1|]; [|done].
    destruct (JSON.parse_chars s1) as [k s2| |]; cbn [JSON.and_then] in *; [|done..].
    destruct (JSON.closes ":" s2) as [s3|]; [|done].
    rewrite IHv by (by apply and_then_exhausted in H).
    destruct (JSON.parse_value fuel s3) as [v s4| |]; cbn [JSON.and_then] in *; [|done..].
    destruct (JSON.next s4) as [[c s5]|]; [|done].
    destruct (Ascii.eqb c ","); [|done].
    by rewrite IHm by (by apply and_then_exhausted in H).
Qed.

(** With the fuel [parse] gives, and with any more, the parser
    answers the same, and never [Exhausted]. *)
Lemma parse_value_stable (text : string) (fuel : nat) :
  (JSON.fuel_for text <= fuel)%nat ->
  JSON.parse_value fuel text = JSON.parse_value (JSON.fuel_for text) text /\
  JSON.parse_value fuel text <> JSON.Exhausted.
Proof.
  assert (JSON.parse_value (JSON.fuel_for text) text <> JSON.Exhausted) as Hne.
  { pose proof (proj1 (parse_fuel (JSON.fuel_for text)) text) as H.
    intros E. rewrite E in H. apply H. unfold JSON.fuel_for. lia. }
  induction 1 as [|fuel Hle [IH1 IH2]]; [done|].
  rewrite (proj1 (parse_more_fuel fuel)) by done. by rewrite IH1.
Qed.

(** ** UTF-8 *)

Lemma toString_utf8_bytes (c : ascii) (rest : list Z) :
  Buffer.toString_utf8 (Buffer.utf8_bytes c ++ rest)%list =
  let '(t, exact) := Buffer.toString_utf8 rest in (String c t, exact).
Proof. destruct c as [[] [] [] [] [] [] [] []]; reflexivity. Qed.

(** [new Buffer(text).toString('utf8')] is [text], exactly. *)
Lemma toString_from_utf8 (s : string) :
  Buffer.toString_utf8 (Buffer.from_utf8 s) = (s, true).
Proof.
  induction s as [|c s IH]; [done|]. cbn [Buffer.from_utf8].
  by rewrite toString_utf8_bytes, IH.
Qed.

Lemma utf8_bytes_range (c : ascii) :
  Forall (fun b => 0 <= b < 256) (Buffer.utf8_bytes c).
Proof.
  destruct c as [[] [] [] [] [] [] [] []]; repeat constructor; done.
Qed.

Lemma from_utf8_range (s : string) : Forall (fun b => 0 <= b < 256) (Buffer.from_utf8 s).
Proof.
  induction s as [|c s IH]; [constructor|]. cbn [Buffer.from_utf8].
  apply Forall_app. split; [apply utf8_bytes_range|done].
Qed.

(** ** Base64 *)

(** Checking a property of one or two bytes on all of them. *)
Lemma forall_below (n : nat) (P : Z -> bool) :
  forallb P (List.map Z.of_nat (seq 0 n)) = true ->
  forall i, 0 <= i < Z.of_nat n -> P i = true.
Proof.
  intros H i Hi. rewrite forallb_forall in H. apply H.
  rewrite <- (Z2Nat.id i) by lia. apply in_map, in_seq. lia.
Qed.

Lemma forall_below2 (n : nat) (P : Z -> Z -> bool) :
  forallb (fun a => forallb (P a) (List.map Z.of_nat (seq 0 n)))
    (List.map Z.of_nat (seq 0 n)) = true ->
  forall a b, 0 <= a < Z.of_nat n -> 0 <= b < Z.of_nat n -> P a b = true.
Proof.
  intros H a b Ha Hb.
  apply (forall_below n (P a)); [|done].
  by apply (forall_below n (fun a => forallb (P a) (List.map Z.of_nat (seq 0 n)))).
Qed.

Lemma unbase64_base64_char (i : Z) :
  0 <= i < 64 -> Buffer.unbase64 (Buffer.base64_char i) = Some i.
Proof.
  intros Hi.
  pose proof (forall_below 64
    (fun i => bool_decide (Buffer.unbase64 (Buffer.base64_char i) = Some i))) as H.
  specialize (H ltac:(by vm_compute) i Hi). by apply bool_decide_eq_true_1 in H.
Qed.

Lemma sextets_cons (i : Z) (s : string) :
  0 <= i < 64 ->
  Buffer.sextets (String (Buffer.base64_char i) s) = i :: Buffer.sextets s.
Proof. intros Hi. cbn [Buffer.sextets]. by rewrite unbase64_base64_char. Qed.

(** The four indices of a group of three bytes are in the alphabet. *)
Lemma group_indices (b1 b2 : Z) :
  0 <= b1 < 256 -> 0 <= b2 < 256 ->
  0 <= Z.shiftr b1 2 < 64 /\
  0 <= Z.shiftl (Z.land b1 3) 4 < 64 /\
  0 <= Z.lor (Z.shiftl (Z.land b1 3) 4) (Z.shiftr b2 4) < 64 /\
  0 <= Z.shiftl (Z.land b1 15) 2 < 64 /\
  0 <= Z.lor (Z.shiftl (Z.land b1 15) 2) (Z.shiftr b2 6) < 64 /\
  0 <= Z.land b1 63 < 64.
Proof.
  intros H1 H2.
  pose proof (forall_below2 256 (fun b1 b2 => bool_decide (
    0 <= Z.shiftr b1 2 < 64 /\
    0 <= Z.shiftl (Z.land b1 3) 4 < 64 /\
    0 <= Z.lor (Z.shiftl (Z.land b1 3) 4) (Z.shiftr b2 4) < 64 /\
    0 <= Z.shiftl (Z.land b1 15) 2 < 64 /\
    0 <= Z.lor (Z.shiftl (Z.land b1 15) 2) (Z.shiftr b2 6) < 64 /\
    0 <= Z.land b1 63 < 64))) as H.
  specialize (H ltac:(by vm_compute) b1 b2 H1 H2). by apply bool_decide_eq_true_1 in H.
Qed.

(** The decoder's bit operations undo the encoder's. *)
Lemma group_bytes (b1 b2 : Z) :
  0 <= b1 < 256 -> 0 <= b2 < 256 ->
  Z.lor (Z.shiftl (Z.land (Z.shiftr b1 2) 63) 2)
        (Z.shiftr (Z.land (Z.lor (Z.shiftl (Z.land b1 3) 4) (Z.shiftr b2 4)) 48) 4) = b1 /\
  Z.lor (Z.shiftl (Z.land (Z.shiftr b1 2) 63) 2)
        (Z.shiftr (Z.land (Z.shiftl (Z.land b1 3) 4) 48) 4) = b1 /\
  Z.land (Z.lor (Z.shiftl (Z.land b1 3) 4) (Z.shiftr b2 4)) 15 = Z.shiftr b2 4 /\
  Z.shiftr (Z.land (Z.lor (Z.shiftl (Z.land b1 15) 2) (Z.shiftr b2 6)) 60) 2 = Z.land b1 15 /\
  Z.shiftr (Z.land (Z.shiftl (Z.land b1 15) 2) 60) 2 = Z.land b1 15 /\
  Z.lor (Z.shiftl (Z.shiftr b1 4) 4) (Z.land b1 15) = b1 /\
  Z.land (Z.lor (Z.shiftl (Z.land b1 15) 2) (Z.shiftr b2 6)) 3 = Z.shiftr b2 6 /\
  Z.lor (Z.shiftl (Z.shiftr b1 6) 6) (Z.land (Z.land b1 63) 63) = b1.
Proof.
  intros H1 H2.
  pose proof (forall_below2 256 (fun b1 b2 => bool_decide (
  Z.lor (Z.shiftl (Z.land (Z.shiftr b1 2) 63) 2)
        (Z.shiftr (Z.land (Z.lor (Z.shiftl (Z.land b1 3) 4) (Z.shiftr b2 4)) 48) 4) = b1 /\
  Z.lor (Z.shiftl (Z.land (Z.shiftr b1 2) 63) 2)
        (Z.shiftr (Z.land (Z.shiftl (Z.land b1 3) 4) 48) 4) = b1 /\
  Z.land (Z.lor (Z.shiftl (Z.land b1 3) 4) (Z.shiftr b2 4)) 15 = Z.shiftr b2 4 /\
  Z.shiftr (Z.land (Z.lor (Z.shiftl (Z.land b1 15) 2) (Z.shiftr b2 6)) 60) 2 = Z.land b1 15 /\
  Z.shiftr (Z.land (Z.shiftl (Z.land b1 15) 2) 60) 2 = Z.land b1 15 /\
  Z.lor (Z.shiftl (Z.shiftr b1 4) 4) (Z.land b1 15) = b1 /\
  Z.land (Z.lor (Z.shiftl (Z.land b1 15) 2) (Z.shiftr b2 6)) 3 = Z.shiftr b2 6 /\
  Z.lor (Z.shiftl (Z.shiftr b1 6) 6) (Z.land (Z.land b1 63) 63) = b1))) as H.
  specialize (H ltac:(by vm_compute) b1 b2 H1 H2). by apply bool_decide_eq_true_1 in H.
Qed.

Lemma list_ind3 {A} (P : list A -> Prop) :
  P [] -> (forall a, P [a]) -> (forall a b, P [a; b]) ->
  (forall a b c l, P l -> P (a :: b :: c :: l)) ->
  forall l, P l.
Proof.
  intros H0 H1 H2 H3 l.
  assert (P l /\ (forall a, P (a :: l)) /\ (forall a b, P (a :: b :: l))) as [H _]; [|done].
  induction l as [|x l (IH0 & IH1 & IH2)]; [done|].
  split; [apply IH1|]. split; [intros a; apply IH2|]. intros a b. by apply H3.
Qed.

(** [new Buffer(buf.toString('base64'), 'base64')] is [buf]. *)
Lemma from_toString_base64 (b : list Z) :
  Forall (fun x => 0 <= x < 256) b ->
  Buffer.from_base64 (Buffer.toString_base64 b) = b.
Proof.
  unfold Buffer.from_base64.
  induction b as [|b1|b1 b2|b1 b2 b3 b IH] using list_ind3; intros Hb.
  - done.
  - apply Forall_cons in Hb as [H1 _].
    destruct (group_indices b1 0 H1 ltac:(lia)) as (I1 & I2 & _).
    destruct (group_bytes b1 0 H1 ltac:(lia)) as (_ & E1 & _).
    cbn [Buffer.toString_base64]. rewrite !sextets_cons by done.
    cbn [Buffer.sextets Buffer.bytes_of_sextets]. by rewrite E1.
  - apply Forall_cons in Hb as [H1 [H2 _]%Forall_cons].
    destruct (group_indices b1 b2 H1 H2) as (I1 & _ & I2 & _).
    destruct (group_indices b2 0 H2 ltac:(lia)) as (_ & _ & _ & I3 & _).
    destruct (group_bytes b1 b2 H1 H2) as (E1 & _ & E2 & _).
    destruct (group_bytes b2 0 H2 ltac:(lia)) as (_ & _ & _ & _ & E3 & E4 & _).
    cbn [Buffer.toString_base64]. rewrite !sextets_cons by done.
    cbn [Buffer.sextets Buffer.bytes_of_sextets]. by rewrite E1, E2, E3, E4.
  - apply Forall_cons in Hb as [H1 [H2 [H3 Hb]%Forall_cons]%Forall_cons].
    destruct (group_indices b1 b2 H1 H2) as (I1 & _ & I2 & _).
    destruct (group_indices b2 b3 H2 H3) as (_ & _ & _ & _ & I3 & _).
    destruct (group_indices b3 0 H3 ltac:(lia)) as (_ & _ & _ & _ & _ & I4).
    destruct (group_bytes b1 b2 H1 H2) as (E1 & _ & E2 & _).
    destruct (group_bytes b2 b3 H2 H3) as (_ & _ & _ & E3 & _ & E4 & E5 & _).
    destruct (group_bytes b3 0 H3 ltac:(lia)) as (_ & _ & _ & _ & _ & _ & _ & E6).
    cbn [Buffer.toString_base64]. rewrite !sextets_cons by done.
    cbn [Buffer.bytes_of_sextets]. by rewrite E1, E2, E3, E4, E5, E6, IH.
Qed.

(** ** [decode] after [encode] *)

Lemma decode_encode (v : value) :
  serializable v = true ->
  exists cookie,
    encode v = Return cookie /\ decode_try cookie = JSON.Ok v /\ decode cookie = Return v.
Proof.
  intros (text & Htext & Hparse)%parse_stringify. unfold encode, decode, decode_try.
  rewrite Htext. eexists. split; [done|]. cbn zeta.
  by rewrite from_toString_base64, toString_from_utf8, Hparse by apply from_utf8_range.
Qed.

(** ** The cookie on the next request *)

Lemma session_assign_reserved_free (this s : session_t) (k : string) (v : value) :
  session_assign this k v = Return s ->
  reserved_free (own this) = true -> reserved_free (own s) = true.
Proof.
  unfold session_assign.
  destruct (String.eqb k "isNew") eqn:E1; [done|].
  destruct (String.eqb k "__proto__") eqn:E2; [by destruct (function_free v); intros [= <-]|].
  intros [= <-]. cbn [own].
  unfold reserved_free. rewrite !forallb_forall. intros Hthis [k' v'] Hin.
  assert (obj_lookup (obj_set (own this) k v) k' <> None) as Hlook.
  { clear -Hin. induction (obj_set (own this) k v) as [|[k0 v0] o IH]; [by destruct Hin|].
    cbn. destruct (String.eqb_spec k0 k') as [->|Hne]; [done|].
    destruct Hin as [[= -> ->]|Hin]; [done|by apply IH]. }
  rewrite obj_lookup_set in Hlook. cbn [fst].
  destruct (String.eqb_spec k k') as [<-|Hne]; [by rewrite E1, E2|].
  destruct (obj_lookup (own this) k') as [w|] eqn:Hw; [|done].
  assert (exists w', In (k', w') (own this)) as [w' Hw'].
  { clear -Hw. induction (own this) as [|[k0 v0] o IH]; [done|]. cbn in Hw.
    destruct (String.eqb_spec k0 k') as [->|Hne]; [by eexists; left|].
    destruct (IH Hw) as [w' Hw']. exists w'. by right. }
  apply (Hthis _ Hw').
Qed.

Lemma assign_keys_reserved_free (obj : value) (ks : list string) :
  forall this s, assign_keys obj ks this = Return s ->
  reserved_free (own this) = true -> reserved_free (own s) = true.
Proof.
  induction ks as [|k ks IH]; intros this s; cbn; [by intros [= <-]|].
  destruct (session_assign this k (Object.get obj k)) as [[this'|]|] eqn:E; cbn; [|done..].
  intros Hs Hthis. eapply IH; [done|]. by eapply session_assign_reserved_free.
Qed.

(** The constructor creates no own property [isNew] or [__proto__]. *)
Lemma Session_reserved_free (v : value) (s : session_t) :
  Session v = Return s -> reserved_free (own s) = true.
Proof.
  unfold Session. destruct (truthy v); [|by intros [= <-]].
  destruct (Object.keys v) as [ks|]; cbn; [|done].
  intros Hs. by eapply assign_keys_reserved_free.
Qed.

Lemma assign_keys_object (rest : list (string * value)) :
  forall (acc : list (string * value)) (this : session_t),
  keys_ordered_from (map fst acc) (map fst rest) = true ->
  reserved_free rest = true ->
  own this = acc ->
  assign_keys (VObj (acc ++ rest)) (map fst rest) this
  = Return {| isNew := isNew this; own := (acc ++ rest)%list |}.
Proof.
  induction rest as [|[k v] rest IH]; intros acc this Hord Hfree Hown.
  - cbn. rewrite app_nil_r, <- Hown. by destruct this.
  - cbn in Hord, Hfree. apply andb_true_iff in Hord as [Hfit Hord].
    apply andb_true_iff in Hfree as [[Hk1 Hk2]%andb_true_iff Hfree].
    apply negb_true_iff in Hk1, Hk2.
    cbn [map fst assign_keys]. unfold session_assign. rewrite Hk1, Hk2.
    assert (Object.get (VObj (acc ++ (k, v) :: rest)) k = v) as ->.
    { cbn. rewrite obj_lookup_app, obj_lookup_fresh; [cbn; by rewrite String.eqb_refl|].
      unfold fits in Hfit. apply andb_true_iff in Hfit as [Hnew _].
      by apply negb_true_iff in Hnew. }
    cbn [mbind outcome_bind]. rewrite Hown, (obj_set_fits _ _ _ Hfit).
    replace (acc ++ (k, v) :: rest)%list with ((acc ++ [(k, v)]) ++ rest)%list
      by by rewrite <- app_assoc.
    rewrite IH; [done| |done..]. by rewrite map_app.
Qed.

(** [new Session(obj)] for an object in own-key order without the two
    reserved names: the same properties. *)
Lemma Session_object (props : list (string * value)) :
  keys_ordered (map fst props) = true ->
  reserved_free props = true ->
  Session (VObj props) = Return {| isNew := false; own := props |}.
Proof.
  intros Hord Hfree. unfold Session. cbn.
  by apply (assign_keys_object props [] {| isNew := false; own := [] |}).
Qed.

(** The handler sets [message] to [hi] and [string] to a semicolon;
    the response sets one cookie; the next request presents it and the
    handler finds both values. *)
Example message_survives_the_round_trip :
  let first := serve default_app.2
                 [PutSessionKey "message" (VStr "hi"); PutSessionKey "string" (VStr ";")]
                 no_cookies default_app.1 in
  map Cookies.sc_value (set_cookies first.2) = ["eyJtZXNzYWdlIjoiaGkiLCJzdHJpbmciOiI7In0="] /\
  (session_get default_app.2 first.1
     (cookieSession default_app.2 (returned_by first.2 false) first.1).2).2
  = Return (SSession {| isNew := false;
                        own := [("message", VStr "hi"); ("string", VStr ";")] |}).
Proof. vm_compute. done. Qed.

(** ** Every Session keeps its properties in own-key order *)

Lemma keys_ordered_from_app (ks : list string) (k : string) :
  forall seen,
  keys_ordered_from seen (ks ++ [k])%list = keys_ordered_from seen ks && fits (seen ++ ks)%list k.
Proof.
  induction ks as [|a ks IH]; intros seen; simpl.
  - by rewrite app_nil_r, andb_true_r.
  - by rewrite IH, <- app_assoc, andb_assoc.
Qed.

(** [fits] looks at the keys seen so far as a set. *)
Lemma fits_ext (seen seen' : list string) (k : string) :
  (forall x, In x seen' <-> In x seen) -> fits seen' k = fits seen k.
Proof.
  intros Hin. unfold fits. f_equal.
  - f_equal. apply eq_true_iff_eq. rewrite !existsb_exists.
    split; intros (x & Hx & E); exists x; (split; [by apply Hin|done]).
  - destruct (array_index k); [|done]. apply eq_true_iff_eq. rewrite !forallb_forall.
    split; intros H x Hx; by apply H, Hin.
Qed.

Lemma keys_ordered_from_ext (ks : list string) :
  forall seen seen',
  (forall x, In x seen' <-> In x seen) ->
  keys_ordered_from seen' ks = keys_ordered_from seen ks.
Proof.
  induction ks as [|a ks IH]; intros seen seen' Hin; cbn; [done|].
  rewrite (fits_ext seen seen' a Hin). f_equal. apply IH.
  intros x. rewrite !in_app_iff. by rewrite Hin.
Qed.

(** In an ordered list an array index is above every index seen
    before it, and follows no other kind of key. *)
Lemma keys_ordered_from_above (ks : list string) :
  forall seen, keys_ordered_from seen ks = true ->
  forall x key m, In x seen -> In key ks -> array_index key = Some m ->
  index_below m x = true.
Proof.
  induction ks as [|a ks IH]; intros seen; cbn; [done|].
  intros [Hfit Hord]%andb_true_iff x key m Hx [->|Hkey] Hm.
  - unfold fits in Hfit. rewrite Hm in Hfit. apply andb_true_iff in Hfit as [_ Hall].
    rewrite forallb_forall in Hall. by apply Hall.
  - apply (IH _ Hord x key m); [|done..]. apply in_app_iff. by left.
Qed.

(** One more array index among the keys seen does no harm to keys
    that are above it. *)
Lemma keys_ordered_from_seen (n : N) (k : string) (ks : list string) :
  forall seen,
  array_index k = Some n ->
  keys_ordered_from seen ks = true ->
  existsb (String.eqb k) ks = false ->
  (forall key m, In key ks -> array_index key = Some m -> (n < m)%N) ->
  keys_ordered_from (seen ++ [k]) ks = true.
Proof.
  induction ks as [|a ks IH]; intros seen Hk; cbn; [done|].
  intros [Hfit Hord]%andb_true_iff [Hak Hnew]%orb_false_iff Habove.
  apply andb_true_iff. split.
  - unfold fits in *. apply andb_true_iff in Hfit as [Hfresh Hidx].
    apply andb_true_iff. split.
    + rewrite existsb_app, negb_orb, Hfresh. cbn.
      by rewrite String.eqb_sym, Hak.
    + destruct (array_index a) as [m|] eqn:Ha; [|done].
      rewrite forallb_app, Hidx. cbn. unfold index_below. rewrite Hk.
      rewrite andb_true_r. apply N.ltb_lt. apply (Habove a); [by left|done].
  - rewrite (keys_ordered_from_ext ks ((seen ++ [a]) ++ [k]) ((seen ++ [k]) ++ [a])).
    + apply IH; [done..|]. intros key m Hkey. apply Habove. by right.
    + intros x. rewrite !in_app_iff. cbn. tauto.
Qed.

Lemma obj_insert_index_ordered (n : N) (k : string) (v : value) (o : list (string * value)) :
  forall seen,
  array_index k = Some n ->
  keys_ordered_from seen (map fst o) = true ->
  fits seen k = true ->
  existsb (String.eqb k) (map fst o) = false ->
  keys_ordered_from seen (map fst (obj_insert_index n k v o)) = true.
Proof.
  induction o as [|[k' v'] o IH]; intros seen Hk; cbn [obj_insert_index map fst].
  - intros _ Hfit _. cbn. by rewrite Hfit.
  - cbn [keys_ordered_from existsb].
    intros [Hfit' Hord]%andb_true_iff Hfit [Hkk' Hnew]%orb_false_iff.
    assert (forall key m, In key (k' :: map fst o) -> array_index key = Some m ->
              (array_index k' = None \/ exists n', array_index k' = Some n' /\ (n <= n')%N) ->
              (n < m)%N) as Habove.
    { intros key m [<-|Hkey] Hm Hk'.
      - destruct Hk' as [Hk'|(n' & Hk' & Hle)]; [congruence|].
        assert (n' = m) as -> by congruence.
        assert (m <> n); [|lia]. intros ->.
        apply array_index_inv in Hk as [-> _]. apply array_index_inv in Hm as [-> _].
        by rewrite String.eqb_refl in Hkk'.
      - pose proof (keys_ordered_from_above _ _ Hord k' key m) as Hb.
        unfold index_below in Hb.
        rewrite in_app_iff in Hb. specialize (Hb ltac:(right; by left) Hkey Hm).
        destruct Hk' as [Hk'|(n' & Hk' & Hle)]; rewrite Hk' in Hb; [done|].
        apply N.ltb_lt in Hb. lia. }
    assert (array_index k' = None \/ (exists n', array_index k' = Some n' /\ (n <= n')%N) ->
            keys_ordered_from seen (k :: k' :: map fst o) = true) as Hinsert.
    { intros Hk'. cbn [keys_ordered_from]. rewrite Hfit. cbn [andb].
      apply (keys_ordered_from_seen n k (k' :: map fst o) seen Hk).
      - cbn. by rewrite Hfit', Hord.
      - cbn. by rewrite Hkk', Hnew.
      - intros key m Hkey Hm. by apply (Habove key m). }
    destruct (array_index k') as [n'|] eqn:Hk'; [|apply Hinsert; by left].
    destruct (N.ltb_spec n' n) as [Hlt|Hge]; [|apply Hinsert; right; eauto].
    cbn [map fst keys_ordered_from]. rewrite Hfit'. cbn [andb].
    apply IH; [done..| |done].
    unfold fits in *. apply andb_true_iff in Hfit as [Hfresh Hidx].
    rewrite Hk in *. rewrite existsb_app, forallb_app, negb_orb, Hfresh, Hidx. cbn.
    unfold index_below. rewrite Hkk', Hk'. cbn. rewrite andb_true_r. by apply N.ltb_lt.
Qed.

Lemma keys_obj_replace (o : list (string * value)) (k : string) (v : value) :
  map fst (obj_replace o k v) = map fst o.
Proof.
  induction o as [|[k' v'] o IH]; cbn; [done|].
  destruct (String.eqb k' k); cbn; [done|by rewrite IH].
Qed.

Lemma obj_lookup_None (o : list (string * value)) (k : string) :
  obj_lookup o k = None -> existsb (String.eqb k) (map fst o) = false.
Proof.
  induction o as [|[k' v'] o IH]; cbn; [done|].
  rewrite (String.eqb_sym k k'). by destruct (String.eqb k' k).
Qed.

(** Creating or updating a property keeps the keys in order. *)
Lemma obj_set_ordered (o : list (string * value)) (k : string) (v : value) :
  keys_ordered (map fst o) = true -> keys_ordered (map fst (obj_set o k v)) = true.
Proof.
  unfold keys_ordered, obj_set. intros Hord.
  destruct (obj_lookup o k) eqn:Hlook; [by rewrite keys_obj_replace|].
  apply obj_lookup_None in Hlook.
  destruct (array_index k) as [n|] eqn:Hk.
  - apply obj_insert_index_ordered; [done..| |done]. unfold fits. by rewrite Hk.
  - rewrite map_app. cbn [map fst]. rewrite keys_ordered_from_app, Hord.
    cbn. unfold fits. by rewrite Hlook, Hk.
Qed.

Lemma session_assign_wf (this s : session_t) (k : string) (v : value) :
  session_assign this k v = Return s -> session_wf this = true -> session_wf s = true.
Proof.
  intros Hs [Hord Hfree]%andb_true_iff. apply andb_true_iff. split.
  - revert Hs. unfold session_assign. repeat case_match; intros [= <-]; try done.
    by apply obj_set_ordered.
  - by eapply session_assign_reserved_free.
Qed.

Lemma assign_keys_wf (obj : value) (ks : list string) :
  forall this s, assign_keys obj ks this = Return s ->
  session_wf this = true -> session_wf s = true.
Proof.
  induction ks as [|k ks IH]; intros this s; cbn; [by intros [= <-]|].
  destruct (session_assign this k (Object.get obj k)) as [[this'|]|] eqn:E; cbn; [|done..].
  intros Hs Hthis. eapply IH; [done|]. by eapply session_assign_wf.
Qed.

Lemma Session_wf (v : value) (s : session_t) : Session v = Return s -> session_wf s = true.
Proof.
  unfold Session. destruct (truthy v); [|by intros [= <-]].
  destruct (Object.keys v) as [ks|]; cbn; [|done].
  intros Hs. by eapply assign_keys_wf.
Qed.

(** Whatever the handler does, a Session in the closure variable has
    its properties in own-key order under unreserved names, as far as
    the model follows the handler. *)
Lemma run_handler_wf (mw : middleware) (ops : list op) :
  forall (st st' : heap * ctx) (r : outcome unit),
  run_handler mw ops st = (st', r) ->
  slot_wf (session st.2) = true -> slot_wf (session st'.2) = true.
Proof.
  assert (forall h c c' r, session_get mw h c = (c', r) ->
            slot_wf (session c) = true -> slot_wf (session c') = true) as Hget.
  { intros h c c' r. unfold session_get.
    destruct (session c) eqn:Hs; try (intros [= <- <-]; by rewrite Hs).
    destruct (Cookies.get _ _ _ _) as [raw|]; cbn.
    - destruct (_ ≫= Session) as [[s|]|] eqn:E; intros [= <- <-] _; [|done..]. cbn.
      destruct (if negb _ then _ else _) as [[arg|]|]; [|done..]. by eapply Session_wf.
    - by intros [= <- <-]. }
  induction ops as [|o ops IH]; intros st st' r; cbn; [by intros [= <- <-]|].
  destruct (run_op mw o st) as [st1 r1] eqn:E. intros Hrun Hwf.
  assert (slot_wf (session st1.2) = true) as Hwf1.
  { destruct st as [h c]. destruct o; cbn in E.
    - destruct (session_get mw h c) as [c1 [[|]|]] eqn:G; injection E as <- <-; by eapply Hget.
    - unfold session_set in E. destruct (loosely_null val); [by injection E as <- <-|].
      destruct (typeof val); try by injection E as <- <-.
      destruct (Session val) as [[s|]|] eqn:Hs; injection E as <- <-; [|done..].
      by eapply Session_wf.
    - destruct (session_get mw h c) as [c1 r2] eqn:G. pose proof (Hget _ _ _ _ G Hwf) as Hc1.
      destruct r2 as [[[]|]|]; try by injection E as <- <-.
      destruct (String.eqb k "__proto__"); [by injection E as <- <-|].
      destruct (session_assign s k v) as [[s'|]|] eqn:Ha; injection E as <- <-; [|done..].
      cbn. eapply session_assign_wf; [done|].
      destruct (session_get_cases mw _ _ _ _ G) as (_ & _ & _ & _ & _ & Hr).
      by rewrite <- Hr in Hc1.
    - destruct (String.eqb k "__proto__"); by injection E as <- <-. }
  destruct r1 as [[|]|]; [by eapply IH|..]; by injection Hrun as <- <-.
Qed.

(** ** The shape of the cookie value *)

Lemma base64_char_alphabet (i : Z) :
  0 <= i < 64 -> base64_alphabet (Buffer.base64_char i) = true.
Proof.
  intros Hi.
  exact (forall_below 64 (fun i => base64_alphabet (Buffer.base64_char i))
           ltac:(by vm_compute) i Hi).
Qed.

(** Base64 text: characters of the alphabet, in groups of four, and
    none only for no bytes. *)
Lemma toString_base64_shape (b : list Z) :
  Forall (fun x => 0 <= x < 256) b ->
  all_chars base64_alphabet (Buffer.toString_base64 b) = true /\
  (exists n, String.length (Buffer.toString_base64 b) = (4 * n)%nat) /\
  (Buffer.toString_base64 b = EmptyString -> b = []).
Proof.
  induction b as [|b1|b1 b2|b1 b2 b3 b IH] using list_ind3; intros Hb.
  - split; [done|]. split; [by exists 0%nat|done].
  - apply Forall_cons in Hb as [H1 _].
    destruct (group_indices b1 0 H1 ltac:(lia)) as (I1 & I2 & _).
    cbn [Buffer.toString_base64 all_chars]. rewrite !base64_char_alphabet by done.
    split; [done|]. split; [by exists 1%nat|done].
  - apply Forall_cons in Hb as [H1 [H2 _]%Forall_cons].
    destruct (group_indices b1 b2 H1 H2) as (I1 & _ & I2 & _).
    destruct (group_indices b2 0 H2 ltac:(lia)) as (_ & _ & _ & I3 & _).
    cbn [Buffer.toString_base64 all_chars]. rewrite !base64_char_alphabet by done.
    split; [done|]. split; [by exists 1%nat|done].
  - apply Forall_cons in Hb as [H1 [H2 [H3 Hb]%Forall_cons]%Forall_cons].
    destruct (group_indices b1 b2 H1 H2) as (I1 & _ & I2 & _).
    destruct (group_indices b2 b3 H2 H3) as (_ & _ & _ & _ & I3 & _).
    destruct (group_indices b3 0 H3 ltac:(lia)) as (_ & _ & _ & _ & _ & I4).
    destruct (IH Hb) as (IH1 & [n IH2] & _).
    cbn [Buffer.toString_base64 all_chars String.length].
    rewrite !base64_char_alphabet, IH1, IH2 by done.
    split; [done|]. split; [exists (S n); lia|done].
Qed.

(** A JSON text is never empty. *)
Lemma serialize_nonempty (v : value) (text : string) :
  JSON.serialize v = Some text -> exists c t, text = String c t.
Proof.
  destruct v as [| |[]|z| |s|l|props|]; cbn [JSON.serialize]; try done;
    try (intros [= <-]; by eexists _, _).
  intros [= <-]. destruct z as [|p|p]; cbn [string_of_Z]; try by eexists _, _.
  destruct (string_of_N_shape (N.pos p)) as (d & ds & -> & _). by eexists _, _.
Qed.

Lemma from_utf8_nonempty (c : ascii) (t : string) : Buffer.from_utf8 (String c t) <> [].
Proof.
  cbn [Buffer.from_utf8]. unfold Buffer.utf8_bytes.
  by destruct (Z.of_N (N_of_ascii c) <? 128).
Qed.

Lemma encode_shape (body : value) (cookie : string) :
  encode body = Return cookie ->
  all_chars base64_alphabet cookie = true /\
  (String.length cookie mod 4 = 0)%nat /\
  cookie <> EmptyString.
Proof.
  unfold encode, JSON.stringify. destruct (JSON.serialize body) as [text|] eqn:E; [|done].
  intros [= <-].
  destruct (toString_base64_shape _ (from_utf8_range text)) as (H1 & [n H2] & H3).
  split; [done|]. split.
  - rewrite H2, Nat.mul_comm. apply Nat.Div0.mod_mul.
  - intros H%H3. destruct (serialize_nonempty _ _ E) as (c & t & ->).
    by apply from_utf8_nonempty in H.
Qed.

(** ** The round trip of a session *)


(** ** The first read, for every cookie *)

(** The text [decode] hands to [JSON.parse], as far as the model
    follows it. *)
Lemma decode_try_exact (raw : string) :
  match decode_try raw with
  | JSON.Bad => JSON.accepts (Buffer.toString_utf8 (Buffer.from_base64 raw)).1 = false
  | _ => JSON.accepts (Buffer.toString_utf8 (Buffer.from_base64 raw)).1 = true
  end.
Proof.
  unfold decode_try.
  destruct (Buffer.toString_utf8 (Buffer.from_base64 raw)) as [text exact]. cbn [fst].
  pose proof (parse_exact text) as H.
  destruct (JSON.parse text); [by destruct exact|done..].
Qed.

(** The first read is outside the model only for a cookie whose text
    is well formed and whose value is outside the fragment. *)
Lemma session_get_described (mw : middleware) (h : heap) (c : ctx) :
  (session_get mw h c).2 = Unmodelled ->
  session c = SFalse /\
  exists raw,
    Cookies.get (cookies c) h (sessionKey mw) (sessionOptions c) = Some raw /\
    decode_try raw = JSON.Beyond.
Proof.
  destruct (session c) eqn:Hs; try (unfold session_get; rewrite Hs; done).
  rewrite (session_get_fresh mw h c Hs). cbn zeta.
  destruct (Cookies.get _ _ _ _) as [raw|]; [|done].
  intros H. split; [done|]. exists raw. split; [done|].
  destruct (truthy (VStr raw)) eqn:Ht.
  - unfold decode in H. destruct (decode_try raw) as [v| |] eqn:Hv; [exfalso| |done].
    + cbn [mbind outcome_bind] in H.
      pose proof (decode_try_function_free _ _ Hv) as Hf.
      unfold Session in H. destruct (truthy v); [|done].
      destruct (Object.keys v) as [ks|e] eqn:Hk; cbn [mbind outcome_bind] in H; [|done].
      pose proof (assign_keys_outcome v ks {| isNew := negb true; own := [] |}
                    (function_free_plain_proto _ Hf)) as Ha.
      destruct (bool_decide _); [by rewrite Ha in H|].
      destruct Ha as [s Ha]. by rewrite Ha in H.
    + by vm_compute in H.
  - cbn [mbind outcome_bind] in H. by rewrite (Session_falsy _ Ht) in H.
Qed.

(** C4, amended: the Session a first read constructs has [isNew] true
    exactly when no cookie value came back from the host (none sent, or
    the signature does not verify), or the value is empty, or it does
    not decode, or it decodes to a falsy JSON value ([null], [false],
    [0], the empty string); and no assignment to the Session changes
    [isNew]. *)
Theorem isNew_iff_no_truthy_payload
    (mw : middleware) (h : heap) (c c' : ctx) (s : session_t) :
  session c = SFalse ->
  session_get mw h c = (c', Return (SSession s)) ->
  (isNew s = true <->
     match Cookies.get (cookies c) h (sessionKey mw) (sessionOptions c) with
     | None => True
     | Some raw =>
         raw = EmptyString \/ decode_try raw = JSON.Bad \/
         (exists v, decode_try raw = JSON.Ok v /\ truthy v = false)
     end) /\
  (forall k v s', session_assign s k v = Return s' -> isNew s' = isNew s).
Proof.
  intros Hs. rewrite (session_get_fresh mw h c Hs). cbn zeta. intros E.
  split; [|intros k v s'; apply session_assign_isNew].
  destruct (Cookies.get _ _ _ _) as [raw|]; cbn match in E.
  - destruct (if truthy (VStr raw) then _ else _) as [[arg|e]|] eqn:Harg;
      cbn [mbind outcome_bind] in E; [|done..].
    destruct (Session arg) as [[s0|]|] eqn:Hs0; [|done..]. injection E as _ ->.
    rewrite (Session_isNew _ _ Hs0), negb_true_iff.
    by apply first_read_argument.
  - cbn [mbind outcome_bind] in E. rewrite (Session_falsy VUndefined) in E by done.
    by injection E as _ <-.
Qed.

(** C6: [decode] throws for no string.  When the base64 or JSON step
    fails, which is exactly when the decoded text is not well formed,
    it returns [undefined], and the first read of the session then
    yields a new, empty Session: no error reaches the handler.
    Otherwise it returns the parsed value. *)
Theorem decode_failure_is_new_session
    (mw : middleware) (h : heap) (c : ctx) (raw : string) :
  session c = SFalse ->
  Cookies.get (cookies c) h (sessionKey mw) (sessionOptions c) = Some raw ->
  (forall e, decode raw <> Throw e) /\
  (decode_try raw = JSON.Bad <->
   JSON.accepts (Buffer.toString_utf8 (Buffer.from_base64 raw)).1 = false) /\
  match decode_try raw with
  | JSON.Bad =>
      decode raw = Return VUndefined /\
      session_get mw h c =
      (with_session c (SSession {| isNew := true; own := [] |}),
       Return (SSession {| isNew := true; own := [] |}))
  | JSON.Ok v => decode raw = Return v
  | JSON.Beyond => decode raw = Unmodelled
  end.
Proof.
  intros Hs Hraw. split; [intros e; apply decode_never_throws|].
  pose proof (decode_try_exact raw) as Hx.
  split.
  { destruct (decode_try raw); split; try done; intros H; by rewrite H in Hx. }
  unfold decode. destruct (decode_try raw) as [v| |] eqn:E; [done| |done].
  split; [done|].
  rewrite (session_get_fresh mw h c Hs), Hraw. cbn zeta. cbn match.
  unfold decode. rewrite E.
  destruct (truthy (VStr raw)) eqn:Ht; cbn [mbind outcome_bind].
  - by rewrite (Session_falsy VUndefined).
  - by rewrite (Session_falsy _ Ht).
Qed.

(** The first read on four cookies: the truncated text [[] and the
    text [{"a":1.] do not decode, so the Session is new; the text
    [{"a":1}] gives a Session with its member; the text [{"a":1.5}]
    is well formed and its value is outside the fragment. *)
Example first_read_at_the_boundary :
  (session_get default_app.2 default_app.1 (first_request "Ww==")).2 =
    Return (SSession {| isNew := true; own := [] |}) /\
  (session_get default_app.2 default_app.1 (first_request "eyJhIjoxLg==")).2 =
    Return (SSession {| isNew := true; own := [] |}) /\
  (session_get default_app.2 default_app.1 (first_request "eyJhIjoxfQ==")).2 =
    Return (SSession {| isNew := false; own := [("a", VNum 1)] |}) /\
  (session_get default_app.2 default_app.1 (first_request "eyJhIjoxLjV9")).2 = Unmodelled.
Proof. vm_compute. done. Qed.

(** ** What finalization writes *)

(** The value [onPreEnd] passes to [cookies.set]: empty for [null],
    and otherwise the base64 of the UTF-8 bytes of the JSON text of
    the variable, which is never empty. *)
Lemma cookie_value_encoded (s : slot) (v : string) :
  cookie_value s = Return v ->
  if loosely_null (slot_value s) then v = EmptyString
  else exists text,
         JSON.stringify (slot_value s) = Some text /\
         v = Buffer.toString_base64 (Buffer.from_utf8 text) /\ v <> EmptyString.
Proof.
  unfold cookie_value. destruct (loosely_null (slot_value s)); [by intros [= <-]|].
  intros Hv. destruct (encode_shape _ _ Hv) as (_ & _ & Hne).
  unfold encode in Hv. destruct (JSON.stringify (slot_value s)) as [text|]; [|done].
  injection Hv as <-. by exists text.
Qed.

(** C1, amended: after any handler the model follows to its end,
    [onPreEnd] calls [cookies.set] exactly when a statement that ran
    read the session property or wrote it, with the request's
    [sessionOptions]; the value is empty when the variable holds
    [null], and otherwise the base64 of the UTF-8 bytes of the JSON
    text of the session, which is not empty.  The response carries the
    cookie only if [cookies.set] returns: when it throws, the session
    was accessed and no cookie is set. *)
Theorem onPreEnd_sets_cookie_iff_accessed_and_set_returns
    (mw : middleware) (j : Cookies.jar) (h : heap) (ops : list op) :
  let st0 := cookieSession mw j h in
  let st := (run_handler mw ops st0).1 in
  let c' := (onPreEnd mw st.1 st.2).1 in
  let r := (onPreEnd mw st.1 st.2).2 in
  (run_handler mw ops st0).2 <> Unmodelled ->
  no_toJSON (slot_value (session st.2)) = true ->
  sessionOptions st.2 = sessionOptions st0.2 /\
  (if existsb touches (executed mw ops st0) then
     exists v,
       match session st.2 with
       | SNull => v = EmptyString
       | SSession s =>
           exists text,
             JSON.stringify (VObj (own s)) = Some text /\
             v = Buffer.toString_base64 (Buffer.from_utf8 text) /\ v <> EmptyString
       | SString raw =>
           exists text,
             JSON.stringify (VStr raw) = Some text /\
             v = Buffer.toString_base64 (Buffer.from_utf8 text) /\ v <> EmptyString
       | SFalse | SUndefined => False
       end /\
       match Cookies.set j st.1 (sessionKey mw) v (sessionOptions st.2) with
       | Return sc => log c' = [EvSetCookie sc; EvCallback] /\ r = Return tt
       | Throw e => log c' = [] /\ r = Throw e
       end
   else log c' = [EvCallback] /\ r = Return tt) /\
  (set_cookies_of (log c') <> [] <->
   existsb touches (executed mw ops st0) = true /\ r = Return tt).
Proof.
  cbn zeta. intros _ _.
  destruct (run_handler mw ops (cookieSession mw j h)) as [[h' c] r0] eqn:E.
  destruct (run_handler_session mw _ _ _ _ E) as (H1 & H2 & H3 & H4 & H5).
  destruct (cookieSession_initial mw j h) as (I1 & I2 & I3).
  cbn [fst snd] in *. rewrite I1 in H4, H5. rewrite I2 in H3. rewrite I3 in H1.
  split; [done|].
  pose proof (onPreEnd_cases mw h' c) as H.
  destruct (existsb touches _).
  - destruct (session c) eqn:Hs.
    + exfalso. by destruct (proj1 H5).
    + destruct H as (v & Hv & H). injection Hv as <-. rewrite H1 in H. split.
      * exists EmptyString. split; [done|].
        destruct (Cookies.set _ _ _ _ _); rewrite H; cbn; by rewrite H3.
      * destruct (Cookies.set _ _ _ _ _); rewrite H; cbn; rewrite H3; cbn;
          (split; [intros Hn; try done; by destruct Hn|by intros [_ Hr]]).
    + exfalso. by apply H4.
    + destruct H as (v & Hv & H). rewrite H1 in H.
      pose proof (cookie_value_encoded _ _ Hv) as Henc. cbn in Henc. split.
      * exists v. split; [done|].
        destruct (Cookies.set _ _ _ _ _); rewrite H; cbn; by rewrite H3.
      * destruct (Cookies.set _ _ _ _ _); rewrite H; cbn; rewrite H3; cbn;
          (split; [intros Hn; try done; by destruct Hn|by intros [_ Hr]]).
    + destruct H as (v & Hv & H). rewrite H1 in H.
      pose proof (cookie_value_encoded _ _ Hv) as Henc. cbn in Henc. split.
      * exists v. split; [done|].
        destruct (Cookies.set _ _ _ _ _); rewrite H; cbn; by rewrite H3.
      * destruct (Cookies.set _ _ _ _ _); rewrite H; cbn; rewrite H3; cbn;
          (split; [intros Hn; try done; by destruct Hn|by intros [_ Hr]]).
  - rewrite (proj2 H5) in H by done. rewrite H. cbn. rewrite H3. cbn.
    split; [done|]. split; [done|by intros [? _]].
Qed.

(** ** Reading without changing *)

(** Reads after the first one leave the state as it is. *)
Lemma repeated_reads (mw : middleware) (h : heap) (c : ctx) (n : nat) :
  session c <> SFalse ->
  run_handler mw (replicate n GetSession) (h, c) = ((h, c), Return tt).
Proof.
  intros Hs. induction n as [|n IH]; cbn; [done|]. by rewrite session_get_loaded.
Qed.

(** C2, amended: a handler that only reads the session, at least
    once, does not suppress the write.  The variable then holds the
    Session built from the cookie (a new empty one without a cookie
    that decodes; the raw text when the constructor throws), and
    [onPreEnd] passes the base64 of its JSON text to [cookies.set]:
    for a request that presents the cookie of a session the middleware
    wrote, the very same value again.  The response carries it unless
    [cookies.set] throws.  Without any access [onPreEnd] sets no
    cookie. *)
Theorem read_without_change_still_sets_cookie
    (mw : middleware) (j : Cookies.jar) (h : heap) (n : nat) :
  let st0 := cookieSession mw j h in
  let first := session_get mw st0.1 st0.2 in
  let st := (run_handler mw (replicate (S n) GetSession) st0).1 in
  first.2 <> Unmodelled ->
  onPreEnd mw st0.1 st0.2 = (with_event st0.2 EvCallback, Return tt) /\
  st = (st0.1, first.1) /\
  match Cookies.get j st0.1 (sessionKey mw) (sessionOptions st0.2) with
  | None => session st.2 = SSession {| isNew := true; own := [] |}
  | Some raw =>
      match decode_try raw with
      | JSON.Bad => session st.2 = SSession {| isNew := true; own := [] |}
      | JSON.Ok v =>
          match Session v with
          | Known (Return s) => session st.2 = SSession s
          | _ => session st.2 = SString raw
          end
      | JSON.Beyond => False
      end
  end /\
  exists v text,
    JSON.stringify (slot_value (session st.2)) = Some text /\
    v = Buffer.toString_base64 (Buffer.from_utf8 text) /\ v <> EmptyString /\
    (forall raw props,
       Cookies.get j st0.1 (sessionKey mw) (sessionOptions st0.2) = Some raw ->
       encode (VObj props) = Return raw ->
       keys_ordered (map fst props) = true -> reserved_free props = true ->
       values_serializable props = true ->
       session st.2 = SSession {| isNew := false; own := props |} /\ v = raw) /\
    match Cookies.set j st.1 (sessionKey mw) v (sessionOptions st.2) with
    | Return sc =>
        onPreEnd mw st.1 st.2 =
        (with_event (with_event st.2 (EvSetCookie sc)) EvCallback, Return tt)
    | Throw e => onPreEnd mw st.1 st.2 = (st.2, Throw e)
    end.
Proof.
  cbn zeta. intros Hmodel. split; [done|].
  destruct (cookieSession_initial mw j h) as (Hs0 & _ & Hj).
  destruct (cookieSession mw j h) as [h0 c0]. cbn [fst snd] in *.
  change (replicate (S n) GetSession) with (GetSession :: replicate n GetSession).
  cbn [run_handler run_op].
  destruct (session_get mw h0 c0) as [c1 r1] eqn:E1. cbn [fst snd] in *.
  destruct (session_get_cases mw _ _ _ _ E1) as (H1 & H2 & H3 & H4 & _ & H6).
  assert ((let (st, r) := match r1 with
                          | Known (Return _) => (h0, c1, Known (Return tt))
                          | Known (Throw e) => (h0, c1, Known (Throw e))
                          | Unmodelled => (h0, c1, Unmodelled)
                          end in
           match r with
           | Known (Return _) => run_handler mw (replicate n GetSession) st
           | _ => (st, r)
           end).1 = (h0, c1)) as ->.
  { destruct r1 as [[|]|]; [by rewrite repeated_reads|done..]. }
  cbn [fst snd]. split; [done|].
  (* what the first read left in the variable *)
  assert (match Cookies.get j h0 (sessionKey mw) (sessionOptions c0) with
          | None => session c1 = SSession {| isNew := true; own := [] |}
          | Some raw =>
              match decode_try raw with
              | JSON.Bad => session c1 = SSession {| isNew := true; own := [] |}
              | JSON.Ok v =>
                  match Session v with
                  | Known (Return s) => session c1 = SSession s
                  | _ => session c1 = SString raw
                  end
              | JSON.Beyond => False
              end
          end) as Hcontent.
  { rewrite (session_get_fresh mw h0 c0 Hs0), Hj in E1. cbn zeta in E1.
    destruct (Cookies.get j h0 (sessionKey mw) (sessionOptions c0)) as [raw|].
    - cbn match in E1. destruct (truthy (VStr raw)) eqn:Ht.
      + unfold decode in E1. destruct (decode_try raw) as [v| |].
        * cbn [mbind outcome_bind] in E1.
          destruct (Session v) as [[s|e]|]; by injection E1 as <- <-.
        * by injection E1 as <- <-.
        * cbn [mbind outcome_bind] in E1. injection E1 as <- <-. by apply Hmodel.
      + cbn in Ht. apply negb_false_iff, String.eqb_eq in Ht as ->.
        by injection E1 as <- <-.
    - by injection E1 as <- <-. }
  split; [done|].
  (* the value finalization writes *)
  pose proof (onPreEnd_cases mw h0 c1) as Hend.
  destruct (cookie_value_total (session c1)) as [v Hv]. exists v.
  pose proof (cookie_value_encoded _ _ Hv) as Henc.
  assert (loosely_null (slot_value (session c1)) = false) as Hnn.
  { destruct r1 as [[s|e]|].
    - subst s.
      destruct (session_get_first mw _ _ _ _ Hs0 E1) as [(o & -> & _)|(? & ? & _ & [=])];
        done.
    - by destruct H6 as (_ & raw & ->).
    - by destruct H6 as (_ & raw & ->). }
  rewrite Hnn in Henc. destruct Henc as (text & Htext & -> & Hne).
  exists text. split; [done|]. split; [done|]. split; [done|]. split.
  - intros raw props Hraw Hencode Hord Hfree Hvals. rewrite Hraw in Hcontent.
    assert (serializable (VObj props) = true) as Hser.
    { cbn [serializable]. apply andb_true_iff. by split. }
    destruct (decode_encode _ Hser) as (cookie & Hc & Hdec & _).
    rewrite Hencode in Hc. injection Hc as <-.
    rewrite Hdec, (Session_object _ Hord Hfree) in Hcontent. split; [done|].
    rewrite Hcontent in Hv.
    change (cookie_value _) with (encode (VObj props)) in Hv.
    rewrite Hencode in Hv. by injection Hv.
  - rewrite <- Hj, <- H1.
    destruct (session c1); [done|..];
      destruct Hend as (v' & Hv' & Hend); rewrite Hv in Hv'; injection Hv' as <-; done.
Qed.

(** ** The theorems at concrete requests *)

(** A request presenting the cookie of [{message: 'hi'}]: the Session
    is not new. *)
Lemma isNew_iff_no_truthy_payload_at_hi :
  let c := first_request "eyJtZXNzYWdlIjoiaGkifQ==" in
  let s := {| isNew := false; own := [("message", VStr "hi")] |} in
  (isNew s = true <->
     match Cookies.get (cookies c) default_app.1 (sessionKey default_app.2) (sessionOptions c) with
     | None => True
     | Some raw =>
         raw = EmptyString \/ decode_try raw = JSON.Bad \/
         (exists v, decode_try raw = JSON.Ok v /\ truthy v = false)
     end) /\
  (forall k v s', session_assign s k v = Return s' -> isNew s' = isNew s).
Proof.
  apply (isNew_iff_no_truthy_payload default_app.2 default_app.1
           (first_request "eyJtZXNzYWdlIjoiaGkifQ==")
           (with_session (first_request "eyJtZXNzYWdlIjoiaGkifQ==")
              (SSession {| isNew := false; own := [("message", VStr "hi")] |})));
    vm_compute; reflexivity.
Defined.

(** The request of the test suite that presents [invalid_string]. *)
Lemma decode_failure_is_new_session_at_invalid_string :
  (forall e, decode "invalid_string" <> Throw e) /\
  (decode_try "invalid_string" = JSON.Bad <->
   JSON.accepts (Buffer.toString_utf8 (Buffer.from_base64 "invalid_string")).1 = false) /\
  match decode_try "invalid_string" with
  | JSON.Bad =>
      decode "invalid_string" = Return VUndefined /\
      session_get default_app.2 default_app.1 (first_request "invalid_string") =
      (with_session (first_request "invalid_string") (SSession {| isNew := true; own := [] |}),
       Return (SSession {| isNew := true; own := [] |}))
  | JSON.Ok v => decode "invalid_string" = Return v
  | JSON.Beyond => decode "invalid_string" = Unmodelled
  end.
Proof.
  apply (decode_failure_is_new_session default_app.2 default_app.1
           (first_request "invalid_string") "invalid_string"); vm_compute; reflexivity.
Defined.

(** The handler of the test suite that sets [message] to [hi], on a
    request without cookies. *)
Lemma onPreEnd_sets_cookie_iff_accessed_and_set_returns_at_hi :
  let mw := default_app.2 in
  let ops := [PutSessionKey "message" (VStr "hi")] in
  let st0 := cookieSession mw no_cookies default_app.1 in
  let st := (run_handler mw ops st0).1 in
  let c' := (onPreEnd mw st.1 st.2).1 in
  let r := (onPreEnd mw st.1 st.2).2 in
  sessionOptions st.2 = sessionOptions st0.2 /\
  (if existsb touches (executed mw ops st0) then
     exists v,
       match session st.2 with
       | SNull => v = EmptyString
       | SSession s =>
           exists text,
             JSON.stringify (VObj (own s)) = Some text /\
             v = Buffer.toString_base64 (Buffer.from_utf8 text) /\ v <> EmptyString
       | SString raw =>
           exists text,
             JSON.stringify (VStr raw) = Some text /\
             v = Buffer.toString_base64 (Buffer.from_utf8 text) /\ v <> EmptyString
       | SFalse | SUndefined => False
       end /\
       match Cookies.set no_cookies st.1 (sessionKey mw) v (sessionOptions st.2) with
       | Return sc => log c' = [EvSetCookie sc; EvCallback] /\ r = Return tt
       | Throw e => log c' = [] /\ r = Throw e
       end
   else log c' = [EvCallback] /\ r = Return tt) /\
  (set_cookies_of (log c') <> [] <->
   existsb touches (executed mw ops st0) = true /\ r = Return tt).
Proof.
  apply (onPreEnd_sets_cookie_iff_accessed_and_set_returns default_app.2 no_cookies
           default_app.1 [PutSessionKey "message" (VStr "hi")]); by vm_compute.
Defined.

(** Three reads on a request presenting the cookie of
    [{message: 'hi'}]. *)
Lemma read_without_change_still_sets_cookie_at_hi :
  let mw := default_app.2 in
  let j := with_cookie "eyJtZXNzYWdlIjoiaGkifQ==" in
  let st0 := cookieSession mw j default_app.1 in
  let first := session_get mw st0.1 st0.2 in
  let st := (run_handler mw (replicate 3 GetSession) st0).1 in
  onPreEnd mw st0.1 st0.2 = (with_event st0.2 EvCallback, Return tt) /\
  st = (st0.1, first.1) /\
  match Cookies.get j st0.1 (sessionKey mw) (sessionOptions st0.2) with
  | None => session st.2 = SSession {| isNew := true; own := [] |}
  | Some raw =>
      match decode_try raw with
      | JSON.Bad => session st.2 = SSession {| isNew := true; own := [] |}
      | JSON.Ok v =>
          match Session v with
          | Known (Return s) => session st.2 = SSession s
          | _ => session st.2 = SString raw
          end
      | JSON.Beyond => False
      end
  end /\
  exists v text,
    JSON.stringify (slot_value (session st.2)) = Some text /\
    v = Buffer.toString_base64 (Buffer.from_utf8 text) /\ v <> EmptyString /\
    (forall raw props,
       Cookies.get j st0.1 (sessionKey mw) (sessionOptions st0.2) = Some raw ->
       encode (VObj props) = Return raw ->
       keys_ordered (map fst props) = true -> reserved_free props = true ->
       values_serializable props = true ->
       session st.2 = SSession {| isNew := false; own := props |} /\ v = raw) /\
    match Cookies.set j st.1 (sessionKey mw) v (sessionOptions st.2) with
    | Return sc =>
        onPreEnd mw st.1 st.2 =
        (with_event (with_event st.2 (EvSetCookie sc)) EvCallback, Return tt)
    | Throw e => onPreEnd mw st.1 st.2 = (st.2, Throw e)
    end.
Proof.
  apply (read_without_change_still_sets_cookie default_app.2
           (with_cookie "eyJtZXNzYWdlIjoiaGkifQ==") default_app.1 2); by vm_compute.
Defined.


(** A request presenting the cookie of the JSON string [ab]. *)
Lemma non_object_payload_at_ab :
  session_get default_app.2 default_app.1 (first_request "ImFiIg==") =
  (with_session (first_request "ImFiIg==")
     (SSession {| isNew := false; own := chars_from 0 "ab" |}),
   Return (SSession {| isNew := false; own := chars_from 0 "ab" |})).
Proof.
  refine (non_object_payload default_app.2 default_app.1 (first_request "ImFiIg==")
            "ImFiIg==" (VStr "ab") _ _ _ _); vm_compute; reflexivity.
Defined.

Lemma secure_heap_closed : heap_closed secure_heap.
Proof.
  intros l o p Hl Hp. unfold secure_heap in Hl.
  apply lookup_singleton_Some in Hl as [_ <-]. done.
Defined.

(** Two requests of [cookieSession({secure: true})]; the handler of
    the first sets [maxAge] and [secure] on its [sessionOptions]. *)
Lemma per_request_options_do_not_leak_at_maxAge :
  let ops := [PutOption "maxAge" (VNum 6500000); PutOption "secure" (VBool false); GetSession] in
  let app := toaCookieSession (Some 1%positive) secure_heap in
  let base := options app.2 in
  let r1 := cookieSession app.2 no_cookies app.1 in
  let r2 := cookieSession app.2 no_cookies r1.1 in
  let after := (run_handler app.2 ops (r2.1, r1.2)).1 in
  let r3 := cookieSession app.2 no_cookies after.1 in
  sessionOptions r1.2 <> base /\ sessionOptions r1.2 <> sessionOptions r2.2 /\
  sessionOptions after.2 = sessionOptions r1.2 /\
  after.1 !! base = r2.1 !! base /\
  after.1 !! sessionOptions r2.2 = r2.1 !! sessionOptions r2.2 /\
  (forall k, prop after.1 base k = prop r2.1 base k) /\
  (forall k, prop after.1 (sessionOptions r2.2) k = prop r2.1 (sessionOptions r2.2) k) /\
  r3.1 !! sessionOptions r3.2 = Some {| own_props := ∅; proto := Some base |} /\
  r3.1 !! base = r2.1 !! base.
Proof.
  apply (per_request_options_do_not_leak (Some 1%positive) secure_heap
           no_cookies no_cookies no_cookies
           [PutOption "maxAge" (VNum 6500000); PutOption "secure" (VBool false); GetSession]).
  - exact secure_heap_closed.
  - intros o [= <-]. vm_compute. by eexists.
Defined.

(** The assignment is visible on the request that made it, and only
    there. *)
Example maxAge_override_is_local :
  let app := toaCookieSession (Some 1%positive) secure_heap in
  let r1 := cookieSession app.2 no_cookies app.1 in
  let r2 := cookieSession app.2 no_cookies r1.1 in
  let after := (run_handler app.2 [PutOption "maxAge" (VNum 6500000)] (r2.1, r1.2)).1 in
  prop after.1 (sessionOptions r1.2) "maxAge" = VNum 6500000 /\
  prop after.1 (sessionOptions r2.2) "maxAge" = VUndefined /\
  prop after.1 (options app.2) "maxAge" = VUndefined /\
  prop after.1 (sessionOptions r1.2) "secure" = VBool true.
Proof. vm_compute. done. Qed.

(** ** The factory and the configuration object *)

Lemma set_prop_lookup (h : heap) (l : loc) (k : string) (v : value) :
  set_prop h l k v !! l =
  (fun o => {| own_props := <[k := v]> (own_props o); proto := proto o |}) <$> h !! l.
Proof. unfold set_prop. by rewrite lookup_alter_eq. Qed.

(** An assignment to [k] does not change what any object shows under
    another key. *)
Lemma get_prop_set_prop_ne (h : heap) (l : loc) (k k' : string) (v : value) :
  k <> k' ->
  forall fuel l', get_prop fuel (set_prop h l k v) l' k' = get_prop fuel h l' k'.
Proof.
  intros Hk. induction fuel as [|fuel IH]; intros l'; cbn; [done|].
  destruct (decide (l' = l)) as [->|Hl].
  - rewrite set_prop_lookup. destruct (h !! l) as [o|]; cbn; [|done].
    rewrite lookup_insert_ne by done.
    destruct (own_props o !! k'); [done|]. destruct (proto o); [apply IH|done].
  - unfold set_prop at 1. rewrite lookup_alter_ne by done.
    destruct (h !! l') as [o|]; [|done].
    destruct (own_props o !! k'); [done|]. destruct (proto o); [apply IH|done].
Qed.

Lemma prop_set_prop_ne (h : heap) (l l' : loc) (k k' : string) (v : value) :
  k <> k' -> prop (set_prop h l k v) l' k' = prop h l' k'.
Proof.
  intros Hk. unfold prop.
  rewrite (same_but_size l h (set_prop h l k v)) by apply set_prop_same_but.
  by apply get_prop_set_prop_ne.
Qed.

Lemma set_prop_is_Some (h : heap) (l l' : loc) (k : string) (v : value) :
  is_Some (h !! l') -> is_Some (set_prop h l k v !! l').
Proof.
  intros [o Ho]. destruct (decide (l' = l)) as [->|Hl].
  - rewrite set_prop_lookup, Ho. by eexists.
  - unfold set_prop. rewrite lookup_alter_ne by done. by eexists.
Qed.

(** The heap after the three assignments of the factory. *)
Lemma factory_assignments (h : heap) (o : loc) :
  is_Some (h !! o) ->
  let ha := set_prop h o "overwrite" (VBool (is_not_false (prop h o "overwrite"))) in
  let hb := set_prop ha o "httpOnly" (VBool (is_not_false (prop ha o "httpOnly"))) in
  let hc := set_prop hb o "signed" (VBool (is_not_false (prop hb o "signed"))) in
  forall k, prop hc o k =
    if bool_decide (k ∈ defaulted) then VBool (is_not_false (prop h o k)) else prop h o k.
Proof.
  intros Ho ha hb hc k.
  assert (is_Some (ha !! o)) as Ha by by apply set_prop_is_Some.
  assert (is_Some (hb !! o)) as Hb by by apply set_prop_is_Some.
  destruct (decide (k = "signed")) as [->|H3].
  { subst hc. rewrite prop_set_prop by done. subst hb ha.
    rewrite !prop_set_prop_ne by done. by rewrite bool_decide_eq_true_2 by (vm_compute; set_solver). }
  subst hc. rewrite prop_set_prop_ne by done.
  destruct (decide (k = "httpOnly")) as [->|H2].
  { subst hb. rewrite prop_set_prop by done. subst ha.
    rewrite !prop_set_prop_ne by done. by rewrite bool_decide_eq_true_2 by (vm_compute; set_solver). }
  subst hb. rewrite prop_set_prop_ne by done.
  destruct (decide (k = "overwrite")) as [->|H1].
  { subst ha. rewrite prop_set_prop by done.
    by rewrite bool_decide_eq_true_2 by (vm_compute; set_solver). }
  subst ha. rewrite prop_set_prop_ne by done.
  rewrite bool_decide_eq_false_2; [done|].
  unfold defaulted. rewrite !elem_of_cons, elem_of_nil. tauto.
Qed.

(** X1: the factory writes [overwrite], [httpOnly] and [signed] on
    the options object it was given (or on a new one when none was
    given): each becomes a boolean that is false only when the option
    read [false] before, so [0], [null] or a missing option mean
    [true]; every other option reads as before, nothing else in the
    heap changes, and the cookie name is [options.name] when that is
    truthy and [toa:sess] otherwise. *)
Theorem toaCookieSession_defaults (opts : option loc) (h : heap) :
  (forall o, opts = Some o -> is_Some (h !! o)) ->
  let given k := match opts with Some o => prop h o k | None => VUndefined end in
  let app := toaCookieSession opts h in
  (forall k, prop app.1 (options app.2) k =
     if bool_decide (k ∈ defaulted) then VBool (is_not_false (given k)) else given k) /\
  sessionKey app.2 = (if truthy (given "name") then given "name" else VStr "toa:sess") /\
  (forall o, opts = Some o -> options app.2 = o /\ same_but o h app.1).
Proof.
  intros Hopts. cbn zeta. unfold toaCookieSession.
  set (start := match opts with
                | Some o => (h, o)
                | None => alloc h {| own_props := ∅; proto := None |}
                end).
  assert (is_Some (start.1 !! start.2) /\
          forall k, prop start.1 start.2 k =
                    match opts with Some o => prop h o k | None => VUndefined end) as [Ho Hk].
  { subst start. destruct opts as [o|]; [by split; [apply Hopts|]|]. split.
    - cbn. by rewrite lookup_insert_eq.
    - intros k. unfold prop. cbn. by rewrite lookup_insert_eq. }
  assert (forall o, opts = Some o -> start = (h, o)) as Hstart by by intros o ->.
  destruct start as [h1 o1]. cbn [fst snd] in *.
  pose proof (factory_assignments h1 o1 Ho) as Hfinal. cbn zeta in Hfinal.
  set (ha := set_prop h1 o1 "overwrite" _) in *.
  set (hb := set_prop ha o1 "httpOnly" _) in *.
  set (hc := set_prop hb o1 "signed" _) in *.
  cbn [fst snd options sessionKey]. split; [|split].
  - intros k. rewrite Hfinal. by rewrite Hk.
  - rewrite Hfinal, bool_decide_eq_false_2, Hk; [done|].
    unfold defaulted. rewrite !elem_of_cons, elem_of_nil. by intros [?|[?|[?|?]]].
  - intros o Hopt. specialize (Hstart o Hopt). injection Hstart as -> ->. split; [done|].
    eapply same_but_trans; [|apply set_prop_same_but].
    eapply same_but_trans; [|apply set_prop_same_but].
    apply set_prop_same_but.
Qed.

(** Assigning to an own property the value it holds changes nothing. *)
Lemma set_prop_own_id (h : heap) (l : loc) (k : string) (v : value) (o : object) :
  h !! l = Some o -> own_props o !! k = Some v -> set_prop h l k v = h.
Proof.
  intros Ho Hk. unfold set_prop. apply map_eq. intros l'.
  destruct (decide (l' = l)) as [->|Hl].
  - rewrite lookup_alter_eq, Ho. cbn. rewrite insert_id by done. by destruct o.
  - by rewrite lookup_alter_ne.
Qed.

Lemma prop_own (h : heap) (l : loc) (k : string) (v : value) (o : object) :
  h !! l = Some o -> own_props o !! k = Some v -> prop h l k = v.
Proof. intros Ho Hk. unfold prop. cbn. by rewrite Ho, Hk. Qed.

(** On an options object whose three defaulted options are own
    booleans already, the factory changes nothing. *)
Lemma factory_fixed (h : heap) (l : loc) (o : object) (b1 b2 b3 : bool) :
  h !! l = Some o ->
  own_props o !! "overwrite" = Some (VBool b1) ->
  own_props o !! "httpOnly" = Some (VBool b2) ->
  own_props o !! "signed" = Some (VBool b3) ->
  (toaCookieSession (Some l) h).1 = h.
Proof.
  intros Ho H1 H2 H3. unfold toaCookieSession. cbn [fst].
  assert (forall b, VBool (is_not_false (VBool b)) = VBool b) as Hb by by intros [].
  rewrite (prop_own h l _ _ o Ho H1), Hb, (set_prop_own_id h l _ _ o Ho H1).
  rewrite (prop_own h l _ _ o Ho H2), Hb, (set_prop_own_id h l _ _ o Ho H2).
  by rewrite (prop_own h l _ _ o Ho H3), Hb, (set_prop_own_id h l _ _ o Ho H3).
Qed.

Lemma toaCookieSession_key (opts : option loc) (h : heap) :
  sessionKey (toaCookieSession opts h).2 =
  let name := prop (toaCookieSession opts h).1 (options (toaCookieSession opts h).2) "name" in
  if truthy name then name else VStr "toa:sess".
Proof. unfold toaCookieSession. by destruct opts; cbn. Qed.

(** X2: calling the factory again on the options object a first
    call has prepared changes nothing: the heap is the same and the
    second middleware has the same options object and cookie name. *)
Theorem toaCookieSession_twice (opts : option loc) (h : heap) :
  (forall o, opts = Some o -> is_Some (h !! o)) ->
  let app := toaCookieSession opts h in
  toaCookieSession (Some (options app.2)) app.1 = app.
Proof.
  intros Hopts app.
  assert (exists o b1 b2 b3, app.1 !! options app.2 = Some o /\
            own_props o !! "overwrite" = Some (VBool b1) /\
            own_props o !! "httpOnly" = Some (VBool b2) /\
            own_props o !! "signed" = Some (VBool b3)) as (o & b1 & b2 & b3 & Ho & H1 & H2 & H3).
  { subst app. unfold toaCookieSession.
    set (start := match opts with
                  | Some o => (h, o)
                  | None => alloc h {| own_props := ∅; proto := None |}
                  end).
    assert (is_Some (start.1 !! start.2)) as [o0 Ho0].
    { subst start. destruct opts as [o|]; [by apply Hopts|]. cbn. by rewrite lookup_insert_eq. }
    destruct start as [h1 o1]. cbn [fst snd options] in *.
    rewrite !set_prop_lookup, Ho0. cbn [fmap option_fmap option_map own_props].
    eexists _, _, _, _. split; [done|]. cbn [own_props]. split_and!.
    - by rewrite lookup_insert_ne, lookup_insert_ne, lookup_insert_eq.
    - by rewrite lookup_insert_ne, lookup_insert_eq.
    - by rewrite lookup_insert_eq. }
  pose proof (factory_fixed _ _ _ _ _ _ Ho H1 H2 H3) as Hheap.
  pose proof (toaCookieSession_key (Some (options app.2)) app.1) as Hkey.
  pose proof (toaCookieSession_key opts h) as Hkey0. fold app in Hkey0.
  destruct (toaCookieSession (Some (options app.2)) app.1) as [h2 mw2] eqn:E.
  assert (options mw2 = options app.2) as Hopt.
  { unfold toaCookieSession in E. by injection E as _ <-. }
  cbn [fst snd] in *. subst h2. rewrite Hopt, <- Hkey0 in Hkey.
  destruct app as [h1 mw1]. cbn [fst snd] in *. f_equal.
  destruct mw1, mw2. cbn in *. by subst.
Qed.

(** ** The per-request options *)





(** ** Reads after writes, and a first read that fails *)

(** X4: after an assignment the setter accepted, a read returns
    what the assignment stored and leaves the request unchanged, so the
    incoming cookie is not consulted: [null] after [null] or
    [undefined], and otherwise the Session built from the assigned
    value, which is not new. *)
Theorem read_after_assignment (mw : middleware) (h : heap) (val : value) (c c' : ctx) :
  session_set val c = (c', Return tt) ->
  session_get mw h c' = (c', Return (session c')) /\
  if loosely_null val then session c' = SNull
  else exists s, Session val = Return s /\ session c' = SSession s /\ isNew s = false.
Proof.
  unfold session_set. destruct (loosely_null val) eqn:Hnull.
  { intros [= <-]. by split. }
  destruct (typeof val) eqn:Htype; try done.
  destruct (Session val) as [[s|]|] eqn:Hs; [|done..]. intros [= <-]. split; [done|].
  exists s. split; [done|]. split; [done|].
  rewrite (Session_isNew _ _ Hs). by destruct val as [| |[]| | | | | |].
Qed.

(** X5: when the cookie decodes to an object that has an own key
    [isNew], the first read throws the TypeError of the constructor
    and leaves the raw cookie text in the closure variable; a second
    read therefore returns that text instead of a Session, and the
    value [onPreEnd] would write is the base64 of the text's JSON
    string literal. *)
Theorem failed_first_read_keeps_raw_cookie
    (mw : middleware) (h : heap) (c : ctx) (raw : string) (props : list (string * value)) :
  session c = SFalse ->
  Cookies.get (cookies c) h (sessionKey mw) (sessionOptions c) = Some raw ->
  decode_try raw = JSON.Ok (VObj props) ->
  "isNew" ∈ map fst props ->
  let c' := with_session c (SString raw) in
  session_get mw h c =
  (c', Throw (TypeError "Cannot assign to read only property 'isNew' of object")) /\
  session_get mw h c' = (c', Return (SString raw)) /\
  cookie_value (session c') =
  Return (Buffer.toString_base64 (Buffer.from_utf8 (JSON.quote raw))).
Proof.
  intros Hs Hraw Hdec Hkey. cbn zeta. split; [|by split].
  rewrite (session_get_fresh mw h c Hs), Hraw. cbn zeta.
  assert (truthy (VStr raw) = true) as Ht.
  { cbn. destruct (String.eqb_spec raw EmptyString) as [->|]; [|done].
    by vm_compute in Hdec. }
  cbn match. rewrite Ht. unfold decode. rewrite Hdec. cbn [mbind outcome_bind].
  unfold Session. cbn [truthy Object.keys mbind outcome_bind].
  pose proof (assign_keys_outcome (VObj props) (map fst props)
                {| isNew := negb true; own := [] |}
                (function_free_plain_proto _ (decode_try_function_free _ _ Hdec))) as Hout.
  rewrite bool_decide_eq_true_2 in Hout by done. by rewrite Hout.
Qed.

(** ** The keys of a Session *)

Lemma keys_ordered_from_NoDup (ks : list string) :
  forall seen, keys_ordered_from seen ks = true ->
  NoDup ks /\ forall k, k ∈ ks -> k ∉ seen.
Proof.
  induction ks as [|k ks IH]; intros seen; cbn.
  { intros _. split; [constructor|]. by intros k ?%elem_of_nil. }
  intros [Hfit Hrest]%andb_true_iff. destruct (IH _ Hrest) as [Hnd Hnot].
  assert (k ∉ seen) as Hk.
  { unfold fits in Hfit. apply andb_true_iff in Hfit as [Hfit _].
    apply negb_true_iff in Hfit. intros Hin%list_elem_of_In.
    assert (existsb (String.eqb k) seen = true) as E; [|by rewrite E in Hfit].
    apply existsb_exists. exists k. split; [done|apply String.eqb_refl]. }
  split.
  - constructor; [|done]. intros Hin. apply (Hnot k Hin), elem_of_app. right.
    apply list_elem_of_here.
  - intros k' [->|Hin]%elem_of_cons; [done|].
    intros Hseen. apply (Hnot k' Hin), elem_of_app. by left.
Qed.

Lemma reserved_free_not_in (props : list (string * value)) :
  reserved_free props = true ->
  ("isNew" ∉ map fst props) /\ ("__proto__" ∉ map fst props).
Proof.
  induction props as [|[k v] props IH]; cbn.
  { intros _. split; by intros ?%elem_of_nil. }
  intros [[H1 H2]%andb_true_iff Hrest]%andb_true_iff. destruct (IH Hrest) as [I1 I2].
  apply negb_true_iff, String.eqb_neq in H1. apply negb_true_iff, String.eqb_neq in H2.
  split; intros [E|Hin]%elem_of_cons; done.
Qed.

(** X6: after any handler the model follows to its end (so one that
    assigns nothing to [__proto__]), the Session in the closure
    variable has distinct own enumerable keys and none of them is
    [isNew] or [__proto__], so the text written to the cookie has no
    top-level member [isNew]. *)
Theorem session_keys_invariant
    (mw : middleware) (j : Cookies.jar) (h : heap) (ops : list op) :
  (run_handler mw ops (cookieSession mw j h)).2 <> Unmodelled ->
  match session (run_handler mw ops (cookieSession mw j h)).1.2 with
  | SSession s =>
      NoDup (map fst (own s)) /\
      ("isNew" ∉ map fst (own s)) /\ ("__proto__" ∉ map fst (own s))
  | _ => True
  end.
Proof.
  intros _.
  destruct (run_handler mw ops (cookieSession mw j h)) as [st r] eqn:E.
  pose proof (run_handler_wf mw ops _ _ _ E eq_refl) as Hwf. cbn [fst snd] in *.
  destruct (session st.2) as [| | | |s]; try done.
  cbn in Hwf. apply andb_true_iff in Hwf as [Hord Hfree]. split.
  - by destruct (keys_ordered_from_NoDup _ _ Hord).
  - by apply reserved_free_not_in.
Qed.
(** ** An array assigned as the session *)

Lemma keys_elements_from (l : list value) :
  forall i, map fst (elements_from i l) = Object.indices i (List.length l).
Proof. induction l as [|x l IH]; intros i; cbn; [done|]. by rewrite IH. Qed.

Lemma elements_from_app (a b : list value) :
  forall i, elements_from i (a ++ b) =
  (elements_from i a ++ elements_from (i + N.of_nat (List.length a)) b)%list.
Proof.
  induction a as [|x a IH]; intros i; cbn [app elements_from List.length].
  - by rewrite N.add_0_r.
  - rewrite IH. cbn. do 3 f_equal. lia.
Qed.

Lemma assign_keys_array (l : list value) :
  forall (pre : list value) (this : session_t),
  (N.of_nat (List.length pre + List.length l) < 4294967295)%N ->
  own this = elements_from 0 pre ->
  assign_keys (VArr (pre ++ l))
    (Object.indices (N.of_nat (List.length pre)) (List.length l)) this
  = Return {| isNew := isNew this; own := elements_from 0 (pre ++ l) |}.
Proof.
  induction l as [|x l IH]; intros pre this Hlen Hown.
  - cbn. rewrite app_nil_r, <- Hown. by destruct this.
  - cbn [List.length Object.indices assign_keys].
    set (i := N.of_nat (List.length pre)).
    assert (i < 4294967295)%N as Hi by (cbn in Hlen; lia).
    pose proof (array_index_string_of_N i Hi) as Hidx.
    unfold session_assign.
    destruct (String.eqb_spec (string_of_N i) "isNew") as [E|_];
      [by rewrite E in Hidx|].
    destruct (String.eqb_spec (string_of_N i) "__proto__") as [E|_];
      [by rewrite E in Hidx|].
    cbn [Object.get]. rewrite Hidx.
    replace (N.to_nat i) with (List.length pre) by (subst i; lia).
    rewrite nth_middle.
    cbn [mbind outcome_bind].
    assert (pre ++ x :: l = (pre ++ [x]) ++ l)%list as Happ
      by by rewrite <- app_assoc.
    assert (List.length (pre ++ [x]) = S (List.length pre)) as Hl
      by (rewrite length_app; cbn; lia).
    rewrite Happ at 1.
    replace (N.succ i) with (N.of_nat (List.length (pre ++ [x])))
      by (rewrite Hl; lia).
    rewrite IH.
    + cbn. by rewrite <- Happ.
    + rewrite Hl. cbn in Hlen. by rewrite Nat.add_succ_r in Hlen.
    + cbn [own]. rewrite elements_from_app, Hown. cbn. rewrite N.add_0_l.
      apply obj_set_fits. unfold fits. rewrite keys_elements_from. fold i.
      destruct (indices_fit i (List.length pre) 0) as [-> H2]; [lia|done|].
      by rewrite Hidx, H2.
Qed.

(** [new Session(l)] for an array [l]: one property per element,
    under its index. *)
Lemma Session_array (l : list value) :
  (N.of_nat (List.length l) < 4294967295)%N ->
  Session (VArr l) = Return {| isNew := false; own := elements_from 0 l |}.
Proof.
  intros Hlen. unfold Session.
  cbn [truthy Object.keys mbind outcome_bind negb].
  pose proof (assign_keys_array l [] {| isNew := false; own := [] |} Hlen eq_refl) as H.
  cbn [app List.length isNew] in H. by change (N.of_nat 0) with 0%N in H.
Qed.

(** X7: an array is accepted by the setter; the session becomes a
    Session that is not new, with one own property per element under
    its index: an object, not an array. *)
Theorem array_assignment_becomes_object (l : list value) (c : ctx) :
  (N.of_nat (List.length l) < 4294967295)%N ->
  session_set (VArr l) c =
  (with_session c (SSession {| isNew := false; own := elements_from 0 l |}), Return tt).
Proof.
  intros Hlen. unfold session_set.
  cbn [loosely_null typeof]. by rewrite Session_array.
Qed.

(** X8: when the cookie decodes to an array, the first read yields
    a Session that is not new, with one own property per element under
    its index: the getter does not ask for an object. *)
Theorem array_payload
    (mw : middleware) (h : heap) (c : ctx) (raw : string) (l : list value) :
  session c = SFalse ->
  Cookies.get (cookies c) h (sessionKey mw) (sessionOptions c) = Some raw ->
  decode_try raw = JSON.Ok (VArr l) ->
  (N.of_nat (List.length l) < 4294967295)%N ->
  session_get mw h c =
  (with_session c (SSession {| isNew := false; own := elements_from 0 l |}),
   Return (SSession {| isNew := false; own := elements_from 0 l |})).
Proof.
  intros Hs Hraw Hdec Hlen. rewrite (session_get_fresh mw h c Hs), Hraw. cbn zeta.
  assert (truthy (VStr raw) = true) as Ht.
  { cbn. destruct (String.eqb_spec raw EmptyString) as [->|]; [|done].
    by vm_compute in Hdec. }
  cbn match. rewrite Ht. unfold decode. rewrite Hdec. cbn [mbind outcome_bind].
  by rewrite Session_array.
Qed.

(** X9: assigning an object that has no own key [isNew] or
    [__proto__] stores a Session with exactly the object's own
    properties, in the same order. *)
Theorem object_assignment_keeps_order (props : list (string * value)) (c : ctx) :
  keys_ordered (map fst props) = true ->
  reserved_free props = true ->
  session_set (VObj props) c =
  (with_session c (SSession {| isNew := false; own := props |}), Return tt).
Proof.
  intros Hord Hfree. unfold session_set.
  cbn [loosely_null typeof]. by rewrite Session_object.
Qed.

(** ** The cookie value *)

(** X10: whatever the closure variable holds (no [toJSON] method
    inside), the value [onPreEnd] passes to [cookies.set] consists of
    base64 characters only, in groups of four; it is empty exactly
    when the variable is [null] or [undefined], so [encode] never
    produces the value that removes the cookie. *)
Theorem cookie_value_is_base64 (s : slot) :
  no_toJSON (slot_value s) = true ->
  exists v, cookie_value s = Return v /\
    all_chars base64_alphabet v = true /\
    (String.length v mod 4 = 0)%nat /\
    (v = EmptyString <-> loosely_null (slot_value s) = true).
Proof.
  intros _. destruct (cookie_value_total s) as [v Hv]. exists v. split; [done|].
  unfold cookie_value in Hv. destruct (loosely_null (slot_value s)).
  - injection Hv as <-. by repeat split.
  - destruct (encode_shape _ _ Hv) as (H1 & H2 & H3). by repeat split.
Qed.

(** X11: a property whose value is [undefined] or a function (and
    whose name is not [toJSON]) is not written to the cookie: the
    cookie is the one of the object without that property, and decodes
    to it. *)
Theorem unserializable_property_is_lost
    (p1 p2 : list (string * value)) (k : string) (v : value) :
  v = VUndefined \/ v = VFun ->
  k <> "toJSON" ->
  serializable (VObj (p1 ++ p2)) = true ->
  exists cookie,
    encode (VObj (p1 ++ (k, v) :: p2)) = Return cookie /\
    encode (VObj (p1 ++ p2)) = Return cookie /\
    decode cookie = Return (VObj (p1 ++ p2)).
Proof.
  intros Hv _ Hser. destruct (decode_encode _ Hser) as (cookie & Henc & _ & Hdec).
  exists cookie. split; [|by split]. rewrite <- Henc.
  unfold encode, JSON.stringify. rewrite !serialize_object, !flat_map_app.
  cbn [List.flat_map]. by destruct Hv as [-> | ->].
Qed.

(** ** The further theorems at concrete inputs *)

(** [cookieSession({secure: true})]. *)
Lemma toaCookieSession_defaults_at_secure :
  let given k := prop secure_heap 1%positive k in
  let app := toaCookieSession (Some 1%positive) secure_heap in
  (forall k, prop app.1 (options app.2) k =
     if bool_decide (k ∈ defaulted) then VBool (is_not_false (given k)) else given k) /\
  sessionKey app.2 = (if truthy (given "name") then given "name" else VStr "toa:sess") /\
  (forall o, Some 1%positive = Some o -> options app.2 = o /\ same_but o secure_heap app.1).
Proof.
  apply (toaCookieSession_defaults (Some 1%positive) secure_heap).
  intros o [= <-]. vm_compute. by eexists.
Defined.

Lemma toaCookieSession_twice_at_secure :
  toaCookieSession (Some (options secure_app.2)) secure_app.1 = secure_app.
Proof.
  apply (toaCookieSession_twice (Some 1%positive) secure_heap).
  intros o [= <-]. vm_compute. by eexists.
Defined.



(** [this.session = null] on a request that presents a session. *)
Lemma read_after_assignment_at_null :
  let c := first_request "eyJtZXNzYWdlIjoiaGkifQ==" in
  session_get default_app.2 default_app.1 (with_session c SNull) =
  (with_session c SNull, Return (session (with_session c SNull))) /\
  session (with_session c SNull) = SNull.
Proof.
  exact (read_after_assignment default_app.2 default_app.1 VNull
           (first_request "eyJtZXNzYWdlIjoiaGkifQ==")
           (with_session (first_request "eyJtZXNzYWdlIjoiaGkifQ==") SNull) eq_refl).
Defined.

(** The cookie is the base64 of the text [{"isNew":true}]. *)
Lemma failed_first_read_keeps_raw_cookie_at_isNew :
  let c := first_request "eyJpc05ldyI6dHJ1ZX0=" in
  let c' := with_session c (SString "eyJpc05ldyI6dHJ1ZX0=") in
  session_get default_app.2 default_app.1 c =
  (c', Throw (TypeError "Cannot assign to read only property 'isNew' of object")) /\
  session_get default_app.2 default_app.1 c' = (c', Return (SString "eyJpc05ldyI6dHJ1ZX0=")) /\
  cookie_value (session c') =
  Return (Buffer.toString_base64 (Buffer.from_utf8 (JSON.quote "eyJpc05ldyI6dHJ1ZX0="))).
Proof.
  refine (failed_first_read_keeps_raw_cookie default_app.2 default_app.1
            (first_request "eyJpc05ldyI6dHJ1ZX0=") "eyJpc05ldyI6dHJ1ZX0="
            [("isNew", VBool true)] _ _ _ _);
    [vm_compute; reflexivity..|].
  apply list_elem_of_here.
Defined.

(** The session [{message: 'hi', string: ';'}]. *)
Lemma cookie_value_is_base64_at_hi :
  exists v, cookie_value (SSession hi_session) = Return v /\
    all_chars base64_alphabet v = true /\
    (String.length v mod 4 = 0)%nat /\
    (v = EmptyString <-> loosely_null (slot_value (SSession hi_session)) = true).
Proof. apply (cookie_value_is_base64 (SSession hi_session)). vm_compute. reflexivity. Defined.

(** The session [{a: 1, f: undefined}]. *)
Lemma unserializable_property_is_lost_at_f :
  exists cookie,
    encode (VObj ([("a", VNum 1)] ++ [("f", VUndefined)])) = Return cookie /\
    encode (VObj ([("a", VNum 1)] ++ [])) = Return cookie /\
    decode cookie = Return (VObj ([("a", VNum 1)] ++ [])).
Proof.
  apply (unserializable_property_is_lost [("a", VNum 1)] [] "f" VUndefined);
    [by left|done|vm_compute; reflexivity].
Defined.

(** [this.session = [1, 'x']]. *)
Lemma array_assignment_becomes_object_at_pair :
  let c := first_request "" in
  session_set (VArr [VNum 1; VStr "x"]) c =
  (with_session c (SSession {| isNew := false;
                                own := elements_from 0 [VNum 1; VStr "x"] |}), Return tt).
Proof.
  apply (array_assignment_becomes_object [VNum 1; VStr "x"] (first_request "")).
  vm_compute. reflexivity.
Defined.

(** The handler that sets [message] and [string], on a request that
    presents a session. *)
Lemma session_keys_invariant_at_hi :
  match
    session (run_handler default_app.2
               [PutSessionKey "message" (VStr "hi"); PutSessionKey "string" (VStr ";")]
               (cookieSession default_app.2 (with_cookie "eyJtZXNzYWdlIjoiaGkifQ==")
                  default_app.1)).1.2
  with
  | SSession s =>
      NoDup (map fst (own s)) /\
      ("isNew" ∉ map fst (own s)) /\ ("__proto__" ∉ map fst (own s))
  | _ => True
  end.
Proof.
  apply (session_keys_invariant default_app.2 (with_cookie "eyJtZXNzYWdlIjoiaGkifQ==")
           default_app.1
           [PutSessionKey "message" (VStr "hi"); PutSessionKey "string" (VStr ";")]).
  by vm_compute.
Defined.

(** The cookie is the base64 of the text [[1,"x"]]. *)
Lemma array_payload_at_pair :
  let c := first_request "WzEsIngiXQ==" in
  session_get default_app.2 default_app.1 c =
  (with_session c (SSession {| isNew := false;
                                own := elements_from 0 [VNum 1; VStr "x"] |}),
   Return (SSession {| isNew := false; own := elements_from 0 [VNum 1; VStr "x"] |})).
Proof.
  refine (array_payload default_app.2 default_app.1 (first_request "WzEsIngiXQ==")
            "WzEsIngiXQ==" [VNum 1; VStr "x"] _ _ _ _); vm_compute; reflexivity.
Defined.

(** [this.session = {'0': 'a', name: 'x'}]. *)
Lemma object_assignment_keeps_order_at_name :
  let c := first_request "" in
  let props := [("0", VStr "a"); ("name", VStr "x")] in
  session_set (VObj props) c =
  (with_session c (SSession {| isNew := false; own := props |}), Return tt).
Proof.
  apply (object_assignment_keeps_order [("0", VStr "a"); ("name", VStr "x")]
           (first_request "")); vm_compute; reflexivity.
Defined.

